(** * Drag & drop pairing controller (src/scripts/drag_and_drop.js)

    A shallow embedding of [VHL.Music.V1.DragAndDrop]: the page is a store of
    nodes (class list, attributes, jQuery listener bindings), the controller
    instance is the four fields the constructor sets, and every handler of the
    source is a function on that state.  The match callback [checkMatch] is
    external: its invocations are recorded in a log, in order, with the two
    arguments it received.  Whatever a callback does to the page once it runs
    (for instance calling [disableMatching]) is a later step of a trace: both
    callers make the call as their last statement.  The handlers are given
    first for a callback that returns; module [Throwing] gives the functions
    on the callback's path for a callback that may throw. *)

From stdpp Require Import gmap strings list.
From Stdlib Require Import ZArith.

Local Open Scope string_scope.
Local Open Scope list_scope.

(* ------------------------------------------------------------------------- *)
(** ** Constants *)

(** [const ui = Object.freeze({ state: {...} })] *)
Module ui.
Module state.
Definition IS_MOVING : string := "is-moving".
Definition HAS_MOVED : string := "has-moved".
Definition IS_AVAILABLE_TARGET : string := "is-available-target".
Definition IS_HOVERED : string := "is-hovered".
Definition IS_SELECTED : string := "is-selected".
End state.
End ui.

(** [const keyCodes = {...}] of [_addKeyboardEventHandlers]. *)
Module keyCodes.
Definition ENTER_KEY : Z := 13.
Definition SPACE_BAR : Z := 32.
Definition ESCAPE : Z := 27.
End keyCodes.

(* ------------------------------------------------------------------------- *)
(** ** Page, events and controller state *)

(** DOM elements are named by numbers; a jQuery object is the sequence of the
    elements it wraps. *)
Abbreviation Elem := nat (only parsing).
Abbreviation jQuery := (list nat) (only parsing).

(** The functions the source binds as listeners.  The two anonymous
    click/keypress closures and the anonymous keydown closure of
    [_addKeyboardEventHandlers] get a name each. *)
Inductive Handler :=
| HDragStart | HDragEnd
| HDragEnter | HDragLeave | HDragOver | HDrop
| HActivateDraggable | HActivateTarget
| HEscape.

Global Instance Handler_eq_dec : EqDecision Handler.
Proof. solve_decision. Defined.

(** What the code reads and writes of an element. *)
Record Node := {
  classList : gset string;
  attributes : gmap string string;
  listeners : list (string * Handler)   (* jQuery bindings, in binding order *)
}.

Definition blank : Node :=
  {| classList := ∅; attributes := ∅; listeners := [] |}.

(** A delivered event, as far as the handlers look at it. *)
Record Event := {
  type : string;
  currentTarget : Elem;
  which : Z
}.

(** The controller instance ([this.$context], [this.$draggables],
    [this.$targets], [this.$dragElement]) together with the page it acts on
    and the observable effects: calls of [checkMatch] and calls of [focus]. *)
Record World := {
  document : Elem → Node;
  dd_context : jQuery;
  dd_draggables : jQuery;
  dd_targets : jQuery;
  dd_dragElement : option jQuery;           (* [None] is JS [undefined] *)
  matchLog : list (option jQuery * jQuery); (* oldest call first *)
  focusLog : list Elem                      (* oldest call first *)
}.

Definition with_document (f : (Elem → Node) → Elem → Node) (w : World) : World :=
  {| document := f (document w);
     dd_context := dd_context w; dd_draggables := dd_draggables w;
     dd_targets := dd_targets w; dd_dragElement := dd_dragElement w;
     matchLog := matchLog w; focusLog := focusLog w |}.

Definition set_dragElement (d : option jQuery) (w : World) : World :=
  {| document := document w;
     dd_context := dd_context w; dd_draggables := dd_draggables w;
     dd_targets := dd_targets w; dd_dragElement := d;
     matchLog := matchLog w; focusLog := focusLog w |}.

(** [self.checkMatch(d, t)], the call of a callback that returns: the call is
    logged.  [Throwing] below has the call of a callback that may throw. *)
Definition checkMatch (d : option jQuery) (t : jQuery) (w : World) : World :=
  {| document := document w;
     dd_context := dd_context w; dd_draggables := dd_draggables w;
     dd_targets := dd_targets w; dd_dragElement := dd_dragElement w;
     matchLog := matchLog w ++ [(d, t)]; focusLog := focusLog w |}.

(** [$el.focus()]: one call per wrapped element, in order. *)
Definition focus (els : jQuery) (w : World) : World :=
  {| document := document w;
     dd_context := dd_context w; dd_draggables := dd_draggables w;
     dd_targets := dd_targets w; dd_dragElement := dd_dragElement w;
     matchLog := matchLog w; focusLog := focusLog w ++ els |}.

(* ------------------------------------------------------------------------- *)
(** ** The jQuery operations the source uses *)

Module jq.

(** Apply [f] to the node of every element of the set; a jQuery set holds
    an element once. *)
Definition each (f : Node → Node) (els : jQuery) (doc : Elem → Node) : Elem → Node :=
  λ e, if bool_decide (e ∈ els) then f (doc e) else doc e.

Definition node_addClass (c : string) (n : Node) : Node :=
  {| classList := classList n ∪ {[c]}; attributes := attributes n; listeners := listeners n |}.
Definition node_removeClass (c : string) (n : Node) : Node :=
  {| classList := classList n ∖ {[c]}; attributes := attributes n; listeners := listeners n |}.
Definition node_attr (k v : string) (n : Node) : Node :=
  {| classList := classList n; attributes := <[k := v]> (attributes n); listeners := listeners n |}.
Definition node_removeAttr (k : string) (n : Node) : Node :=
  {| classList := classList n; attributes := delete k (attributes n); listeners := listeners n |}.
Definition node_on (bs : list (string * Handler)) (n : Node) : Node :=
  {| classList := classList n; attributes := attributes n; listeners := listeners n ++ bs |}.
(** [.off({type: fn, ...})]: drop the bindings of these functions for these types. *)
Definition node_off (bs : list (string * Handler)) (n : Node) : Node :=
  {| classList := classList n; attributes := attributes n;
     listeners := filter (λ b, b ∉ bs) (listeners n) |}.
(** [.off('type')]: drop every binding of that event type. *)
Definition node_offType (ty : string) (n : Node) : Node :=
  {| classList := classList n; attributes := attributes n;
     listeners := filter (λ b, b.1 ≠ ty) (listeners n) |}.

Definition addClass c els := with_document (each (node_addClass c) els).
Definition removeClass c els := with_document (each (node_removeClass c) els).
(** [.toggleClass(c, state)] with the boolean second argument. *)
Definition toggleClass c (st : bool) els :=
  if st then addClass c els else removeClass c els.
Definition attr k v els := with_document (each (node_attr k v) els).
Definition removeAttr k els := with_document (each (node_removeAttr k) els).
Definition on bs els := with_document (each (node_on bs) els).
Definition off bs els := with_document (each (node_off bs) els).
Definition offType ty els := with_document (each (node_offType ty) els).

(** [.hasClass(c)]: true when any wrapped element carries the class. *)
Definition hasClass (c : string) (els : jQuery) (w : World) : bool :=
  bool_decide (Exists (λ e, c ∈ classList (document w e)) els).

(** [.attr(k)] as a getter: the attribute of the first element, [None] for
    [undefined]. *)
Definition getAttr (k : string) (els : jQuery) (w : World) : option string :=
  match els with
  | [] => None
  | e :: _ => attributes (document w e) !! k
  end.

(** [.filter('.' + c)] *)
Definition filterClass (c : string) (els : jQuery) (w : World) : jQuery :=
  filter (λ e, c ∈ classList (document w e)) els.

(** [.eq(0)] *)
Definition eq0 (els : jQuery) : jQuery := take 1 els.

End jq.

(** JS truthiness of a string-or-undefined and of a [.length]. *)
Definition truthy (v : option string) : bool :=
  match v with
  | Some s => negb (String.eqb s "")
  | None => false
  end.

Definition nonEmpty (els : jQuery) : bool :=
  match els with [] => false | _ => true end.

(* ------------------------------------------------------------------------- *)
(** ** Handlers *)

(** What running a handler (or all handlers of one event) leaves behind: the
    new state, the two flags of the event object, and whether a [TypeError]
    escaped. *)
Record Outcome := {
  after : World;
  defaultPrevented : bool;
  propagationStopped : bool;
  thrown : bool
}.

Definition returns (w : World) (prevented stopped : bool) : Outcome :=
  {| after := w; defaultPrevented := prevented; propagationStopped := stopped;
     thrown := false |}.

Definition throws (w : World) : Outcome :=
  {| after := w; defaultPrevented := false; propagationStopped := false;
     thrown := true |}.

Import ui.state.

(** The writes to [evt.originalEvent.dataTransfer] touch the native event
    only and are left out. *)
Definition _handleDragStart (evt : Event) (self : World) : Outcome :=
  let dragElement := [currentTarget evt] in
  let self := set_dragElement (Some dragElement) self in
  let self := jq.addClass IS_MOVING dragElement self in
  let self := jq.addClass IS_AVAILABLE_TARGET (dd_targets self) self in
  let self := jq.attr "aria-dropeffect" "move" (dd_targets self) self in
  let self := jq.attr "aria-grabbed" "true" dragElement self in
  returns self false false.

(** [self.$dragElement.removeClass(...)] on an [undefined] reference is a
    [TypeError] raised before anything is written. *)
Definition _handleDragEnd (evt : Event) (self : World) : Outcome :=
  match dd_dragElement self with
  | None => throws self
  | Some dragElement =>
      let self := jq.removeClass IS_MOVING dragElement self in
      let self := jq.removeClass IS_AVAILABLE_TARGET (dd_targets self) self in
      let self := jq.attr "aria-grabbed" "false" dragElement self in
      returns self false false
  end.

Definition _handleDragEnter (evt : Event) (self : World) : Outcome :=
  let theTarget := [currentTarget evt] in
  let self := jq.addClass IS_HOVERED theTarget self in
  returns self false true.

Definition _handleDragLeave (evt : Event) (self : World) : Outcome :=
  let theTarget := [currentTarget evt] in
  let self := jq.removeClass IS_HOVERED theTarget self in
  returns self false true.

Definition _handleDragOver (evt : Event) (self : World) : Outcome :=
  let theTarget := [currentTarget evt] in
  let self := jq.addClass IS_HOVERED theTarget self in
  let self := jq.addClass IS_HOVERED theTarget self in
  returns self true false.

Definition _handleDrop (evt : Event) (self : World) : Outcome :=
  let theDraggable := dd_dragElement self in
  let theTarget := [currentTarget evt] in
  let self := jq.removeClass IS_HOVERED theTarget self in
  let self := checkMatch theDraggable theTarget self in
  returns self true true.

Definition _selectedDraggable (self : World) : jQuery :=
  jq.filterClass IS_SELECTED (dd_draggables self) self.

Definition _selectedTarget (self : World) : jQuery :=
  jq.filterClass IS_SELECTED (dd_targets self) self.

Definition _keyboardSelect (self : World) (el : jQuery) : World :=
  let newState := negb (jq.hasClass IS_SELECTED el self) in
  let self :=
    if truthy (jq.getAttr "draggable" el self)
    then jq.removeClass IS_SELECTED (dd_draggables self) self
    else jq.removeClass IS_SELECTED (dd_targets self) self in
  let self := jq.toggleClass IS_SELECTED newState el self in
  let theDraggable := _selectedDraggable self in
  let theTarget := _selectedTarget self in
  if nonEmpty theDraggable && nonEmpty theTarget
  then checkMatch (Some theDraggable) theTarget self
  else self.

(** The test of the click/keypress closures. *)
Definition isActivation (evt : Event) : bool :=
  String.eqb (type evt) "click"
  || (which evt =? keyCodes.ENTER_KEY)%Z
  || (which evt =? keyCodes.SPACE_BAR)%Z.

(** The closure bound to ['click keypress'] on the draggables, and the one of
    the same text bound on the targets, for a callback that returns
    ([Throwing.activation] has the closure for one that may throw). *)
Definition activation (evt : Event) (self : World) : Outcome :=
  if isActivation evt
  then
    let self := _keyboardSelect self [currentTarget evt] in
    returns self true false
  else returns self false false.

(** The closure bound to ['keydown'] on the context. *)
Definition escape (evt : Event) (self : World) : Outcome :=
  if (which evt =? keyCodes.ESCAPE)%Z
  then
    let selectedElement := _selectedDraggable self in
    let self := _keyboardSelect self selectedElement in
    let self := focus selectedElement self in
    returns self true false
  else returns self false false.

Definition call (h : Handler) : Event → World → Outcome :=
  match h with
  | HDragStart => _handleDragStart
  | HDragEnd => _handleDragEnd
  | HDragEnter => _handleDragEnter
  | HDragLeave => _handleDragLeave
  | HDragOver => _handleDragOver
  | HDrop => _handleDrop
  | HActivateDraggable | HActivateTarget => activation
  | HEscape => escape
  end.

(* ------------------------------------------------------------------------- *)
(** ** Binding and delivery *)

Definition dragBindings : list (string * Handler) :=
  [("dragstart", HDragStart); ("dragend", HDragEnd)].

Definition dropBindings : list (string * Handler) :=
  [("dragenter", HDragEnter); ("dragleave", HDragLeave);
   ("dragover", HDragOver); ("drop", HDrop)].

Definition _addDragEventHandlers (self : World) : World :=
  let self := jq.on dragBindings (dd_draggables self) self in
  jq.on dropBindings (dd_targets self) self.

Definition _removeDragEventHandlers (draggables targets : jQuery) (w : World) : World :=
  let w := jq.off dragBindings draggables w in
  jq.off dropBindings targets w.

Definition _addKeyboardEventHandlers (self : World) : World :=
  let self := jq.on [("click", HActivateDraggable); ("keypress", HActivateDraggable)]
                (dd_draggables self) self in
  let self := jq.on [("click", HActivateTarget); ("keypress", HActivateTarget)]
                (dd_targets self) self in
  jq.on [("keydown", HEscape)] (dd_context self) self.

Definition _removeKeyboardEventHandlers (draggables targets : jQuery) (w : World) : World :=
  let w := jq.offType "click" draggables w in
  jq.offType "click" targets w.

(** The functions bound on a node for one event type, in binding order. *)
Definition handlersFor (ty : string) (n : Node) : list Handler :=
  (filter (λ b, b.1 = ty) (listeners n)).*2.

(** jQuery runs the listeners of the element in order; an exception ends the
    delivery, and the flags set so far stay on the event object. *)
Fixpoint dispatch (hs : list Handler) (evt : Event) (w : World) : Outcome :=
  match hs with
  | [] => returns w false false
  | h :: hs' =>
      let o := call h evt w in
      if thrown o then o
      else
        let o' := dispatch hs' evt (after o) in
        {| after := after o';
           defaultPrevented := defaultPrevented o || defaultPrevented o';
           propagationStopped := propagationStopped o || propagationStopped o';
           thrown := thrown o' |}
  end.

Definition trigger (evt : Event) (w : World) : Outcome :=
  dispatch (handlersFor (type evt) (document w (currentTarget evt))) evt w.

(* ------------------------------------------------------------------------- *)
(** ** Public operations *)

Definition init (this : World) : World :=
  let this := jq.attr "tabindex" "0" (dd_draggables this) this in
  let this := jq.attr "tabindex" "0" (dd_targets this) this in
  let this := jq.attr "draggable" "true" (dd_draggables this) this in
  let this := jq.attr "aria-grabbed" "false" (dd_draggables this) this in
  let this := jq.attr "aria-dropeffect" "move" (dd_targets this) this in
  let this := jq.attr "role" "application" (dd_context this) this in
  let this := _addDragEventHandlers this in
  _addKeyboardEventHandlers this.

Definition cleanup (this : World) : World :=
  let this := jq.removeAttr "draggable" (dd_draggables this) this in
  let this := jq.removeAttr "tabindex" (dd_draggables this) this in
  let this := jq.removeAttr "tabindex" (dd_targets this) this in
  let this := _removeDragEventHandlers (dd_draggables this) (dd_targets this) this in
  _removeKeyboardEventHandlers (dd_draggables this) (dd_targets this) this.

(** An argument is absent when it is [undefined] (or any other falsy value);
    a jQuery object, even an empty one, is present. *)
Definition disableMatching (draggable target : option jQuery) (this : World) : World :=
  match draggable, target with
  | Some draggable, Some target =>
      let this := jq.removeAttr "draggable" draggable this in
      let this := jq.removeAttr "aria-grabbed" draggable this in
      let this := jq.removeAttr "tabindex" draggable this in
      let this := jq.removeAttr "aria-dropeffect" target this in
      let this := _removeDragEventHandlers draggable target this in
      _removeKeyboardEventHandlers draggable target this
  | _, _ => this
  end.

(** The constructor.  The element queries are the page's business: it gets
    the elements [contextSelector] matches and, for the first of them, the
    draggables and targets found below it. *)
Definition DragAndDrop (contextMatches draggablesFound targetsFound : jQuery)
    (doc : Elem → Node) : World :=
  let context := jq.eq0 contextMatches in
  init {| document := doc;
          dd_context := context;
          dd_draggables := if nonEmpty context then draggablesFound else [];
          dd_targets := if nonEmpty context then targetsFound else [];
          dd_dragElement := None;
          matchLog := []; focusLog := [] |}.

(* ------------------------------------------------------------------------- *)
(** ** Traces *)

Inductive Step :=
| Deliver (evt : Event)
| Cleanup
| DisableMatching (draggable target : option jQuery).

Definition step (w : World) (st : Step) : World :=
  match st with
  | Deliver evt => after (trigger evt w)
  | Cleanup => cleanup w
  | DisableMatching d t => disableMatching d t w
  end.

Definition run (sts : list Step) (w : World) : World := foldl step w sts.

(** The outcome of each event of a sequence, delivered one after the other. *)
Fixpoint outcomes (evts : list Event) (w : World) : list Outcome :=
  match evts with
  | [] => []
  | evt :: evts' => let o := trigger evt w in o :: outcomes evts' (after o)
  end.

(** Input events. *)
Definition dragstart (d : Elem) : Event := {| type := "dragstart"; currentTarget := d; which := 0 |}.
Definition dragend (d : Elem) : Event := {| type := "dragend"; currentTarget := d; which := 0 |}.
Definition dragenter (t : Elem) : Event := {| type := "dragenter"; currentTarget := t; which := 0 |}.
Definition dragover (t : Elem) : Event := {| type := "dragover"; currentTarget := t; which := 0 |}.
Definition drop (t : Elem) : Event := {| type := "drop"; currentTarget := t; which := 0 |}.
Definition click (e : Elem) : Event := {| type := "click"; currentTarget := e; which := 1 |}.
Definition keypress (e : Elem) (key : Z) : Event := {| type := "keypress"; currentTarget := e; which := key |}.
Definition keydown (c : Elem) (key : Z) : Event := {| type := "keydown"; currentTarget := c; which := key |}.

(** Observations. *)
Definition marked (c : string) (e : Elem) (w : World) : bool :=
  bool_decide (c ∈ classList (document w e)).

Definition attrOf (k : string) (e : Elem) (w : World) : option string :=
  attributes (document w e) !! k.

Definition bound (ty : string) (e : Elem) (w : World) : list Handler :=
  handlersFor ty (document w e).

(** A small page: context 0, draggables 1 2 3, targets 4 5 6, nothing set. *)
Definition page0 : Elem → Node := λ _, blank.
Definition demo : World := DragAndDrop [0] [1; 2; 3] [4; 5; 6] page0.

(** The small page with draggables 1 and 3 marked selected in the markup. *)
Definition page13 : Elem → Node :=
  λ e, if bool_decide (e ∈ [1; 3])
       then {| classList := {[IS_SELECTED]}; attributes := ∅; listeners := [] |}
       else blank.


(* ------------------------------------------------------------------------- *)
(** ** Bindings only ever pair a function with an event type it was written for *)

Definition handles (h : Handler) (ty : string) : Prop :=
  match h with
  | HDragStart => ty = "dragstart"
  | HDragEnd => ty = "dragend"
  | HDragEnter => ty = "dragenter"
  | HDragLeave => ty = "dragleave"
  | HDragOver => ty = "dragover"
  | HDrop => ty = "drop"
  | HActivateDraggable | HActivateTarget => ty = "click" ∨ ty = "keypress"
  | HEscape => ty = "keydown"
  end.

Definition tidy_node (n : Node) : Prop :=
  Forall (λ b, handles b.2 b.1) (listeners n).

Definition tidy_doc (doc : Elem → Node) : Prop := ∀ e, tidy_node (doc e).

Definition tidy (w : World) : Prop := tidy_doc (document w).

(** Is this step a drag-start that some listener receives? *)
Definition startsDrag (w : World) (st : Step) : option Elem :=
  match st with
  | Deliver evt =>
      if bool_decide (type evt = "dragstart"
                      ∧ bound "dragstart" (currentTarget evt) w ≠ [])
      then Some (currentTarget evt) else None
  | _ => None
  end.

(** Is this step the delivery of a drag-start event? *)
Definition isDragStart (st : Step) : bool :=
  match st with
  | Deliver evt => String.eqb (type evt) "dragstart"
  | _ => false
  end.


(** The state the constructor leaves and events keep: each set lists its
    elements once, and the [draggable] attribute is truthy on the draggables
    and on no target. *)
Record Classified (w : World) : Prop := {
  draggables_distinct : NoDup (dd_draggables w);
  targets_distinct : NoDup (dd_targets w);
  draggables_flagged :
    ∀ d, d ∈ dd_draggables w → truthy (attrOf "draggable" d w) = true;
  targets_unflagged :
    ∀ t, t ∈ dd_targets w → truthy (attrOf "draggable" t w) = false
}.

(** At most one selected draggable and at most one selected target. *)
Definition singleSelection (w : World) : Prop :=
  (length (_selectedDraggable w) ≤ 1)%nat ∧ (length (_selectedTarget w) ≤ 1)%nat.

(** What the constructor leaves and every step keeps, the public operations
    included: each set lists its elements once, the two sets share no
    element, and no target has a truthy [draggable] attribute. *)
Record Separated (w : World) : Prop := {
  separated_draggables : NoDup (dd_draggables w);
  separated_targets : NoDup (dd_targets w);
  separated_disjoint : ∀ e, e ∈ dd_draggables w → e ∉ dd_targets w;
  separated_unflagged :
    ∀ t, t ∈ dd_targets w → truthy (attrOf "draggable" t w) = false
}.

(** A draggable is live while its [draggable] attribute is truthy: [init]
    sets it, [disableMatching] and [cleanup] remove it. *)
Definition live (w : World) (d : Elem) : Prop :=
  d ∈ dd_draggables w ∧ truthy (attrOf "draggable" d w) = true.


(* ------------------------------------------------------------------------- *)
(** ** A callback that throws *)

(** The source calls [self.checkMatch] uncaught, as the last statement of
    [_handleDrop] and of [_keyboardSelect].  The handlers above are the
    handlers for a callback that returns.  When the callback throws, the
    state is the one the call left, the statements that follow the call in
    the caller are skipped ([evt.preventDefault()] of the click/keypress
    closure, [focus()] of the keydown closure), and the exception leaves the
    listener.  The module repeats the functions on that path with the
    callback's completion as a parameter: [raises d t doc] says whether the
    call with arguments [d] and [t] on the page [doc] throws. *)
Definition Callback := option jQuery → jQuery → (Elem → Node) → bool.

Module Throwing.
Section WithCallback.
Variable raises : Callback.

(** The state after the function, and whether the callback threw. *)
Definition _keyboardSelect (self : World) (el : jQuery) : World * bool :=
  let newState := negb (jq.hasClass IS_SELECTED el self) in
  let self :=
    if truthy (jq.getAttr "draggable" el self)
    then jq.removeClass IS_SELECTED (dd_draggables self) self
    else jq.removeClass IS_SELECTED (dd_targets self) self in
  let self := jq.toggleClass IS_SELECTED newState el self in
  let theDraggable := _selectedDraggable self in
  let theTarget := _selectedTarget self in
  if nonEmpty theDraggable && nonEmpty theTarget
  then (checkMatch (Some theDraggable) theTarget self,
        raises (Some theDraggable) theTarget (document self))
  else (self, false).

(** [stopPropagation] and [preventDefault] come before the call. *)
Definition _handleDrop (evt : Event) (self : World) : Outcome :=
  let theDraggable := dd_dragElement self in
  let theTarget := [currentTarget evt] in
  let self := jq.removeClass IS_HOVERED theTarget self in
  {| after := checkMatch theDraggable theTarget self;
     defaultPrevented := true; propagationStopped := true;
     thrown := raises theDraggable theTarget (document self) |}.

(** [preventDefault] comes after [_keyboardSelect] has returned. *)
Definition activation (evt : Event) (self : World) : Outcome :=
  if isActivation evt
  then
    let r := _keyboardSelect self [currentTarget evt] in
    if r.2 then throws r.1 else returns r.1 true false
  else returns self false false.

Definition escape (evt : Event) (self : World) : Outcome :=
  if (which evt =? keyCodes.ESCAPE)%Z
  then
    let selectedElement := _selectedDraggable self in
    let r := _keyboardSelect self selectedElement in
    if r.2 then throws r.1
    else
      let self := focus selectedElement r.1 in
      returns self true false
  else returns self false false.

Definition call (h : Handler) : Event → World → Outcome :=
  match h with
  | HDragStart => _handleDragStart
  | HDragEnd => _handleDragEnd
  | HDragEnter => _handleDragEnter
  | HDragLeave => _handleDragLeave
  | HDragOver => _handleDragOver
  | HDrop => _handleDrop
  | HActivateDraggable | HActivateTarget => activation
  | HEscape => escape
  end.

Fixpoint dispatch (hs : list Handler) (evt : Event) (w : World) : Outcome :=
  match hs with
  | [] => returns w false false
  | h :: hs' =>
      let o := call h evt w in
      if thrown o then o
      else
        let o' := dispatch hs' evt (after o) in
        {| after := after o';
           defaultPrevented := defaultPrevented o || defaultPrevented o';
           propagationStopped := propagationStopped o || propagationStopped o';
           thrown := thrown o' |}
  end.

Definition trigger (evt : Event) (w : World) : Outcome :=
  dispatch (handlersFor (type evt) (document w (currentTarget evt))) evt w.

End WithCallback.
End Throwing.

(* ------------------------------------------------------------------------- *)
(** ** Proof tactics *)

(** Reduce the projections through the operations as well. *)
Ltac world_fields :=
  cbn [document dd_context dd_draggables dd_targets dd_dragElement matchLog
       focusLog after defaultPrevented propagationStopped thrown returns throws
       jq.toggleClass jq.addClass jq.removeClass jq.attr jq.removeAttr
       jq.on jq.off jq.offType checkMatch focus set_dragElement with_document].

(** Settle the tests the context decides, then the boolean connectives. *)
Ltac settle :=
  repeat match goal with
    | |- context [bool_decide ?P] =>
        first [ rewrite (bool_decide_eq_true_2 P) by done
              | rewrite (bool_decide_eq_false_2 P) by done ]
    end;
  cbn [andb orb negb];
  rewrite ?andb_true_r, ?andb_false_r, ?orb_true_r, ?orb_false_r.

(** Close a decidable closed goal by evaluation. *)
Ltac by_computing := apply (bool_decide_unpack _); vm_compute; exact I.

(** Reduce the projections of states and outcomes, and nothing else. *)
Ltac fields :=
  cbn [document dd_context dd_draggables dd_targets dd_dragElement matchLog
       focusLog after defaultPrevented propagationStopped thrown returns throws
       classList attributes listeners].

(** Turn an equation between booleans into an equivalence of propositions. *)
Ltac bool_iff :=
  apply eq_true_iff_eq;
  rewrite ?orb_true_iff, ?andb_true_iff, ?negb_true_iff, ?bool_decide_eq_true,
    ?bool_decide_eq_false.

(** The jQuery operations as [with_document (jq.each ...)]. *)
Ltac jq_ops :=
  unfold jq.toggleClass, jq.addClass, jq.removeClass, jq.attr, jq.removeAttr,
    jq.on, jq.off, jq.offType.

(* ------------------------------------------------------------------------- *)
(** ** How the jQuery operations act on one node *)

Section Each.
Context (f : Node → Node) (els : jQuery) (doc : Elem → Node) (e : Elem).

Lemma each_in : e ∈ els → jq.each f els doc e = f (doc e).
Proof. intros H. unfold jq.each. by rewrite bool_decide_eq_true_2. Qed.

Lemma each_notin : e ∉ els → jq.each f els doc e = doc e.
Proof. intros H. unfold jq.each. by rewrite bool_decide_eq_false_2. Qed.

Lemma each_listeners :
  (∀ n, listeners (f n) = listeners n) →
  listeners (jq.each f els doc e) = listeners (doc e).
Proof. intros H. unfold jq.each. by case_bool_decide. Qed.

Lemma each_classList :
  (∀ n, classList (f n) = classList n) →
  classList (jq.each f els doc e) = classList (doc e).
Proof. intros H. unfold jq.each. by case_bool_decide. Qed.

Lemma each_attributes :
  (∀ n, attributes (f n) = attributes n) →
  attributes (jq.each f els doc e) = attributes (doc e).
Proof. intros H. unfold jq.each. by case_bool_decide. Qed.
End Each.

(* ------------------------------------------------------------------------- *)
(** ** Tidy bindings are kept *)

Lemma tidy_each f els doc :
  (∀ n, tidy_node n → tidy_node (f n)) → tidy_doc doc → tidy_doc (jq.each f els doc).
Proof. intros Hf Hd e. unfold jq.each. case_bool_decide; auto. Qed.

Lemma tidy_node_same f n :
  listeners (f n) = listeners n → tidy_node n → tidy_node (f n).
Proof. unfold tidy_node. by intros ->. Qed.

Lemma tidy_node_on bs n :
  Forall (λ b, handles b.2 b.1) bs → tidy_node n → tidy_node (jq.node_on bs n).
Proof. unfold tidy_node; cbn. intros. by apply Forall_app. Qed.

Lemma tidy_node_off bs n : tidy_node n → tidy_node (jq.node_off bs n).
Proof.
  unfold tidy_node; cbn. rewrite !Forall_forall. intros H b Hb.
  apply list_elem_of_filter in Hb. apply H, Hb.
Qed.

Lemma tidy_node_offType ty n : tidy_node n → tidy_node (jq.node_offType ty n).
Proof.
  unfold tidy_node; cbn. rewrite !Forall_forall. intros H b Hb.
  apply list_elem_of_filter in Hb. apply H, Hb.
Qed.

Lemma tidy_with f els w :
  (∀ n, tidy_node n → tidy_node (f n)) →
  tidy w → tidy (with_document (jq.each f els) w).
Proof. intros Hf H. by apply tidy_each. Qed.

(** Close [tidy (op ... (op' ... w))] for a chain of jQuery operations. *)
Ltac tidy_chain :=
  jq_ops;
  repeat (apply tidy_with;
          [ first [ intros n; apply tidy_node_same; reflexivity
                  | intros n; apply tidy_node_off
                  | intros n; apply tidy_node_offType
                  | intros n; apply tidy_node_on;
                    solve [unfold dragBindings, dropBindings;
                           rewrite ?Forall_cons, ?Forall_nil; cbn; intuition auto] ] | ]).

Lemma tidy_init w : tidy w → tidy (init w).
Proof.
  intros H.
  unfold init, _addDragEventHandlers, _addKeyboardEventHandlers; cbv zeta.
  tidy_chain. exact H.
Qed.

Lemma tidy_DragAndDrop c ds ts doc : tidy_doc doc → tidy (DragAndDrop c ds ts doc).
Proof. intros H. unfold DragAndDrop. by apply tidy_init. Qed.

Lemma tidy_cleanup w : tidy w → tidy (cleanup w).
Proof.
  intros H.
  unfold cleanup, _removeDragEventHandlers, _removeKeyboardEventHandlers; cbv zeta.
  tidy_chain. exact H.
Qed.

Lemma tidy_disableMatching d t w : tidy w → tidy (disableMatching d t w).
Proof.
  intros H. destruct d, t; try done.
  unfold disableMatching, _removeDragEventHandlers, _removeKeyboardEventHandlers;
    cbv zeta.
  tidy_chain. exact H.
Qed.

(* ------------------------------------------------------------------------- *)
(** ** Classes after each operation *)

Section Marks.
Context (c c' : string) (e : Elem) (els : jQuery) (w : World).

Lemma marked_spec : marked c e w = true ↔ c ∈ classList (document w e).
Proof. unfold marked. apply bool_decide_eq_true. Qed.

Lemma marked_with f :
  (∀ n, classList (f n) = classList n) →
  marked c e (with_document (jq.each f els) w) = marked c e w.
Proof. intros H. unfold marked; cbn. by rewrite each_classList. Qed.

Lemma marked_addClass :
  marked c e (jq.addClass c' els w)
  = marked c e w || (bool_decide (c = c') && bool_decide (e ∈ els)).
Proof.
  unfold marked, jq.addClass; cbn. unfold jq.each. bool_iff.
  case_bool_decide; cbn; [rewrite elem_of_union, elem_of_singleton|]; tauto.
Qed.

Lemma marked_removeClass :
  marked c e (jq.removeClass c' els w)
  = marked c e w && negb (bool_decide (c = c') && bool_decide (e ∈ els)).
Proof.
  unfold marked, jq.removeClass; cbn. unfold jq.each.
  bool_iff. rewrite andb_false_iff, !bool_decide_eq_false.
  case_bool_decide; cbn; [rewrite elem_of_difference, elem_of_singleton|]; tauto.
Qed.

Lemma marked_attr k v : marked c e (jq.attr k v els w) = marked c e w.
Proof. by apply marked_with. Qed.

Lemma marked_removeAttr k : marked c e (jq.removeAttr k els w) = marked c e w.
Proof. by apply marked_with. Qed.

Lemma marked_on bs : marked c e (jq.on bs els w) = marked c e w.
Proof. by apply marked_with. Qed.

Lemma marked_off bs : marked c e (jq.off bs els w) = marked c e w.
Proof. by apply marked_with. Qed.

Lemma marked_offType ty : marked c e (jq.offType ty els w) = marked c e w.
Proof. by apply marked_with. Qed.

Lemma marked_checkMatch d t : marked c e (checkMatch d t w) = marked c e w.
Proof. reflexivity. Qed.

Lemma marked_focus : marked c e (focus els w) = marked c e w.
Proof. reflexivity. Qed.

Lemma marked_set_dragElement d : marked c e (set_dragElement d w) = marked c e w.
Proof. reflexivity. Qed.
End Marks.

Create Rewrite HintDb marks.
#[export] Hint Rewrite marked_addClass marked_removeClass marked_attr
  marked_removeAttr marked_on marked_off marked_offType marked_checkMatch
  marked_focus marked_set_dragElement : marks.

(* ------------------------------------------------------------------------- *)
(** ** Attributes and bindings after each operation *)

Section Attrs.
Context (k k' : string) (e : Elem) (els : jQuery) (w : World).

Lemma attrOf_with f :
  (∀ n, attributes (f n) = attributes n) →
  attrOf k e (with_document (jq.each f els) w) = attrOf k e w.
Proof. intros H. unfold attrOf; cbn. by rewrite each_attributes. Qed.

Lemma attrOf_attr v :
  attrOf k e (jq.attr k' v els w)
  = if bool_decide (k = k') && bool_decide (e ∈ els) then Some v else attrOf k e w.
Proof.
  unfold attrOf, jq.attr; cbn. unfold jq.each.
  repeat case_bool_decide; cbn; subst;
    rewrite ?lookup_insert_eq, ?lookup_insert_ne by done; done.
Qed.

Lemma attrOf_removeAttr :
  attrOf k e (jq.removeAttr k' els w)
  = if bool_decide (k = k') && bool_decide (e ∈ els) then None else attrOf k e w.
Proof.
  unfold attrOf, jq.removeAttr; cbn. unfold jq.each.
  repeat case_bool_decide; cbn; subst;
    rewrite ?lookup_delete_eq, ?lookup_delete_ne by done; done.
Qed.

Lemma attrOf_addClass c : attrOf k e (jq.addClass c els w) = attrOf k e w.
Proof. by apply attrOf_with. Qed.

Lemma attrOf_removeClass c : attrOf k e (jq.removeClass c els w) = attrOf k e w.
Proof. by apply attrOf_with. Qed.

Lemma attrOf_on bs : attrOf k e (jq.on bs els w) = attrOf k e w.
Proof. by apply attrOf_with. Qed.

Lemma attrOf_off bs : attrOf k e (jq.off bs els w) = attrOf k e w.
Proof. by apply attrOf_with. Qed.

Lemma attrOf_offType ty : attrOf k e (jq.offType ty els w) = attrOf k e w.
Proof. by apply attrOf_with. Qed.
End Attrs.

Create Rewrite HintDb attrs.
#[export] Hint Rewrite attrOf_attr attrOf_removeAttr attrOf_addClass
  attrOf_removeClass attrOf_on attrOf_off attrOf_offType : attrs.

Section Bindings.
Context (ty : string) (e : Elem) (els : jQuery) (w : World).

Lemma bound_with f :
  (∀ n, listeners (f n) = listeners n) →
  bound ty e (with_document (jq.each f els) w) = bound ty e w.
Proof. intros H. unfold bound, handlersFor; cbn. by rewrite each_listeners. Qed.

Lemma bound_on bs :
  bound ty e (jq.on bs els w)
  = bound ty e w
    ++ (if bool_decide (e ∈ els) then (filter (λ b, b.1 = ty) bs).*2 else []).
Proof.
  unfold bound, handlersFor, jq.on; cbn. unfold jq.each.
  case_bool_decide; cbn; [|by rewrite app_nil_r].
  by rewrite filter_app, fmap_app.
Qed.

Lemma bound_off bs :
  bound ty e (jq.off bs els w)
  = if bool_decide (e ∈ els) then filter (λ h, (ty, h) ∉ bs) (bound ty e w)
    else bound ty e w.
Proof.
  unfold bound, handlersFor, jq.off; cbn. unfold jq.each.
  case_bool_decide; cbn; [|done].
  induction (listeners (document w e)) as [|[ty' h] ls IH]; [done|].
  rewrite (filter_cons (λ b, b ∉ bs)), (filter_cons (λ b : string * Handler, b.1 = ty)).
  cbn [fst]. destruct (decide ((ty', h) ∉ bs)) as [Hn|Hn];
    destruct (decide (ty' = ty)) as [->|Hne].
  - rewrite filter_cons_True by done. rewrite !fmap_cons. cbn [snd].
    rewrite filter_cons_True by done. by rewrite IH.
  - rewrite filter_cons_False by done. done.
  - rewrite !fmap_cons. cbn [snd]. rewrite filter_cons_False by done. done.
  - done.
Qed.

Lemma bound_offType ty' :
  bound ty e (jq.offType ty' els w)
  = if bool_decide (ty = ty') && bool_decide (e ∈ els) then [] else bound ty e w.
Proof.
  unfold bound, handlersFor, jq.offType; cbn. unfold jq.each.
  case_bool_decide as Hin; [|by rewrite andb_false_r]. rewrite andb_true_r. cbn.
  induction (listeners (document w e)) as [|[ty1 h] ls IH];
    [by case_bool_decide|].
  rewrite (filter_cons (λ b : string * Handler, b.1 ≠ ty')),
    (filter_cons (λ b : string * Handler, b.1 = ty)) . cbn [fst].
  destruct (decide (ty1 ≠ ty')) as [Hn|Hn]; destruct (decide (ty1 = ty)) as [->|Hne].
  - rewrite filter_cons_True by done. rewrite !fmap_cons, IH.
    rewrite !bool_decide_eq_false_2 by done. done.
  - rewrite filter_cons_False by done. done.
  - apply dec_stable in Hn. subst. rewrite IH.
    rewrite !bool_decide_eq_true_2 by done. done.
  - rewrite IH. done.
Qed.

Lemma bound_attr k v : bound ty e (jq.attr k v els w) = bound ty e w.
Proof. by apply bound_with. Qed.

Lemma bound_removeAttr k : bound ty e (jq.removeAttr k els w) = bound ty e w.
Proof. by apply bound_with. Qed.

Lemma bound_addClass c : bound ty e (jq.addClass c els w) = bound ty e w.
Proof. by apply bound_with. Qed.

Lemma bound_removeClass c : bound ty e (jq.removeClass c els w) = bound ty e w.
Proof. by apply bound_with. Qed.
End Bindings.

Create Rewrite HintDb bounds.
#[export] Hint Rewrite bound_on bound_off bound_offType bound_attr
  bound_removeAttr bound_addClass bound_removeClass : bounds.

(* ------------------------------------------------------------------------- *)
(** ** What no handler touches *)

(** Handlers write classes, two assistive attributes, the drag reference and
    the logs; the element sets and the bindings are the same afterwards. *)
Lemma keyboardSelect_frame w el :
  dd_context (_keyboardSelect w el) = dd_context w
  ∧ dd_draggables (_keyboardSelect w el) = dd_draggables w
  ∧ dd_targets (_keyboardSelect w el) = dd_targets w
  ∧ dd_dragElement (_keyboardSelect w el) = dd_dragElement w
  ∧ focusLog (_keyboardSelect w el) = focusLog w
  ∧ (∀ e, listeners (document (_keyboardSelect w el) e) = listeners (document w e))
  ∧ (∀ e, attributes (document (_keyboardSelect w el) e) = attributes (document w e)).
Proof.
  unfold _keyboardSelect.
  destruct (truthy _), (negb _); cbn;
    match goal with |- context [if ?b then _ else _] => destruct b end;
    cbn; repeat split; intros; try reflexivity;
    unfold jq.each; repeat case_bool_decide; reflexivity.
Qed.

Lemma call_frame h evt w :
  let w' := after (call h evt w) in
  dd_context w' = dd_context w
  ∧ dd_draggables w' = dd_draggables w
  ∧ dd_targets w' = dd_targets w
  ∧ (∀ e, listeners (document w' e) = listeners (document w e)).
Proof.
  destruct h; cbn;
    unfold _handleDragStart, _handleDragEnd, _handleDragEnter, _handleDragLeave,
      _handleDragOver, _handleDrop, activation, escape;
    try (destruct (dd_dragElement w));
    try match goal with |- context [if ?b then _ else _] => destruct b end;
    cbn; rewrite ?(proj1 (keyboardSelect_frame _ _));
    repeat split; intros; try reflexivity;
    try (unfold jq.each; repeat case_bool_decide; reflexivity);
    try apply keyboardSelect_frame.
Qed.

Lemma dispatch_frame hs evt w :
  let w' := after (dispatch hs evt w) in
  dd_context w' = dd_context w
  ∧ dd_draggables w' = dd_draggables w
  ∧ dd_targets w' = dd_targets w
  ∧ (∀ e, listeners (document w' e) = listeners (document w e)).
Proof.
  revert w. induction hs as [|h hs IH]; intros w; cbn; [done|].
  destruct (call_frame h evt w) as (Hc & Hd & Ht & Hl).
  destruct (thrown (call h evt w)); [done|]. cbn.
  destruct (IH (after (call h evt w))) as (Hc' & Hd' & Ht' & Hl').
  repeat split; intros; congruence.
Qed.

Lemma trigger_frame evt w :
  let w' := after (trigger evt w) in
  dd_context w' = dd_context w
  ∧ dd_draggables w' = dd_draggables w
  ∧ dd_targets w' = dd_targets w
  ∧ (∀ e, listeners (document w' e) = listeners (document w e)).
Proof. apply dispatch_frame. Qed.

Lemma bound_trigger ty e evt w : bound ty e (after (trigger evt w)) = bound ty e w.
Proof.
  unfold bound, handlersFor.
  by rewrite (proj2 (proj2 (proj2 (trigger_frame evt w)))).
Qed.

Lemma tidy_trigger evt w : tidy w → tidy (after (trigger evt w)).
Proof.
  intros H e. unfold tidy_node.
  rewrite (proj2 (proj2 (proj2 (trigger_frame evt w)))). apply H.
Qed.

Lemma tidy_step w st : tidy w → tidy (step w st).
Proof.
  destruct st; cbn;
    auto using tidy_trigger, tidy_cleanup, tidy_disableMatching.
Qed.

Lemma run_cons st sts w : run (st :: sts) w = run sts (step w st).
Proof. reflexivity. Qed.

Lemma run_app sts sts' w : run (sts ++ sts') w = run sts' (run sts w).
Proof. unfold run. apply foldl_app. Qed.

Lemma tidy_run sts w : tidy w → tidy (run sts w).
Proof.
  revert w. induction sts as [|st sts IH]; intros w H; [done|].
  rewrite run_cons. apply IH, tidy_step, H.
Qed.

(** In a tidy world the functions that run for an event are those written
    for its type. *)
Lemma bound_handles ty e w h : tidy w → h ∈ bound ty e w → handles h ty.
Proof.
  intros Ht. unfold bound, handlersFor. rewrite list_elem_of_fmap.
  intros ([ty' h'] & -> & Hb). apply list_elem_of_filter in Hb as [Hty Hb].
  cbn in Hty. subst ty'. specialize (Ht e). unfold tidy_node in Ht.
  rewrite Forall_forall in Ht. apply (Ht _ Hb).
Qed.

(** A single bound function: delivery is one call. *)
Lemma dispatch_one h evt w : dispatch [h] evt w = call h evt w.
Proof.
  cbn. destruct (call h evt w) as [a p s t]; cbn.
  destruct t; [done|]. by rewrite !orb_false_r.
Qed.

Lemma trigger_one h evt w :
  bound (type evt) (currentTarget evt) w = [h] → trigger evt w = call h evt w.
Proof. unfold trigger, bound. intros ->. apply dispatch_one. Qed.

Lemma trigger_none evt w :
  bound (type evt) (currentTarget evt) w = [] → trigger evt w = returns w false false.
Proof. unfold trigger, bound. by intros ->. Qed.

(* ------------------------------------------------------------------------- *)
(** ** The drag reference *)

Lemma dragElement_call h evt w :
  h ≠ HDragStart → dd_dragElement (after (call h evt w)) = dd_dragElement w.
Proof.
  destruct h; try done; intros _; cbn;
    unfold _handleDragEnd, _handleDragEnter, _handleDragLeave,
      _handleDragOver, _handleDrop, activation, escape;
    try (destruct (dd_dragElement w) eqn:E; cbn; congruence);
    match goal with |- context [if ?b then _ else _] => destruct b end;
    cbn; try reflexivity; apply keyboardSelect_frame.
Qed.

Lemma dragElement_dispatch hs evt w :
  Forall (λ h, h ≠ HDragStart) hs →
  dd_dragElement (after (dispatch hs evt w)) = dd_dragElement w.
Proof.
  revert w. induction hs as [|h hs IH]; intros w Hs; cbn; [done|].
  inversion Hs as [|?? Hh Hs']; subst.
  pose proof (dragElement_call h evt w Hh) as E.
  destruct (thrown (call h evt w)); [done|]. cbn. by rewrite IH.
Qed.

(** [_handleDragStart] never throws and leaves its element as the reference,
    so any non-empty run of it does. *)
Lemma dragElement_dispatch_start hs evt w :
  hs ≠ [] → Forall (λ h, h = HDragStart) hs →
  dd_dragElement (after (dispatch hs evt w)) = Some [currentTarget evt].
Proof.
  revert w. induction hs as [|h hs IH]; intros w Hne Hs; [done|].
  inversion Hs as [|?? Hh Hs']; subst. cbn.
  destruct hs as [|h' hs]; [done|].
  apply IH; done.
Qed.

Lemma dragElement_cleanup w : dd_dragElement (cleanup w) = dd_dragElement w.
Proof. reflexivity. Qed.

Lemma dragElement_disableMatching d t w :
  dd_dragElement (disableMatching d t w) = dd_dragElement w.
Proof. by destruct d, t. Qed.

Lemma dragElement_step w st :
  tidy w →
  dd_dragElement (step w st)
  = match startsDrag w st with
    | Some d => Some [d]
    | None => dd_dragElement w
    end.
Proof.
  intros Ht. destruct st as [evt| |d t]; cbn;
    [|apply dragElement_cleanup|apply dragElement_disableMatching].
  unfold trigger. fold (bound (type evt) (currentTarget evt) w).
  case_bool_decide as Hs.
  - destruct Hs as [Hty Hne]. rewrite Hty.
    apply dragElement_dispatch_start; [done|].
    apply Forall_forall. intros h Hh.
    pose proof (bound_handles _ _ _ _ Ht Hh) as Hd.
    destruct h; cbn in Hd; try done; destruct Hd; done.
  - apply dragElement_dispatch, Forall_forall. intros h Hh ->.
    pose proof (bound_handles _ _ _ _ Ht Hh) as Hd. cbn in Hd.
    apply Hs. split; [done|]. rewrite <- Hd. intros E. rewrite E in Hh.
    by apply not_elem_of_nil in Hh.
Qed.

Lemma startsDrag_isDragStart w st : isDragStart st = false → startsDrag w st = None.
Proof.
  destruct st as [evt| |]; cbn; try done. intros H.
  rewrite bool_decide_eq_false_2; [done|]. intros [E _].
  apply String.eqb_neq in H. done.
Qed.

Lemma dragElement_run_no_dragstart sts w :
  tidy w → Forall (λ st, isDragStart st = false) sts →
  dd_dragElement (run sts w) = dd_dragElement w.
Proof.
  revert w. induction sts as [|st sts IH]; intros w Ht Hs; [done|].
  inversion Hs as [|?? Hst Hs']; subst.
  rewrite run_cons, IH by auto using tidy_step.
  rewrite dragElement_step by done. by rewrite startsDrag_isDragStart.
Qed.

Lemma tidy_page0 : tidy_doc page0.
Proof. intros e. constructor. Qed.

Lemma tidy_demo : tidy demo.
Proof. apply tidy_DragAndDrop, tidy_page0. Qed.

(* ------------------------------------------------------------------------- *)
(** ** The selection toggle *)

Lemma selected_filter els w e :
  e ∈ jq.filterClass IS_SELECTED els w ↔ e ∈ els ∧ marked IS_SELECTED e w = true.
Proof.
  unfold jq.filterClass. rewrite list_elem_of_filter, marked_spec. tauto.
Qed.

Lemma filterClass_ext c els w w' :
  (∀ e, marked c e w' = marked c e w) →
  jq.filterClass c els w' = jq.filterClass c els w.
Proof.
  intros H. unfold jq.filterClass. apply list_filter_iff. intros e.
  rewrite <- !marked_spec. by rewrite H.
Qed.

(** Only the selected class changes: the elements handed in get the new
    state, the rest of the set the attribute test picks is cleared. *)
Lemma keyboardSelect_marked w el c e :
  marked c e (_keyboardSelect w el)
  = if bool_decide (c = IS_SELECTED) then
      if bool_decide (e ∈ el) then negb (jq.hasClass IS_SELECTED el w)
      else marked c e w
           && negb (bool_decide
                      (e ∈ if truthy (jq.getAttr "draggable" el w)
                           then dd_draggables w else dd_targets w))
    else marked c e w.
Proof.
  unfold _keyboardSelect; cbv zeta.
  match goal with |- context [if ?b then checkMatch _ _ _ else _] => destruct b end;
    destruct (truthy _), (negb _); unfold jq.toggleClass; autorewrite with marks;
    repeat case_bool_decide; cbn;
    rewrite ?andb_true_r, ?andb_false_r, ?orb_false_r, ?orb_true_r; done.
Qed.

Lemma selected_checkMatch d t w :
  _selectedDraggable (checkMatch d t w) = _selectedDraggable w
  ∧ _selectedTarget (checkMatch d t w) = _selectedTarget w.
Proof. done. Qed.

(** [_keyboardSelect] calls back exactly when, after the toggle, both
    selections are non-empty, and passes the two selections. *)
Lemma keyboardSelect_matchLog w el :
  let w' := _keyboardSelect w el in
  matchLog w'
  = matchLog w
    ++ (if nonEmpty (_selectedDraggable w') && nonEmpty (_selectedTarget w')
        then [(Some (_selectedDraggable w'), _selectedTarget w')] else []).
Proof.
  cbv zeta. unfold _keyboardSelect; cbv zeta.
  set (w1 := jq.toggleClass _ _ _ _).
  assert (E1 : matchLog w1 = matchLog w).
  { unfold w1. by destruct (truthy _), (negb _). }
  destruct (nonEmpty (_selectedDraggable w1) && nonEmpty (_selectedTarget w1)) eqn:E.
  - rewrite !(proj1 (selected_checkMatch _ _ _)), !(proj2 (selected_checkMatch _ _ _)), E.
    cbn. by rewrite E1.
  - rewrite E, app_nil_r. done.
Qed.

(* ------------------------------------------------------------------------- *)
(** ** Events outside the two gesture ends *)

Lemma call_marked_other h evt w c e :
  h ≠ HDragStart → h ≠ HDragEnd → c ≠ IS_HOVERED → c ≠ IS_SELECTED →
  marked c e (after (call h evt w)) = marked c e w.
Proof.
  intros H1 H2 Hc1 Hc2.
  destruct h; try done; cbn;
    unfold _handleDragEnter, _handleDragLeave, _handleDragOver, _handleDrop,
      activation, escape; cbv zeta;
    try match goal with |- context [if ?b then _ else _] => destruct b end;
    fields; autorewrite with marks; rewrite ?keyboardSelect_marked;
    rewrite ?(bool_decide_eq_false_2 (c = IS_HOVERED)),
      ?(bool_decide_eq_false_2 (c = IS_SELECTED)) by done;
    cbn; rewrite ?andb_true_r, ?orb_false_r; done.
Qed.




(* ------------------------------------------------------------------------- *)
(** ** The two ends of a gesture *)

Lemma handleDragStart_effect evt w :
  let w' := after (_handleDragStart evt w) in
  dd_dragElement w' = Some [currentTarget evt]
  ∧ matchLog w' = matchLog w
  ∧ (∀ c e, marked c e w'
            = marked c e w
              || (bool_decide (c = IS_MOVING) && bool_decide (e = currentTarget evt))
              || (bool_decide (c = IS_AVAILABLE_TARGET)
                  && bool_decide (e ∈ dd_targets w))).
Proof.
  cbv zeta. split; [done|]. split; [done|]. intros c e.
  unfold _handleDragStart; cbv zeta; fields. autorewrite with marks.
  world_fields. do 3 f_equal. apply bool_decide_ext, list_elem_of_singleton.
Qed.

Lemma handleDragEnd_effect evt w d :
  dd_dragElement w = Some d →
  let o := _handleDragEnd evt w in
  thrown o = false
  ∧ dd_dragElement (after o) = Some d
  ∧ matchLog (after o) = matchLog w
  ∧ (∀ c e, marked c e (after o)
            = marked c e w
              && negb (bool_decide (c = IS_MOVING) && bool_decide (e ∈ d))
              && negb (bool_decide (c = IS_AVAILABLE_TARGET)
                       && bool_decide (e ∈ dd_targets w))).
Proof.
  intros E. cbv zeta. unfold _handleDragEnd. rewrite E; cbv zeta; fields.
  split; [done|]. split; [done|]. split; [done|]. intros c e.
  autorewrite with marks. by world_fields.
Qed.

(** [init] and [cleanup] with every set read from the state they start in:
    no operation of theirs changes a set. *)
Lemma init_flat w :
  init w
  = jq.on [("keydown", HEscape)] (dd_context w)
      (jq.on [("click", HActivateTarget); ("keypress", HActivateTarget)] (dd_targets w)
         (jq.on [("click", HActivateDraggable); ("keypress", HActivateDraggable)]
            (dd_draggables w)
            (jq.on dropBindings (dd_targets w)
               (jq.on dragBindings (dd_draggables w)
                  (jq.attr "role" "application" (dd_context w)
                     (jq.attr "aria-dropeffect" "move" (dd_targets w)
                        (jq.attr "aria-grabbed" "false" (dd_draggables w)
                           (jq.attr "draggable" "true" (dd_draggables w)
                              (jq.attr "tabindex" "0" (dd_targets w)
                                 (jq.attr "tabindex" "0" (dd_draggables w) w)))))))))).
Proof. reflexivity. Qed.

Lemma cleanup_flat w :
  cleanup w
  = jq.offType "click" (dd_targets w)
      (jq.offType "click" (dd_draggables w)
         (jq.off dropBindings (dd_targets w)
            (jq.off dragBindings (dd_draggables w)
               (jq.removeAttr "tabindex" (dd_targets w)
                  (jq.removeAttr "tabindex" (dd_draggables w)
                     (jq.removeAttr "draggable" (dd_draggables w) w)))))).
Proof. reflexivity. Qed.

Lemma marked_init c e w : marked c e (init w) = marked c e w.
Proof. rewrite init_flat. by autorewrite with marks. Qed.


(* ------------------------------------------------------------------------- *)
(** ** Hovering and dropping *)

Lemma dragover_run overs w :
  (∀ t, t ∈ overs → bound "dragover" t w = [HDragOver]) →
  let w' := run (Deliver ∘ dragover <$> overs) w in
  matchLog w' = matchLog w
  ∧ dd_dragElement w' = dd_dragElement w
  ∧ (∀ ty e, bound ty e w' = bound ty e w)
  ∧ length (outcomes (dragover <$> overs) w) = length overs
  ∧ Forall (λ o, defaultPrevented o = true ∧ thrown o = false)
      (outcomes (dragover <$> overs) w).
Proof.
  revert w. induction overs as [|t overs IH]; intros w Hb; [by repeat split|].
  rewrite !fmap_cons, run_cons. cbn [outcomes step compose]. cbv zeta.
  assert (E : trigger (dragover t) w = _handleDragOver (dragover t) w).
  { apply (trigger_one HDragOver), Hb, elem_of_cons; by left. }
  rewrite E.
  destruct (IH (after (_handleDragOver (dragover t) w))) as (I1 & I2 & I3 & I4 & I5).
  { intros t' Ht'. rewrite <- E, bound_trigger. apply Hb, elem_of_cons; by right. }
  rewrite I1, I2. split; [done|]. split; [done|].
  split. { intros. by rewrite I3, <- E, bound_trigger. }
  split. { cbn [length]. f_equal. exact I4. }
  by apply Forall_cons.
Qed.

Lemma handleDrop_effect evt w :
  let o := _handleDrop evt w in
  thrown o = false
  ∧ matchLog (after o) = matchLog w ++ [(dd_dragElement w, [currentTarget evt])].
Proof. done. Qed.

(* ------------------------------------------------------------------------- *)
(** ** The cancel key *)

Lemma hasClass_spec c els w :
  jq.hasClass c els w = true ↔ ∃ e, e ∈ els ∧ marked c e w = true.
Proof.
  unfold jq.hasClass. rewrite bool_decide_eq_true, Exists_exists.
  by setoid_rewrite marked_spec.
Qed.

Lemma filterClass_nil c els w :
  jq.filterClass c els w = [] ↔ ∀ e, e ∈ els → marked c e w = false.
Proof.
  unfold jq.filterClass. split.
  - intros E e He. apply not_true_is_false. rewrite marked_spec. intros Hc.
    by apply (filter_nil_not_elem_of _ _ e E).
  - intros H. induction els as [|x els IH]; [done|].
    rewrite filter_cons_False.
    + apply IH. intros e He. apply H, elem_of_cons. by right.
    + rewrite <- marked_spec, H; [done|]. apply elem_of_cons; by left.
Qed.

Lemma escape_effect evt w :
  which evt = keyCodes.ESCAPE →
  let sel := _selectedDraggable w in
  let o := escape evt w in
  after o = focus sel (_keyboardSelect w sel)
  ∧ thrown o = false
  ∧ defaultPrevented o = true
  ∧ focusLog (after o) = focusLog w ++ sel
  ∧ matchLog (after o) = matchLog w
  ∧ _selectedDraggable (after o) = [].
Proof.
  intros Hk. cbv zeta. unfold escape. rewrite Hk, Z.eqb_refl. fields.
  set (sel := _selectedDraggable w). set (w' := _keyboardSelect w sel).
  assert (Hnone : _selectedDraggable w' = []).
  { unfold _selectedDraggable. apply filterClass_nil. intros d Hd.
    unfold w' in Hd |- *. rewrite (proj1 (proj2 (keyboardSelect_frame w sel))) in Hd.
    rewrite keyboardSelect_marked. rewrite bool_decide_eq_true_2 by done.
    case_bool_decide as Hin.
    - apply negb_false_iff, hasClass_spec. exists d. split; [done|].
      by apply selected_filter in Hin as [_ ?].
    - apply andb_false_iff. left. apply not_true_is_false. intros Hm.
      apply Hin. unfold sel, _selectedDraggable. by apply selected_filter. }
  split; [done|]. split; [done|]. split; [done|].
  split. { cbn. unfold w'. by rewrite (proj1 (proj2 (proj2 (proj2 (proj2 (keyboardSelect_frame w sel)))))). }
  split; [|done].
  change (matchLog (focus sel w')) with (matchLog w'). unfold w'.
  rewrite keyboardSelect_matchLog. fold w'. rewrite Hnone. cbn. by rewrite app_nil_r.
Qed.

Lemma node_removeClass_absent c n :
  c ∉ classList n → jq.node_removeClass c n = n.
Proof.
  intros H. destruct n as [cl ats ls]; unfold jq.node_removeClass; cbn in *.
  f_equal. apply difference_disjoint_L, disjoint_singleton_r, H.
Qed.

(** On an empty set the toggle only clears the targets. *)
Lemma keyboardSelect_nil_document w e :
  document (_keyboardSelect w []) e
  = jq.each (jq.node_removeClass IS_SELECTED) (dd_targets w) (document w) e.
Proof.
  unfold _keyboardSelect; cbv zeta.
  match goal with |- context [if ?b then checkMatch _ _ _ else _] => destruct b end;
    change (jq.hasClass IS_SELECTED [] w) with false;
    change (jq.getAttr "draggable" [] w) with (@None string);
    cbn [truthy negb jq.toggleClass]; world_fields; unfold jq.each at 1; by cbn.
Qed.

(* ------------------------------------------------------------------------- *)
(** ** Toggling one element of a classified page *)

Lemma filter_only {A} (P : A → Prop) `{∀ x, Decision (P x)} (l : list A) (a : A) :
  NoDup l → a ∈ l → (∀ x, x ∈ l → P x ↔ x = a) → filter P l = [a].
Proof.
  intros Hnd Hin HP. induction Hnd as [|x l Hx Hnd IH]; [by apply elem_of_nil in Hin|].
  apply elem_of_cons in Hin as [->|Hin].
  - rewrite filter_cons_True by (apply HP; [apply elem_of_cons; by left|done]).
    f_equal. clear IH. induction l as [|y l IH]; [done|].
    rewrite filter_cons_False.
    + apply IH.
      * intros Hx'. apply Hx, elem_of_cons. by right.
      * by inversion Hnd.
      * intros z Hz. apply HP. rewrite !elem_of_cons in *. tauto.
    + intros Hy. apply HP in Hy; [|rewrite !elem_of_cons; tauto].
      subst. apply Hx, elem_of_cons. by left.
  - rewrite filter_cons_False.
    + apply IH; [done|]. intros z Hz. apply HP, elem_of_cons. by right.
    + intros Hpx. apply HP in Hpx; [|apply elem_of_cons; by left]. by subst.
Qed.

Lemma hasClass_singleton c e w : jq.hasClass c [e] w = marked c e w.
Proof.
  apply eq_true_iff_eq. rewrite hasClass_spec. split.
  - intros (x & Hx & Hm). apply list_elem_of_singleton in Hx. by subst.
  - intros Hm. exists e. split; [by apply list_elem_of_singleton|done].
Qed.

Lemma filterClass_ext_in c els w w' :
  (∀ e, e ∈ els → marked c e w' = marked c e w) →
  jq.filterClass c els w' = jq.filterClass c els w.
Proof.
  unfold jq.filterClass. induction els as [|x els IH]; intros H; [done|].
  rewrite !filter_cons. rewrite IH by (intros e He; apply H, elem_of_cons; by right).
  apply decide_ext. rewrite <- !marked_spec, H; [done|]. apply elem_of_cons; by left.
Qed.

Lemma Classified_keyboardSelect w el : Classified w → Classified (_keyboardSelect w el).
Proof.
  intros [H1 H2 H3 H4].
  destruct (keyboardSelect_frame w el) as (_ & Ed & Et & _ & _ & _ & Ea).
  split; rewrite ?Ed, ?Et; try done; intros x Hx; unfold attrOf; rewrite Ea.
  - by apply H3.
  - by apply H4.
Qed.

Lemma Classified_disjoint w e :
  Classified w → e ∈ dd_draggables w → e ∈ dd_targets w → False.
Proof.
  intros [_ _ H3 H4] Hd Ht. specialize (H3 e Hd). specialize (H4 e Ht). congruence.
Qed.

(** Toggling a draggable: it alone can be selected among the draggables
    afterwards, and the targets keep their selection. *)
Lemma toggle_draggable w e :
  Classified w → e ∈ dd_draggables w →
  let w' := _keyboardSelect w [e] in
  _selectedDraggable w' = (if marked IS_SELECTED e w then [] else [e])
  ∧ _selectedTarget w' = _selectedTarget w.
Proof.
  intros Hc He. cbv zeta.
  assert (Hm : ∀ x, marked IS_SELECTED x (_keyboardSelect w [e])
                    = if bool_decide (x = e) then negb (marked IS_SELECTED e w)
                      else marked IS_SELECTED x w
                           && negb (bool_decide (x ∈ dd_draggables w))).
  { intros x. rewrite keyboardSelect_marked, hasClass_singleton.
    rewrite bool_decide_eq_true_2 by done.
    change (jq.getAttr "draggable" [e] w) with (attrOf "draggable" e w).
    rewrite (draggables_flagged w Hc e He).
    rewrite (bool_decide_ext (x ∈ [e]) (x = e)); [done|]. apply list_elem_of_singleton. }
  destruct (keyboardSelect_frame w [e]) as (_ & Ed & Et & _).
  unfold _selectedDraggable, _selectedTarget. rewrite Ed, Et. split.
  - destruct (marked IS_SELECTED e w) eqn:E.
    + apply filterClass_nil. intros x Hx. rewrite Hm. case_bool_decide; [done|].
      by settle.
    + apply filter_only; [apply Hc|done|]. intros x Hx.
      rewrite <- marked_spec, Hm. case_bool_decide; [done|]. by settle.
  - apply filterClass_ext_in. intros x Hx. rewrite Hm.
    assert (x ∉ dd_draggables w) by (intros ?; by eapply Classified_disjoint).
    assert (x ≠ e) by (by intros ->). by settle.
Qed.

Lemma toggle_target w e :
  Classified w → e ∈ dd_targets w →
  let w' := _keyboardSelect w [e] in
  _selectedTarget w' = (if marked IS_SELECTED e w then [] else [e])
  ∧ _selectedDraggable w' = _selectedDraggable w.
Proof.
  intros Hc He. cbv zeta.
  assert (Hm : ∀ x, marked IS_SELECTED x (_keyboardSelect w [e])
                    = if bool_decide (x = e) then negb (marked IS_SELECTED e w)
                      else marked IS_SELECTED x w
                           && negb (bool_decide (x ∈ dd_targets w))).
  { intros x. rewrite keyboardSelect_marked, hasClass_singleton.
    rewrite bool_decide_eq_true_2 by done.
    change (jq.getAttr "draggable" [e] w) with (attrOf "draggable" e w).
    rewrite (targets_unflagged w Hc e He).
    rewrite (bool_decide_ext (x ∈ [e]) (x = e)); [done|]. apply list_elem_of_singleton. }
  destruct (keyboardSelect_frame w [e]) as (_ & Ed & Et & _).
  unfold _selectedDraggable, _selectedTarget. rewrite Ed, Et. split.
  - destruct (marked IS_SELECTED e w) eqn:E.
    + apply filterClass_nil. intros x Hx. rewrite Hm. case_bool_decide; [done|].
      by settle.
    + apply filter_only; [apply Hc|done|]. intros x Hx.
      rewrite <- marked_spec, Hm. case_bool_decide; [done|]. by settle.
  - apply filterClass_ext_in. intros x Hx. rewrite Hm.
    assert (x ∉ dd_targets w) by (intros ?; by eapply Classified_disjoint).
    assert (x ≠ e) by (by intros ->). by settle.
Qed.

Lemma step_activation w evt h :
  isActivation evt = true →
  bound (type evt) (currentTarget evt) w = [h] →
  h = HActivateDraggable ∨ h = HActivateTarget →
  step w (Deliver evt) = _keyboardSelect w [currentTarget evt].
Proof.
  intros Ha Hb Hh. cbn [step]. rewrite (trigger_one h) by done.
  destruct Hh as [-> | ->]; cbn [call]; unfold activation; by rewrite Ha.
Qed.

Lemma marked_selectedDraggable w e :
  e ∈ dd_draggables w →
  marked IS_SELECTED e w = bool_decide (e ∈ _selectedDraggable w).
Proof.
  intros He. apply eq_true_iff_eq. rewrite bool_decide_eq_true.
  unfold _selectedDraggable. rewrite selected_filter. tauto.
Qed.

Lemma marked_selectedTarget w e :
  e ∈ dd_targets w →
  marked IS_SELECTED e w = bool_decide (e ∈ _selectedTarget w).
Proof.
  intros He. apply eq_true_iff_eq. rewrite bool_decide_eq_true.
  unfold _selectedTarget. rewrite selected_filter. tauto.
Qed.

(** What one activation does to the two selections and the call log. *)
Lemma activate_draggable w evt h :
  Classified w →
  isActivation evt = true →
  bound (type evt) (currentTarget evt) w = [h] →
  h = HActivateDraggable ∨ h = HActivateTarget →
  currentTarget evt ∈ dd_draggables w →
  let D := currentTarget evt in
  let w' := step w (Deliver evt) in
  let sd' := if bool_decide (D ∈ _selectedDraggable w) then [] else [D] in
  Classified w'
  ∧ _selectedDraggable w' = sd'
  ∧ _selectedTarget w' = _selectedTarget w
  ∧ matchLog w'
    = matchLog w ++ (if nonEmpty sd' && nonEmpty (_selectedTarget w)
                     then [(Some sd', _selectedTarget w)] else []).
Proof.
  intros Hc Ha Hb Hh Hd. cbv zeta. rewrite (step_activation w evt h) by done.
  destruct (toggle_draggable w _ Hc Hd) as (E1 & E2).
  rewrite marked_selectedDraggable in E1 by done.
  split; [by apply Classified_keyboardSelect|]. split; [done|]. split; [done|].
  rewrite keyboardSelect_matchLog. cbv zeta. by rewrite E1, E2.
Qed.

Lemma activate_target w evt h :
  Classified w →
  isActivation evt = true →
  bound (type evt) (currentTarget evt) w = [h] →
  h = HActivateDraggable ∨ h = HActivateTarget →
  currentTarget evt ∈ dd_targets w →
  let T := currentTarget evt in
  let w' := step w (Deliver evt) in
  let st' := if bool_decide (T ∈ _selectedTarget w) then [] else [T] in
  Classified w'
  ∧ _selectedTarget w' = st'
  ∧ _selectedDraggable w' = _selectedDraggable w
  ∧ matchLog w'
    = matchLog w ++ (if nonEmpty (_selectedDraggable w) && nonEmpty st'
                     then [(Some (_selectedDraggable w), st')] else []).
Proof.
  intros Hc Ha Hb Hh Hd. cbv zeta. rewrite (step_activation w evt h) by done.
  destruct (toggle_target w _ Hc Hd) as (E1 & E2).
  rewrite marked_selectedTarget in E1 by done.
  split; [by apply Classified_keyboardSelect|]. split; [done|]. split; [done|].
  rewrite keyboardSelect_matchLog. cbv zeta. by rewrite E1, E2.
Qed.

Lemma bound_step_deliver ty e evt w : bound ty e (step w (Deliver evt)) = bound ty e w.
Proof. apply bound_trigger. Qed.

Lemma sets_step_deliver evt w :
  dd_draggables (step w (Deliver evt)) = dd_draggables w
  ∧ dd_targets (step w (Deliver evt)) = dd_targets w.
Proof. cbn [step]. split; apply trigger_frame. Qed.

(** A click on a draggable that is not selected, and one on a target that is
    not selected. *)
Lemma click_fresh_draggable w D :
  Classified w → D ∈ dd_draggables w → D ∉ _selectedDraggable w →
  bound "click" D w = [HActivateDraggable] →
  let w' := step w (Deliver (click D)) in
  Classified w'
  ∧ _selectedDraggable w' = [D]
  ∧ _selectedTarget w' = _selectedTarget w
  ∧ matchLog w'
    = matchLog w ++ (if nonEmpty (_selectedTarget w)
                     then [(Some [D], _selectedTarget w)] else []).
Proof.
  intros Hc Hd Hn Hb.
  destruct (activate_draggable w (click D) HActivateDraggable Hc eq_refl Hb
              (or_introl eq_refl) Hd) as (C & E1 & E2 & E3).
  cbn [currentTarget click] in *.
  rewrite (bool_decide_eq_false_2 _ Hn) in E1, E3.
  cbn [nonEmpty andb] in E3. exact (conj C (conj E1 (conj E2 E3))).
Qed.

Lemma click_fresh_target w T :
  Classified w → T ∈ dd_targets w → T ∉ _selectedTarget w →
  bound "click" T w = [HActivateTarget] →
  let w' := step w (Deliver (click T)) in
  Classified w'
  ∧ _selectedTarget w' = [T]
  ∧ _selectedDraggable w' = _selectedDraggable w
  ∧ matchLog w'
    = matchLog w ++ (if nonEmpty (_selectedDraggable w)
                     then [(Some (_selectedDraggable w), [T])] else []).
Proof.
  intros Hc Hd Hn Hb.
  destruct (activate_target w (click T) HActivateTarget Hc eq_refl Hb
              (or_intror eq_refl) Hd) as (C & E1 & E2 & E3).
  cbn [currentTarget click] in *.
  rewrite (bool_decide_eq_false_2 _ Hn) in E1, E3.
  cbn [nonEmpty] in E3. rewrite andb_true_r in E3.
  exact (conj C (conj E1 (conj E2 E3))).
Qed.

(* ------------------------------------------------------------------------- *)
(** ** Taking listeners off *)

Lemma filter_off_nil ty (bs : list (string * Handler)) (l : list Handler) :
  (∀ h, h ∈ l → handles h ty) → (∀ h, handles h ty → (ty, h) ∈ bs) →
  filter (λ h, (ty, h) ∉ bs) l = [].
Proof.
  intros H Hbs. induction l as [|h hs IH]; [done|].
  rewrite filter_cons_False.
  - apply IH. intros h' Hh'. apply H, elem_of_cons. by right.
  - intros Hn. apply Hn, Hbs, H, elem_of_cons. by left.
Qed.

(** Every function written for a drag event type is in the list that
    [_removeDragEventHandlers] takes off. *)
Lemma handles_dragBindings ty h :
  ty ∈ ["dragstart"; "dragend"] → handles h ty → (ty, h) ∈ dragBindings.
Proof.
  unfold dragBindings. rewrite !elem_of_cons, !elem_of_nil.
  intros [->|[->|[]]] Hh; destruct h; cbn in Hh;
    try discriminate; try (destruct Hh; discriminate); tauto.
Qed.

Lemma handles_dropBindings ty h :
  ty ∈ ["dragenter"; "dragleave"; "dragover"; "drop"] →
  handles h ty → (ty, h) ∈ dropBindings.
Proof.
  unfold dropBindings. rewrite !elem_of_cons, !elem_of_nil.
  intros [->|[->|[->|[->|[]]]]] Hh; destruct h; cbn in Hh;
    try discriminate; try (destruct Hh; discriminate); tauto.
Qed.

Lemma off_drag_nil ty e w (l : list Handler) :
  tidy w → ty ∈ ["dragstart"; "dragend"] →
  (∀ h, h ∈ l → h ∈ bound ty e w) →
  filter (λ h, (ty, h) ∉ dragBindings) l = [].
Proof.
  intros Ht Hty Hl. apply filter_off_nil.
  - intros h Hh. eapply bound_handles; [done|]. by apply Hl.
  - intros h. by apply handles_dragBindings.
Qed.

Lemma off_drop_nil ty e w (l : list Handler) :
  tidy w → ty ∈ ["dragenter"; "dragleave"; "dragover"; "drop"] →
  (∀ h, h ∈ l → h ∈ bound ty e w) →
  filter (λ h, (ty, h) ∉ dropBindings) l = [].
Proof.
  intros Ht Hty Hl. apply filter_off_nil.
  - intros h Hh. eapply bound_handles; [done|]. by apply Hl.
  - intros h. by apply handles_dropBindings.
Qed.

Lemma dragstart_drop_log w D T :
  bound "dragstart" D w = [HDragStart] → bound "drop" T w = [HDrop] →
  matchLog (run [Deliver (dragstart D); Deliver (drop T)] w)
  = matchLog w ++ [(Some [D], [T])].
Proof.
  intros Hs Hd. change (run _ w) with (step (step w (Deliver (dragstart D))) (Deliver (drop T))).
  cbn [step]. rewrite (trigger_one HDrop) by (by rewrite bound_trigger).
  by rewrite (trigger_one HDragStart (dragstart D) w) by exact Hs.
Qed.

Lemma disableMatching_document ds ts w e :
  document (disableMatching (Some ds) (Some ts) w) e
  = jq.each (jq.node_offType "click") ts
      (jq.each (jq.node_offType "click") ds
         (jq.each (jq.node_off dropBindings) ts
            (jq.each (jq.node_off dragBindings) ds
               (jq.each (jq.node_removeAttr "aria-dropeffect") ts
                  (jq.each (jq.node_removeAttr "tabindex") ds
                     (jq.each (jq.node_removeAttr "aria-grabbed") ds
                        (jq.each (jq.node_removeAttr "draggable") ds (document w)))))))) e.
Proof. reflexivity. Qed.

Lemma disableMatching_fields d t w :
  let w' := disableMatching d t w in
  dd_context w' = dd_context w ∧ dd_draggables w' = dd_draggables w
  ∧ dd_targets w' = dd_targets w ∧ dd_dragElement w' = dd_dragElement w
  ∧ matchLog w' = matchLog w ∧ focusLog w' = focusLog w
  ∧ (∀ c e, marked c e w' = marked c e w).
Proof.
  destruct d as [ds|], t as [ts|]; try done. cbv zeta. repeat split; try done.
  intros c e. unfold marked. rewrite disableMatching_document.
  by rewrite !each_classList.
Qed.

Lemma cleanup_detaches_drag_and_click w :
  tidy w →
  (∀ d ty, d ∈ dd_draggables w → ty ∈ ["dragstart"; "dragend"; "click"] →
           bound ty d (cleanup w) = [])
  ∧ (∀ t ty, t ∈ dd_targets w →
             ty ∈ ["dragenter"; "dragleave"; "dragover"; "drop"; "click"] →
             bound ty t (cleanup w) = []).
Proof.
  intros Ht.
  assert (E : ∀ ty e, bound ty e (cleanup w)
     = if bool_decide (ty = "click") && bool_decide (e ∈ dd_targets w) then []
       else if bool_decide (ty = "click") && bool_decide (e ∈ dd_draggables w) then []
       else if bool_decide (e ∈ dd_targets w)
            then filter (λ h, (ty, h) ∉ dropBindings)
                   (if bool_decide (e ∈ dd_draggables w)
                    then filter (λ h, (ty, h) ∉ dragBindings) (bound ty e w)
                    else bound ty e w)
            else if bool_decide (e ∈ dd_draggables w)
                 then filter (λ h, (ty, h) ∉ dragBindings) (bound ty e w)
                 else bound ty e w).
  { intros. rewrite cleanup_flat. by autorewrite with bounds. }
  split.
  - intros d ty Hd Hty. rewrite E. rewrite !elem_of_cons, elem_of_nil in Hty.
    destruct Hty as [->|[->|[->|[]]]]; settle; try by case_bool_decide.
    all: rewrite (off_drag_nil _ d w (bound _ d w) Ht) by (rewrite ?elem_of_cons; tauto);
      by case_bool_decide.
  - intros t ty Hin Hty. rewrite E. rewrite !elem_of_cons, elem_of_nil in Hty.
    assert (R : ∀ ty, ty ∈ ["dragenter"; "dragleave"; "dragover"; "drop"] →
              filter (λ h, (ty, h) ∉ dropBindings)
                (if bool_decide (t ∈ dd_draggables w)
                 then filter (λ h, (ty, h) ∉ dragBindings) (bound ty t w)
                 else bound ty t w) = []).
    { intros ty' Hty'. apply (off_drop_nil ty' t w); [done|done|].
      intros h. case_bool_decide; [|done]. rewrite list_elem_of_filter. tauto. }
    destruct Hty as [->|[->|[->|[->|[->|[]]]]]]; settle; try done;
      by rewrite R by (rewrite ?elem_of_cons; tauto).
Qed.

(** After [cleanup] the drag events and clicks on the elements of the two
    sets reach no listener: nothing changes and nothing is called. *)
Lemma cleanup_silences_drag_and_click w evt :
  tidy w →
  (currentTarget evt ∈ dd_draggables w ∧ type evt ∈ ["dragstart"; "dragend"; "click"])
  ∨ (currentTarget evt ∈ dd_targets w
     ∧ type evt ∈ ["dragenter"; "dragleave"; "dragover"; "drop"; "click"]) →
  trigger evt (cleanup w) = returns (cleanup w) false false.
Proof.
  intros Ht H. apply trigger_none.
  destruct (cleanup_detaches_drag_and_click w Ht) as [Hd Hts].
  destruct H as [[H1 H2]|[H1 H2]]; auto.
Qed.

(* ------------------------------------------------------------------------- *)
(** ** The selection invariant under events *)

Lemma length_filterClass_mono c els w w' :
  (∀ e, e ∈ els → marked c e w' = true → marked c e w = true) →
  (length (jq.filterClass c els w') ≤ length (jq.filterClass c els w))%nat.
Proof.
  unfold jq.filterClass. induction els as [|x els IH]; intros H; [done|].
  assert (IH' := IH (λ e He, H e (proj2 (elem_of_cons _ _ _) (or_intror He)))).
  specialize (H x (proj2 (elem_of_cons _ _ _) (or_introl eq_refl))).
  rewrite !filter_cons.
  destruct (decide (c ∈ classList (document w' x))) as [H1|H1];
    destruct (decide (c ∈ classList (document w x))) as [H2|H2]; cbn; try lia.
  exfalso. by apply H2, marked_spec, H, marked_spec.
Qed.

Lemma call_draggable_attr h evt w e :
  attrOf "draggable" e (after (call h evt w)) = attrOf "draggable" e w.
Proof.
  destruct h; cbn [call];
    unfold _handleDragStart, _handleDragEnd, _handleDragEnter, _handleDragLeave,
      _handleDragOver, _handleDrop, activation, escape; cbv zeta;
    try (destruct (dd_dragElement w));
    try match goal with |- context [if ?b then _ else _] => destruct b end;
    fields; try done;
    try (unfold attrOf; change (document (focus ?a ?b)) with (document b);
         by rewrite (proj2 (proj2 (proj2 (proj2 (proj2 (proj2 (keyboardSelect_frame _ _))))))));
    change (attrOf "draggable" e (checkMatch ?a ?b ?c)) with (attrOf "draggable" e c);
    autorewrite with attrs; by settle.
Qed.

Lemma Classified_call h evt w : Classified w → Classified (after (call h evt w)).
Proof.
  intros [H1 H2 H3 H4]. destruct (call_frame h evt w) as (_ & Ed & Et & _).
  split; rewrite ?Ed, ?Et; try done; intros x Hx; rewrite call_draggable_attr; auto.
Qed.

Lemma call_selected_drag h evt w e :
  h ≠ HActivateDraggable → h ≠ HActivateTarget → h ≠ HEscape →
  marked IS_SELECTED e (after (call h evt w)) = marked IS_SELECTED e w.
Proof.
  intros N1 N2 N3. destruct h; try done; cbn [call];
    unfold _handleDragStart, _handleDragEnd, _handleDragEnter, _handleDragLeave,
      _handleDragOver, _handleDrop; cbv zeta;
    try (destruct (dd_dragElement w)); fields; try done;
    autorewrite with marks; by settle.
Qed.

Lemma singleSelection_keyboardSelect_one w e :
  Classified w → singleSelection w → singleSelection (_keyboardSelect w [e]).
Proof.
  intros Hc [Hd Ht].
  destruct (decide (e ∈ dd_draggables w)) as [Hed|Hed].
  { destruct (toggle_draggable w e Hc Hed) as [E1 E2]. split; rewrite ?E1, ?E2; [|done].
    destruct (marked _ _ _); cbn; lia. }
  destruct (decide (e ∈ dd_targets w)) as [Het|Het].
  { destruct (toggle_target w e Hc Het) as [E1 E2]. split; rewrite ?E1, ?E2; [done|].
    destruct (marked _ _ _); cbn; lia. }
  destruct (keyboardSelect_frame w [e]) as (_ & Ed & Et & _).
  unfold singleSelection, _selectedDraggable, _selectedTarget in *. rewrite Ed, Et.
  split; (etrans; [apply length_filterClass_mono|done]); intros x Hx;
    rewrite keyboardSelect_marked; rewrite bool_decide_eq_true_2 by done;
    (rewrite (bool_decide_eq_false_2 (x ∈ [e]))
       by (rewrite list_elem_of_singleton; by intros ->));
    by intros [? _]%andb_true_iff.
Qed.

Lemma singleSelection_escape w :
  singleSelection w → singleSelection (_keyboardSelect w (_selectedDraggable w)).
Proof.
  intros [Hd Ht]. set (sel := _selectedDraggable w).
  destruct (keyboardSelect_frame w sel) as (_ & Ed & Et & _).
  unfold singleSelection, _selectedDraggable, _selectedTarget in *. rewrite Ed, Et.
  split; (etrans; [apply length_filterClass_mono|done]); intros x Hx;
    rewrite keyboardSelect_marked; rewrite bool_decide_eq_true_2 by done;
    (case_bool_decide as Hin; [|by intros [? _]%andb_true_iff]);
    by apply selected_filter in Hin as [_ ?].
Qed.

(** The selection invariant is kept by every listener call. *)
Lemma selection_call h evt w :
  Classified w → singleSelection w → singleSelection (after (call h evt w)).
Proof.
  intros Hc Hs.
  assert (Hdrag : h ≠ HActivateDraggable → h ≠ HActivateTarget → h ≠ HEscape →
                  singleSelection (after (call h evt w))).
  { intros N1 N2 N3. destruct (call_frame h evt w) as (_ & Ed & Et & _).
    unfold singleSelection, _selectedDraggable, _selectedTarget in *. rewrite Ed, Et.
    rewrite (filterClass_ext IS_SELECTED (dd_draggables w) w),
      (filterClass_ext IS_SELECTED (dd_targets w) w)
      by (intros; by apply call_selected_drag).
    done. }
  destruct h; try (by apply Hdrag); cbn [call]; unfold activation, escape.
  - destruct (isActivation evt); fields; [|done].
    by apply singleSelection_keyboardSelect_one.
  - destruct (isActivation evt); fields; [|done].
    by apply singleSelection_keyboardSelect_one.
  - destruct (which evt =? keyCodes.ESCAPE)%Z; fields; [|done].
    by apply singleSelection_escape.
Qed.

Lemma selection_dispatch hs evt w :
  Classified w → singleSelection w →
  Classified (after (dispatch hs evt w)) ∧ singleSelection (after (dispatch hs evt w)).
Proof.
  revert w. induction hs as [|h hs IH]; intros w Hc Hs; [done|].
  cbn [dispatch]. pose proof (Classified_call h evt w Hc) as Hc'.
  pose proof (selection_call h evt w Hc Hs) as Hs'.
  destruct (thrown (call h evt w)); [done|]. fields. by apply IH.
Qed.

(** At most one selected element per set, over every sequence of events. *)
Lemma selection_run evts w :
  Classified w → singleSelection w →
  Classified (run (Deliver <$> evts) w) ∧ singleSelection (run (Deliver <$> evts) w).
Proof.
  revert w. induction evts as [|evt evts IH]; intros w Hc Hs; [done|].
  rewrite fmap_cons, run_cons. cbn [step].
  destruct (selection_dispatch (handlersFor (type evt) (document w (currentTarget evt)))
              evt w Hc Hs) as [Hc' Hs'].
  by apply IH.
Qed.

(* ------------------------------------------------------------------------- *)
(** ** The state the constructor leaves *)

(** What [init] binds on an element, after what was bound before. *)
Lemma init_bound ty e w :
  bound ty e (init w)
  = bound ty e w
    ++ (if bool_decide (e ∈ dd_draggables w)
        then (filter (λ b, b.1 = ty) dragBindings).*2 else [])
    ++ (if bool_decide (e ∈ dd_targets w)
        then (filter (λ b, b.1 = ty) dropBindings).*2 else [])
    ++ (if bool_decide (e ∈ dd_draggables w)
        then (filter (λ b, b.1 = ty)
                [("click", HActivateDraggable); ("keypress", HActivateDraggable)]).*2
        else [])
    ++ (if bool_decide (e ∈ dd_targets w)
        then (filter (λ b, b.1 = ty)
                [("click", HActivateTarget); ("keypress", HActivateTarget)]).*2
        else [])
    ++ (if bool_decide (e ∈ dd_context w)
        then (filter (λ b, b.1 = ty) [("keydown", HEscape)]).*2 else []).
Proof.
  rewrite init_flat. autorewrite with bounds. by rewrite <- !app_assoc.
Qed.

Lemma init_draggable_attr e w :
  attrOf "draggable" e (init w)
  = if bool_decide (e ∈ dd_draggables w) then Some "true" else attrOf "draggable" e w.
Proof. rewrite init_flat. autorewrite with attrs. by settle. Qed.

Lemma init_fields w :
  dd_context (init w) = dd_context w ∧ dd_draggables (init w) = dd_draggables w
  ∧ dd_targets (init w) = dd_targets w ∧ dd_dragElement (init w) = dd_dragElement w
  ∧ matchLog (init w) = matchLog w ∧ focusLog (init w) = focusLog w.
Proof. rewrite init_flat. by repeat split. Qed.

(** The constructor classifies a page whose targets are not draggables and
    carry no truthy [draggable] attribute of their own. *)
Lemma Classified_DragAndDrop c ds ts doc :
  NoDup ds → NoDup ts →
  (∀ t, t ∈ ts → (t ∉ ds) ∧ truthy (attributes (doc t) !! "draggable") = false) →
  Classified (DragAndDrop c ds ts doc).
Proof.
  intros Hd Ht Hts. unfold DragAndDrop.
  match goal with |- Classified (init ?x) => set (w0 := x) end.
  destruct (init_fields w0) as (_ & Ed & Et & _).
  assert (Hsets : (dd_draggables w0 = ds ∧ dd_targets w0 = ts)
                  ∨ (dd_draggables w0 = [] ∧ dd_targets w0 = [])).
  { unfold w0; cbn [dd_draggables dd_targets]. destruct (nonEmpty _); auto. }
  assert (Hdoc : document w0 = doc) by reflexivity.
  clearbody w0.
  split; rewrite ?Ed, ?Et.
  - destruct Hsets as [[-> _]|[-> _]]; [exact Hd|constructor].
  - destruct Hsets as [[_ ->]|[_ ->]]; [exact Ht|constructor].
  - intros d Hin. rewrite init_draggable_attr. by settle.
  - intros t Hin. rewrite init_draggable_attr.
    destruct Hsets as [[E1 E2]|[E1 E2]]; rewrite E1; rewrite E2 in Hin.
    + destruct (Hts t Hin) as [Hn Hf]. settle. unfold attrOf. by rewrite Hdoc.
    + by apply elem_of_nil in Hin.
Qed.

Lemma singleSelection_DragAndDrop c ds ts doc :
  (∀ e, IS_SELECTED ∉ classList (doc e)) →
  _selectedDraggable (DragAndDrop c ds ts doc) = []
  ∧ _selectedTarget (DragAndDrop c ds ts doc) = []
  ∧ singleSelection (DragAndDrop c ds ts doc).
Proof.
  intros H.
  assert (Hm : ∀ e, marked IS_SELECTED e (DragAndDrop c ds ts doc) = false).
  { intros e. unfold DragAndDrop. rewrite marked_init.
    apply not_true_is_false. rewrite marked_spec. apply H. }
  generalize dependent (DragAndDrop c ds ts doc). intros w Hm.
  assert (E1 : _selectedDraggable w = []) by (apply filterClass_nil; auto).
  assert (E2 : _selectedTarget w = []) by (apply filterClass_nil; auto).
  split; [exact E1|]. split; [exact E2|]. unfold singleSelection. rewrite E1, E2. cbn. lia.
Qed.

Lemma Classified_demo : Classified demo.
Proof.
  apply Classified_DragAndDrop.
  - repeat (apply NoDup_cons; split; [rewrite ?elem_of_cons, ?elem_of_nil; lia|]).
    apply NoDup_nil; exact I.
  - repeat (apply NoDup_cons; split; [rewrite ?elem_of_cons, ?elem_of_nil; lia|]).
    apply NoDup_nil; exact I.
  - intros t Ht. split; [|reflexivity]. rewrite !elem_of_cons, elem_of_nil in *. lia.
Qed.

Lemma singleSelection_demo : singleSelection demo.
Proof. apply singleSelection_DragAndDrop. intros e. apply not_elem_of_empty. Qed.

(* ------------------------------------------------------------------------- *)
(** ** Between the two ends of a gesture *)


(* ------------------------------------------------------------------------- *)
(** ** Live elements, also after a pair was disabled *)

Lemma Classified_Separated w :
  Classified w → Separated w ∧ ∀ d, d ∈ dd_draggables w → live w d.
Proof.
  intros Hc. split; [split; try apply Hc|].
  - intros e Hd Ht. by eapply Classified_disjoint.
  - intros d Hd. split; [done|]. by apply Hc.
Qed.

Lemma dispatch_draggable_attr hs evt w e :
  attrOf "draggable" e (after (dispatch hs evt w)) = attrOf "draggable" e w.
Proof.
  revert w. induction hs as [|h hs IH]; intros w; [done|]. cbn [dispatch].
  pose proof (call_draggable_attr h evt w e) as E.
  destruct (thrown (call h evt w)); [done|]. fields. by rewrite IH.
Qed.

Lemma live_deliver evt w d : live w d → live (step w (Deliver evt)) d.
Proof.
  intros [Hd Ha]. destruct (sets_step_deliver evt w) as [Ed _].
  split; [by rewrite Ed|]. cbn [step]. unfold trigger.
  by rewrite dispatch_draggable_attr.
Qed.

Lemma Separated_step w st : Separated w → Separated (step w st).
Proof.
  intros [H1 H2 H3 H4]. destruct st as [evt| |d t].
  - destruct (sets_step_deliver evt w) as [Ed Et].
    split; rewrite ?Ed, ?Et; try done. intros x Hx. cbn [step]. unfold trigger.
    rewrite dispatch_draggable_attr. by apply H4.
  - cbn [step]. split; try done. intros x Hx.
    rewrite cleanup_flat. autorewrite with attrs. settle.
    change (dd_targets (cleanup w)) with (dd_targets w) in Hx.
    case_bool_decide; [done|]. by apply H4.
  - cbn [step]. destruct (disableMatching_fields d t w) as (_ & Ed & Et & _).
    split; rewrite ?Ed, ?Et; try done. intros x Hx.
    destruct d as [ds|], t as [ts|]; try (by apply H4).
    unfold disableMatching, _removeDragEventHandlers, _removeKeyboardEventHandlers;
      cbv zeta. autorewrite with attrs. settle.
    case_bool_decide; [done|]. by apply H4.
Qed.

(** Disabling a pair leaves the other draggables live. *)
Lemma live_disableMatching ds ts w d :
  live w d → d ∉ ds → live (disableMatching (Some ds) (Some ts) w) d.
Proof.
  intros [Hd Ha] Hn.
  destruct (disableMatching_fields (Some ds) (Some ts) w) as (_ & Ed & _).
  split; [by rewrite Ed|].
  unfold disableMatching, _removeDragEventHandlers, _removeKeyboardEventHandlers;
    cbv zeta. autorewrite with attrs. by settle.
Qed.

Lemma Separated_run sts w : Separated w → Separated (run sts w).
Proof.
  revert w. induction sts as [|st sts IH]; intros w H; [done|].
  rewrite run_cons. apply IH, Separated_step, H.
Qed.

(** Toggling a live draggable: it alone can be selected among the draggables
    afterwards, and the targets keep their selection. *)
Lemma toggle_live_draggable w e :
  Separated w → live w e →
  let w' := _keyboardSelect w [e] in
  _selectedDraggable w' = (if marked IS_SELECTED e w then [] else [e])
  ∧ _selectedTarget w' = _selectedTarget w.
Proof.
  intros Hc [He Ha]. cbv zeta.
  assert (Hm : ∀ x, marked IS_SELECTED x (_keyboardSelect w [e])
                    = if bool_decide (x = e) then negb (marked IS_SELECTED e w)
                      else marked IS_SELECTED x w
                           && negb (bool_decide (x ∈ dd_draggables w))).
  { intros x. rewrite keyboardSelect_marked, hasClass_singleton.
    rewrite bool_decide_eq_true_2 by done.
    change (jq.getAttr "draggable" [e] w) with (attrOf "draggable" e w).
    rewrite Ha.
    rewrite (bool_decide_ext (x ∈ [e]) (x = e)); [done|]. apply list_elem_of_singleton. }
  destruct (keyboardSelect_frame w [e]) as (_ & Ed & Et & _).
  unfold _selectedDraggable, _selectedTarget. rewrite Ed, Et. split.
  - destruct (marked IS_SELECTED e w) eqn:E.
    + apply filterClass_nil. intros x Hx. rewrite Hm. case_bool_decide; [done|].
      by settle.
    + apply filter_only; [apply Hc|done|]. intros x Hx.
      rewrite <- marked_spec, Hm. case_bool_decide; [done|]. by settle.
  - apply filterClass_ext_in. intros x Hx. rewrite Hm.
    assert (x ∉ dd_draggables w) by (intros ?; by eapply (separated_disjoint w Hc)).
    assert (x ≠ e) by (by intros ->). by settle.
Qed.

(** Toggling a target, whatever became of the draggables. *)
Lemma toggle_separated_target w e :
  Separated w → e ∈ dd_targets w →
  let w' := _keyboardSelect w [e] in
  _selectedTarget w' = (if marked IS_SELECTED e w then [] else [e])
  ∧ _selectedDraggable w' = _selectedDraggable w.
Proof.
  intros Hc He. cbv zeta.
  assert (Hm : ∀ x, marked IS_SELECTED x (_keyboardSelect w [e])
                    = if bool_decide (x = e) then negb (marked IS_SELECTED e w)
                      else marked IS_SELECTED x w
                           && negb (bool_decide (x ∈ dd_targets w))).
  { intros x. rewrite keyboardSelect_marked, hasClass_singleton.
    rewrite bool_decide_eq_true_2 by done.
    change (jq.getAttr "draggable" [e] w) with (attrOf "draggable" e w).
    rewrite (separated_unflagged w Hc e He).
    rewrite (bool_decide_ext (x ∈ [e]) (x = e)); [done|]. apply list_elem_of_singleton. }
  destruct (keyboardSelect_frame w [e]) as (_ & Ed & Et & _).
  unfold _selectedDraggable, _selectedTarget. rewrite Ed, Et. split.
  - destruct (marked IS_SELECTED e w) eqn:E.
    + apply filterClass_nil. intros x Hx. rewrite Hm. case_bool_decide; [done|].
      by settle.
    + apply filter_only; [apply Hc|done|]. intros x Hx.
      rewrite <- marked_spec, Hm. case_bool_decide; [done|]. by settle.
  - apply filterClass_ext_in. intros x Hx. rewrite Hm.
    assert (x ∉ dd_targets w) by (by apply (separated_disjoint w Hc)).
    assert (x ≠ e) by (by intros ->). by settle.
Qed.

(** What one activation does to the two selections and the call log. *)
Lemma activate_live_draggable w evt h :
  Separated w →
  isActivation evt = true →
  bound (type evt) (currentTarget evt) w = [h] →
  h = HActivateDraggable ∨ h = HActivateTarget →
  live w (currentTarget evt) →
  let D := currentTarget evt in
  let w' := step w (Deliver evt) in
  let sd' := if bool_decide (D ∈ _selectedDraggable w) then [] else [D] in
  _selectedDraggable w' = sd'
  ∧ _selectedTarget w' = _selectedTarget w
  ∧ matchLog w'
    = matchLog w ++ (if nonEmpty sd' && nonEmpty (_selectedTarget w)
                     then [(Some sd', _selectedTarget w)] else []).
Proof.
  intros Hc Ha Hb Hh Hd. cbv zeta. rewrite (step_activation w evt h) by done.
  destruct (toggle_live_draggable w _ Hc Hd) as (E1 & E2).
  rewrite marked_selectedDraggable in E1 by apply Hd.
  split; [done|]. split; [done|].
  rewrite keyboardSelect_matchLog. cbv zeta. by rewrite E1, E2.
Qed.

Lemma activate_separated_target w evt h :
  Separated w →
  isActivation evt = true →
  bound (type evt) (currentTarget evt) w = [h] →
  h = HActivateDraggable ∨ h = HActivateTarget →
  currentTarget evt ∈ dd_targets w →
  let T := currentTarget evt in
  let w' := step w (Deliver evt) in
  let st' := if bool_decide (T ∈ _selectedTarget w) then [] else [T] in
  _selectedTarget w' = st'
  ∧ _selectedDraggable w' = _selectedDraggable w
  ∧ matchLog w'
    = matchLog w ++ (if nonEmpty (_selectedDraggable w) && nonEmpty st'
                     then [(Some (_selectedDraggable w), st')] else []).
Proof.
  intros Hc Ha Hb Hh Hd. cbv zeta. rewrite (step_activation w evt h) by done.
  destruct (toggle_separated_target w _ Hc Hd) as (E1 & E2).
  rewrite marked_selectedTarget in E1 by done.
  split; [done|]. split; [done|].
  rewrite keyboardSelect_matchLog. cbv zeta. by rewrite E1, E2.
Qed.

(** A click on a live draggable that is not selected, and one on a target
    that is not selected. *)
Lemma click_live_draggable w D :
  Separated w → live w D → D ∉ _selectedDraggable w →
  bound "click" D w = [HActivateDraggable] →
  let w' := step w (Deliver (click D)) in
  _selectedDraggable w' = [D]
  ∧ _selectedTarget w' = _selectedTarget w
  ∧ matchLog w'
    = matchLog w ++ (if nonEmpty (_selectedTarget w)
                     then [(Some [D], _selectedTarget w)] else []).
Proof.
  intros Hc Hd Hn Hb.
  destruct (activate_live_draggable w (click D) HActivateDraggable Hc eq_refl Hb
              (or_introl eq_refl) Hd) as (E1 & E2 & E3).
  cbn [currentTarget click] in *.
  rewrite (bool_decide_eq_false_2 _ Hn) in E1, E3.
  cbn [nonEmpty andb] in E3. exact (conj E1 (conj E2 E3)).
Qed.

Lemma click_separated_target w T :
  Separated w → T ∈ dd_targets w → T ∉ _selectedTarget w →
  bound "click" T w = [HActivateTarget] →
  let w' := step w (Deliver (click T)) in
  _selectedTarget w' = [T]
  ∧ _selectedDraggable w' = _selectedDraggable w
  ∧ matchLog w'
    = matchLog w ++ (if nonEmpty (_selectedDraggable w)
                     then [(Some (_selectedDraggable w), [T])] else []).
Proof.
  intros Hc Hd Hn Hb.
  destruct (activate_separated_target w (click T) HActivateTarget Hc eq_refl Hb
              (or_intror eq_refl) Hd) as (E1 & E2 & E3).
  cbn [currentTarget click] in *.
  rewrite (bool_decide_eq_false_2 _ Hn) in E1, E3.
  cbn [nonEmpty] in E3. rewrite andb_true_r in E3.
  exact (conj E1 (conj E2 E3)).
Qed.

(* ------------------------------------------------------------------------- *)
(** ** The callback on a page with single selections *)

(** With the two sets separated and at most one element of each selected, a
    toggle (click, or Enter or Space) of a target or of a live draggable
    calls the match callback once when afterwards exactly one draggable and
    exactly one target are selected, with that pair, and not at all
    otherwise; from an empty selection, draggable-then-target and
    target-then-draggable each give one call with the pair; and when a second
    element of a set is selected before the pair is complete, the one call
    names the second element, not the replaced one. *)
Lemma callback_on_single_selection (w : World) :
  Separated w →
  singleSelection w →
  (∀ evt h,
     isActivation evt = true →
     bound (type evt) (currentTarget evt) w = [h] →
     h = HActivateDraggable ∨ h = HActivateTarget →
     live w (currentTarget evt) ∨ currentTarget evt ∈ dd_targets w →
     let w' := step w (Deliver evt) in
     singleSelection w'
     ∧ matchLog w'
       = matchLog w ++ match _selectedDraggable w', _selectedTarget w' with
                       | [d], [t] => [(Some [d], [t])]
                       | _, _ => []
                       end)
  ∧ (∀ D T,
       _selectedDraggable w = [] → _selectedTarget w = [] →
       live w D → T ∈ dd_targets w →
       bound "click" D w = [HActivateDraggable] →
       bound "click" T w = [HActivateTarget] →
       matchLog (run [Deliver (click D); Deliver (click T)] w)
       = matchLog w ++ [(Some [D], [T])]
       ∧ matchLog (run [Deliver (click T); Deliver (click D)] w)
         = matchLog w ++ [(Some [D], [T])])
  ∧ (∀ D1 D2 T,
       _selectedDraggable w = [] → _selectedTarget w = [] →
       live w D1 → live w D2 → T ∈ dd_targets w → D1 ≠ D2 →
       bound "click" D1 w = [HActivateDraggable] →
       bound "click" D2 w = [HActivateDraggable] →
       bound "click" T w = [HActivateTarget] →
       matchLog (run [Deliver (click D1); Deliver (click D2); Deliver (click T)] w)
       = matchLog w ++ [(Some [D2], [T])])
  ∧ (∀ D T1 T2,
       _selectedDraggable w = [] → _selectedTarget w = [] →
       live w D → T1 ∈ dd_targets w → T2 ∈ dd_targets w → T1 ≠ T2 →
       bound "click" D w = [HActivateDraggable] →
       bound "click" T1 w = [HActivateTarget] →
       bound "click" T2 w = [HActivateTarget] →
       matchLog (run [Deliver (click T1); Deliver (click T2); Deliver (click D)] w)
       = matchLog w ++ [(Some [D], [T2])]).
Proof.
  intros Hc [Hsd Hst]. split; [|split; [|split]].
  - intros evt h Ha Hb Hh [Hd|Ht]; cbv zeta.
    + destruct (activate_live_draggable w evt h Hc Ha Hb Hh Hd) as (E1 & E2 & E3).
      unfold singleSelection. rewrite E1, E2, E3. split.
      * split; [case_bool_decide; cbn; lia|done].
      * f_equal. case_bool_decide; [done|].
        destruct (_selectedTarget w) as [|t [|t' st]]; cbn in *; try done; lia.
    + destruct (activate_separated_target w evt h Hc Ha Hb Hh Ht) as (E1 & E2 & E3).
      unfold singleSelection. rewrite E1, E2, E3. split.
      * split; [done|case_bool_decide; cbn; lia].
      * f_equal. case_bool_decide.
        -- destruct (_selectedDraggable w) as [|d [|d' sd]]; cbn in *; try done.
        -- destruct (_selectedDraggable w) as [|d [|d' sd]]; cbn in *; try done; lia.
  - intros D T ED ET HD HT BD BT. split.
    + destruct (click_live_draggable w D Hc HD) as (S1 & T1 & L1);
        [by rewrite ED; apply not_elem_of_nil|done|].
      pose proof (Separated_step w (Deliver (click D)) Hc) as C1.
      set (w1 := step w (Deliver (click D))) in *.
      destruct (sets_step_deliver (click D) w) as [Ed Et]. fold w1 in Ed, Et.
      destruct (click_separated_target w1 T C1) as (S2 & T2 & L2).
      { by rewrite Et. } { rewrite T1, ET. apply not_elem_of_nil. }
      { unfold w1. by rewrite bound_step_deliver. }
      change (run [Deliver (click D); Deliver (click T)] w) with (step w1 (Deliver (click T))).
      rewrite L2, S1, L1, ET. cbn. by rewrite app_nil_r.
    + destruct (click_separated_target w T Hc HT) as (S1 & T1 & L1);
        [by rewrite ET; apply not_elem_of_nil|done|].
      pose proof (Separated_step w (Deliver (click T)) Hc) as C1.
      pose proof (live_deliver (click T) w D HD) as HD1.
      set (w1 := step w (Deliver (click T))) in *.
      destruct (click_live_draggable w1 D C1 HD1) as (S2 & T2 & L2).
      { rewrite T1, ED. apply not_elem_of_nil. }
      { unfold w1. by rewrite bound_step_deliver. }
      change (run [Deliver (click T); Deliver (click D)] w) with (step w1 (Deliver (click D))).
      rewrite L2, S1, L1, ED. cbn. by rewrite app_nil_r.
  - intros D1 D2 T ED ET HD1 HD2 HT Hne B1 B2 BT.
    destruct (click_live_draggable w D1 Hc HD1) as (S1 & T1 & L1);
      [by rewrite ED; apply not_elem_of_nil|done|].
    pose proof (Separated_step w (Deliver (click D1)) Hc) as C1.
    pose proof (live_deliver (click D1) w D2 HD2) as HD2'.
    set (w1 := step w (Deliver (click D1))) in *.
    destruct (sets_step_deliver (click D1) w) as [Ed1 Et1]. fold w1 in Ed1, Et1.
    destruct (click_live_draggable w1 D2 C1 HD2') as (S2 & T2 & L2).
    { rewrite S1, list_elem_of_singleton. congruence. }
    { unfold w1. by rewrite bound_step_deliver. }
    pose proof (Separated_step w1 (Deliver (click D2)) C1) as C2.
    set (w2 := step w1 (Deliver (click D2))) in *.
    destruct (sets_step_deliver (click D2) w1) as [Ed2 Et2]. fold w2 in Ed2, Et2.
    destruct (click_separated_target w2 T C2) as (S3 & T3 & L3).
    { by rewrite Et2, Et1. }
    { rewrite T2, T1, ET. apply not_elem_of_nil. }
    { unfold w2, w1. by rewrite !bound_step_deliver. }
    change (run [Deliver (click D1); Deliver (click D2); Deliver (click T)] w)
      with (step w2 (Deliver (click T))).
    rewrite L3, S2, L2, T1, L1, ET. cbn. by rewrite !app_nil_r.
  - intros D T1 T2 ED ET HD HT1 HT2 Hne BD B1 B2.
    destruct (click_separated_target w T1 Hc HT1) as (S1 & D1 & L1);
      [by rewrite ET; apply not_elem_of_nil|done|].
    pose proof (Separated_step w (Deliver (click T1)) Hc) as C1.
    pose proof (live_deliver (click T1) w D HD) as HD'.
    set (w1 := step w (Deliver (click T1))) in *.
    destruct (sets_step_deliver (click T1) w) as [Ed1 Et1]. fold w1 in Ed1, Et1.
    destruct (click_separated_target w1 T2 C1) as (S2 & D2 & L2).
    { by rewrite Et1. }
    { rewrite S1, list_elem_of_singleton. congruence. }
    { unfold w1. by rewrite bound_step_deliver. }
    pose proof (Separated_step w1 (Deliver (click T2)) C1) as C2.
    pose proof (live_deliver (click T2) w1 D HD') as HD''.
    set (w2 := step w1 (Deliver (click T2))) in *.
    destruct (click_live_draggable w2 D C2 HD'') as (S3 & D3 & L3).
    { rewrite D2, D1, ED. apply not_elem_of_nil. }
    { unfold w2, w1. by rewrite !bound_step_deliver. }
    change (run [Deliver (click T1); Deliver (click T2); Deliver (click D)] w)
      with (step w2 (Deliver (click D))).
    rewrite L3, S2, L2, D1, L1, ED. cbn. by rewrite !app_nil_r.
Qed.

(* ------------------------------------------------------------------------- *)
(** ** Claims *)

(** C1 fails on the code: [cleanup] takes off the drag listeners and the
    click listeners only.  After it the keypress listeners of the elements
    and the keydown listener of the context are still bound, so Enter on
    draggable 1 marks it selected, Enter on 1 and Space on target 4 call the
    match callback, and the cancel key clears a selected target. *)
Theorem C1_keypress_and_cancel_key_survive_cleanup :
  let w := cleanup demo in
  (bound "keypress" 1 w = [HActivateDraggable]
   ∧ bound "keypress" 4 w = [HActivateTarget]
   ∧ bound "keydown" 0 w = [HEscape])
  ∧ (marked IS_SELECTED 1 w = false
     ∧ marked IS_SELECTED 1 (step w (Deliver (keypress 1 keyCodes.ENTER_KEY))) = true)
  ∧ matchLog (run [Deliver (keypress 1 keyCodes.ENTER_KEY);
                   Deliver (keypress 4 keyCodes.SPACE_BAR)] w)
    = [(Some [1], [4])]
  ∧ (let w1 := step w (Deliver (keypress 4 keyCodes.ENTER_KEY)) in
     marked IS_SELECTED 4 w1 = true
     ∧ marked IS_SELECTED 4 (step w1 (Deliver (keydown 0 keyCodes.ESCAPE))) = false).
Proof. repeat split; vm_compute; reflexivity. Qed.

(** C2, as the spec states it, fails: after [disableMatching] on draggable 2
    and target 5 the target is still focusable, and the keypress listeners of
    both elements are still bound. *)
Lemma C2_target_stays_focusable_keypress_stays_bound :
  let w' := disableMatching (Some [2]) (Some [5]) demo in
  attrOf "tabindex" 5 w' = Some "0"
  ∧ bound "keypress" 2 w' = [HActivateDraggable]
  ∧ bound "keypress" 5 w' = [HActivateTarget].
Proof. repeat split; vm_compute; reflexivity. Qed.

(** C2 (amended): [disableMatching] does nothing when either argument is
    absent.  With both present it removes the draggable, aria-grabbed and
    tabindex attributes from the draggable and aria-dropeffect from the
    target, whose tabindex stays; it takes the drag-gesture listeners and the
    click listeners off those two elements; every other element keeps its
    node as it was, no class changes anywhere, and a drag-start on another
    draggable followed by a drop on another target still calls the match
    callback with that pair. *)
Theorem C2_disableMatching_strips_the_pair_only (w : World) (ds ts : jQuery) :
  tidy w →
  let w' := disableMatching (Some ds) (Some ts) w in
  ((∀ t, disableMatching None t w = w) ∧ (∀ d, disableMatching d None w = w))
  ∧ (∀ d, d ∈ ds →
       attrOf "draggable" d w' = None ∧ attrOf "aria-grabbed" d w' = None
       ∧ attrOf "tabindex" d w' = None
       ∧ bound "dragstart" d w' = [] ∧ bound "dragend" d w' = []
       ∧ bound "click" d w' = [])
  ∧ (∀ t, t ∈ ts →
       attrOf "aria-dropeffect" t w' = None
       ∧ (t ∉ ds → attrOf "tabindex" t w' = attrOf "tabindex" t w)
       ∧ bound "dragenter" t w' = [] ∧ bound "dragleave" t w' = []
       ∧ bound "dragover" t w' = [] ∧ bound "drop" t w' = []
       ∧ bound "click" t w' = [])
  ∧ (∀ e, e ∉ ds → e ∉ ts → document w' e = document w e)
  ∧ (∀ c e, marked c e w' = marked c e w)
  ∧ (dd_draggables w' = dd_draggables w ∧ dd_targets w' = dd_targets w
     ∧ dd_dragElement w' = dd_dragElement w ∧ matchLog w' = matchLog w)
  ∧ (∀ D T, D ∉ ds → D ∉ ts → T ∉ ds → T ∉ ts →
       bound "dragstart" D w = [HDragStart] → bound "drop" T w = [HDrop] →
       matchLog (run [Deliver (dragstart D); Deliver (drop T)] w')
       = matchLog w ++ [(Some [D], [T])]).
Proof.
  intros Ht. cbv zeta.
  assert (Hframe : ∀ e, e ∉ ds → e ∉ ts →
            document (disableMatching (Some ds) (Some ts) w) e = document w e).
  { intros e H1 H2. rewrite disableMatching_document. by rewrite !each_notin. }
  destruct (disableMatching_fields (Some ds) (Some ts) w) as (F1 & F2 & F3 & F4 & F5 & F6 & F7).
  split; [by split; intros []|].
  split; [|split; [|split; [done|split; [done|split; [done|]]]]].
  - intros d Hd.
    unfold disableMatching, _removeDragEventHandlers, _removeKeyboardEventHandlers;
      cbv zeta. autorewrite with attrs bounds. settle.
    rewrite !(off_drag_nil _ d w (bound _ d w) Ht) by (rewrite ?elem_of_cons; tauto).
    repeat split; by case_bool_decide.
  - intros t Hin.
    unfold disableMatching, _removeDragEventHandlers, _removeKeyboardEventHandlers;
      cbv zeta. autorewrite with attrs bounds. settle.
    assert (R : ∀ ty, ty ∈ ["dragenter"; "dragleave"; "dragover"; "drop"] →
              filter (λ h, (ty, h) ∉ dropBindings)
                (if bool_decide (t ∈ ds)
                 then filter (λ h, (ty, h) ∉ dragBindings) (bound ty t w)
                 else bound ty t w) = []).
    { intros ty Hty. apply (off_drop_nil ty t w); [done|done|].
      intros h. case_bool_decide; [|done]. rewrite list_elem_of_filter. tauto. }
    rewrite !R by (rewrite ?elem_of_cons; tauto).
    repeat split; try done. intros Hn. by settle.
  - intros D T HD1 HD2 HT1 HT2 Bs Bd. rewrite dragstart_drop_log.
    + by rewrite F5.
    + unfold bound. by rewrite Hframe.
    + unfold bound. by rewrite Hframe.
Qed.

Lemma C2_witness :
  let w' := disableMatching (Some [2]) (Some [5]) demo in
  bound "dragstart" 2 w' = []
  ∧ matchLog (run [Deliver (dragstart 1); Deliver (drop 4)] w')
    = matchLog demo ++ [(Some [1], [4])].
Proof.
  pose proof (C2_disableMatching_strips_the_pair_only demo [2] [5] tidy_demo)
    as (_ & Hd & _ & _ & _ & _ & Hrest).
  split.
  - apply (Hd 2). apply list_elem_of_singleton; reflexivity.
  - apply Hrest; try (rewrite list_elem_of_singleton; discriminate);
      vm_compute; reflexivity.
Defined.

(** C3 fails on the code once a pair was disabled: with draggable 1 and
    target 4 selected, [disableMatching] on draggable 2 and target 5 leaves
    the keypress listener on 2 and strips its draggable attribute; Enter on 2
    then takes the target branch of the toggle, so the selected target is
    cleared and draggables 1 and 2 are both selected. *)
Theorem C3_disabled_draggable_joins_the_selection :
  let w := run [Deliver (click 1); Deliver (click 4);
                DisableMatching (Some [2]) (Some [5])] demo in
  let w' := step w (Deliver (keypress 2 keyCodes.ENTER_KEY)) in
  bound "keypress" 2 w = [HActivateDraggable]
  ∧ (_selectedDraggable w = [1] ∧ _selectedTarget w = [4])
  ∧ (_selectedDraggable w' = [1; 2] ∧ _selectedTarget w' = []).
Proof. repeat split; vm_compute; reflexivity. Qed.

(** C4, as the spec states it, fails: the callback is also called while more
    than one draggable is selected, and is then passed all of them.  On a
    page whose markup has draggables 1 and 3 selected, a click on target 4
    calls back with both; and after the steps that leave draggables 1 and 2
    selected on the small page, a click on target 6 calls back with both. *)
Lemma C4_callback_with_two_draggables_selected :
  (let w' := step (DragAndDrop [0] [1; 2; 3] [4; 5; 6] page13) (Deliver (click 4)) in
   _selectedDraggable w' = [1; 3] ∧ _selectedTarget w' = [4]
   ∧ matchLog w' = [(Some [1; 3], [4])])
  ∧ (let w := run [Deliver (click 1); Deliver (click 4);
                   DisableMatching (Some [2]) (Some [5]);
                   Deliver (keypress 2 keyCodes.ENTER_KEY)] demo in
     let w' := step w (Deliver (click 6)) in
     _selectedDraggable w' = [1; 2] ∧ _selectedTarget w' = [6]
     ∧ matchLog w' = matchLog w ++ [(Some [1; 2], [6])]).
Proof.
  cbv zeta. split; (split; [|split]); vm_compute; reflexivity.
Qed.

(** C4 (amended): after any selection toggle the match callback is called
    once when at least one draggable and at least one target are selected,
    with all the selected draggables and all the selected targets, and not at
    all otherwise; this holds for [_keyboardSelect] on any elements and so for
    every click and every Enter or Space key press that reaches one
    click/keypress closure.  On a page whose two sets are separated (each
    lists its elements once, they share none, no target has a truthy
    draggable attribute), with at most one element of each set selected, the
    toggle of a target or of a live draggable keeps at most one element of
    each set selected, so the call is made when exactly one draggable and
    exactly one target are selected, with that pair; from an empty selection,
    draggable-then-target and target-then-draggable each give one call with
    the pair; and when a second element of a set is selected before the pair
    is complete, the one call names the second element, not the replaced
    one. *)
Theorem C4_callback_iff_a_draggable_and_a_target_selected (w : World) :
  (∀ el,
     let w' := _keyboardSelect w el in
     matchLog w'
     = matchLog w
       ++ (if nonEmpty (_selectedDraggable w') && nonEmpty (_selectedTarget w')
           then [(Some (_selectedDraggable w'), _selectedTarget w')] else []))
  ∧ (∀ evt h,
       isActivation evt = true →
       bound (type evt) (currentTarget evt) w = [h] →
       h = HActivateDraggable ∨ h = HActivateTarget →
       let w' := step w (Deliver evt) in
       matchLog w'
       = matchLog w
         ++ (if nonEmpty (_selectedDraggable w') && nonEmpty (_selectedTarget w')
             then [(Some (_selectedDraggable w'), _selectedTarget w')] else []))
  ∧ (Separated w →
     singleSelection w →
     (∀ evt h,
        isActivation evt = true →
        bound (type evt) (currentTarget evt) w = [h] →
        h = HActivateDraggable ∨ h = HActivateTarget →
        live w (currentTarget evt) ∨ currentTarget evt ∈ dd_targets w →
        let w' := step w (Deliver evt) in
        singleSelection w'
        ∧ matchLog w'
          = matchLog w ++ match _selectedDraggable w', _selectedTarget w' with
                          | [d], [t] => [(Some [d], [t])]
                          | _, _ => []
                          end)
     ∧ (∀ D T,
          _selectedDraggable w = [] → _selectedTarget w = [] →
          live w D → T ∈ dd_targets w →
          bound "click" D w = [HActivateDraggable] →
          bound "click" T w = [HActivateTarget] →
          matchLog (run [Deliver (click D); Deliver (click T)] w)
          = matchLog w ++ [(Some [D], [T])]
          ∧ matchLog (run [Deliver (click T); Deliver (click D)] w)
            = matchLog w ++ [(Some [D], [T])])
     ∧ (∀ D1 D2 T,
          _selectedDraggable w = [] → _selectedTarget w = [] →
          live w D1 → live w D2 → T ∈ dd_targets w → D1 ≠ D2 →
          bound "click" D1 w = [HActivateDraggable] →
          bound "click" D2 w = [HActivateDraggable] →
          bound "click" T w = [HActivateTarget] →
          matchLog (run [Deliver (click D1); Deliver (click D2); Deliver (click T)] w)
          = matchLog w ++ [(Some [D2], [T])])
     ∧ (∀ D T1 T2,
          _selectedDraggable w = [] → _selectedTarget w = [] →
          live w D → T1 ∈ dd_targets w → T2 ∈ dd_targets w → T1 ≠ T2 →
          bound "click" D w = [HActivateDraggable] →
          bound "click" T1 w = [HActivateTarget] →
          bound "click" T2 w = [HActivateTarget] →
          matchLog (run [Deliver (click T1); Deliver (click T2); Deliver (click D)] w)
          = matchLog w ++ [(Some [D], [T2])])).
Proof.
  split; [|split].
  - intros el. apply keyboardSelect_matchLog.
  - intros evt h Ha Hb Hh. cbv zeta. rewrite (step_activation w evt h Ha Hb Hh).
    apply keyboardSelect_matchLog.
  - apply callback_on_single_selection.
Qed.

Lemma C4_witness :
  let w := step demo (DisableMatching (Some [2]) (Some [5])) in
  matchLog (run [Deliver (click 1); Deliver (click 4)] w)
  = matchLog w ++ [(Some [1], [4])]
  ∧ matchLog (run [Deliver (click 4); Deliver (click 1)] w)
    = matchLog w ++ [(Some [1], [4])].
Proof.
  intros w.
  assert (Hsep : Separated w).
  { apply Separated_step, (Classified_Separated demo Classified_demo). }
  assert (Hone : singleSelection w) by (split; vm_compute; lia).
  assert (Hlive : live w 1).
  { apply live_disableMatching; [|by_computing].
    apply (Classified_Separated demo Classified_demo). by_computing. }
  pose proof (C4_callback_iff_a_draggable_and_a_target_selected w) as (_ & _ & H).
  destruct (H Hsep Hone) as (_ & H2 & _).
  apply (H2 1 4); first [exact Hlive | by_computing | vm_compute; reflexivity].
Defined.

(** C5, as the spec states it, fails: after drag-start and drag-end of one
    gesture on draggable 1 the drag reference still holds that element. *)
Lemma C5_reference_survives_dragend :
  bound "dragend" 1 demo = [HDragEnd]
  ∧ dd_dragElement (run [Deliver (dragstart 1); Deliver (dragend 1)] demo) = Some [1].
Proof. split; vm_compute; reflexivity. Qed.

(** C5 (amended): the drag reference is undefined when the controller is
    constructed; a step changes it only when it delivers a drag-start to an
    element with a listener for it, and then sets it to that element; every
    other event, drag-end included, and both public operations leave it as it
    is, so after a gesture it still names the element dragged last. *)
Theorem C5_reference_set_on_dragstart_kept_afterwards
    (c ds ts : jQuery) (doc : Elem → Node) (w : World) (st : Step) (D : Elem) :
  tidy w →
  bound "dragstart" D w = [HDragStart] →
  dd_dragElement (DragAndDrop c ds ts doc) = None
  ∧ dd_dragElement (step w st)
    = match startsDrag w st with
      | Some d => Some [d]
      | None => dd_dragElement w
      end
  ∧ dd_dragElement (after (trigger (dragstart D) w)) = Some [D]
  ∧ dd_dragElement (run [Deliver (dragstart D); Deliver (dragend D)] w) = Some [D].
Proof.
  intros Ht HD. split; [reflexivity|]. split; [by apply dragElement_step|].
  assert (Hs : dd_dragElement (after (trigger (dragstart D) w)) = Some [D]).
  { change (dd_dragElement (step w (Deliver (dragstart D))) = Some [D]).
    rewrite dragElement_step by done. cbn. rewrite HD.
    by rewrite bool_decide_eq_true_2. }
  split; [done|]. cbn.
  change (dd_dragElement (step (after (trigger (dragstart D) w)) (Deliver (dragend D)))
          = Some [D]).
  rewrite dragElement_step by auto using tidy_trigger. by cbn.
Qed.

Lemma C5_witness :
  tidy demo
  ∧ bound "dragstart" 1 demo = [HDragStart]
  ∧ dd_dragElement (run [Deliver (dragstart 1); Deliver (dragend 1)] demo) = Some [1].
Proof.
  assert (Hb : bound "dragstart" 1 demo = [HDragStart]) by (vm_compute; reflexivity).
  split; [apply tidy_demo|]. split; [exact Hb|].
  exact (proj2 (proj2 (proj2
    (C5_reference_set_on_dragstart_kept_afterwards [0] [1; 2; 3] [4; 5; 6] page0
       demo (Deliver (dragend 1)) 1 tidy_demo Hb)))).
Defined.




(** C7: in one gesture, drag-start on D followed by a drop on T, with
    nothing in between but any number of drag-over events, calls the match
    callback exactly once, with D and T; and every one of those drag-over
    events has its default prevented, the later ones as much as the first. *)
Theorem C7_drop_calls_back_once_dragover_always_prevents
    (w : World) (D T : Elem) (overs : list Elem) :
  bound "dragstart" D w = [HDragStart] →
  bound "drop" T w = [HDrop] →
  (∀ t, t ∈ overs → bound "dragover" t w = [HDragOver]) →
  let w1 := step w (Deliver (dragstart D)) in
  let w2 := run (Deliver ∘ dragover <$> overs) w1 in
  matchLog (step w2 (Deliver (drop T))) = matchLog w ++ [(Some [D], [T])]
  ∧ length (outcomes (dragover <$> overs) w1) = length overs
  ∧ Forall (λ o, defaultPrevented o = true) (outcomes (dragover <$> overs) w1).
Proof.
  intros Hs Hd Ho. cbv zeta. cbn [step].
  rewrite (trigger_one HDragStart (dragstart D) w) by exact Hs.
  set (w1 := after (call HDragStart (dragstart D) w)).
  assert (B : ∀ ty e, bound ty e w1 = bound ty e w).
  { intros. unfold w1. rewrite <- (trigger_one HDragStart (dragstart D) w) by exact Hs.
    apply bound_trigger. }
  destruct (dragover_run overs w1) as (I1 & I2 & I3 & I4 & I5).
  { intros t Ht. rewrite B. by apply Ho. }
  split; [|split; [done|]].
  - rewrite (trigger_one HDrop) by (cbn [type currentTarget drop]; by rewrite I3, B).
    cbn [call]. rewrite (proj2 (handleDrop_effect _ _)), I1, I2.
    destruct (handleDragStart_effect (dragstart D) w) as (S1 & S2 & _).
    unfold w1. cbn [call]. by rewrite S1, S2.
  - eapply Forall_impl; [exact I5|]. by intros o [].
Qed.

Lemma C7_witness :
  let w1 := step demo (Deliver (dragstart 2)) in
  let w2 := run (Deliver ∘ dragover <$> [4; 5; 5; 5]) w1 in
  matchLog (step w2 (Deliver (drop 5))) = [(Some [2], [5])]
  ∧ Forall (λ o, defaultPrevented o = true) (outcomes (dragover <$> [4; 5; 5; 5]) w1).
Proof.
  assert (Hs : bound "dragstart" 2 demo = [HDragStart]) by (vm_compute; reflexivity).
  assert (Hd : bound "drop" 5 demo = [HDrop]) by (vm_compute; reflexivity).
  assert (Ho : ∀ t, t ∈ [4; 5; 5; 5] → bound "dragover" t demo = [HDragOver]).
  { intros t Ht. rewrite !elem_of_cons, elem_of_nil in Ht.
    destruct Ht as [->|[->|[->|[->|[]]]]]; vm_compute; reflexivity. }
  pose proof (C7_drop_calls_back_once_dragover_always_prevents demo 2 5 [4; 5; 5; 5]
                Hs Hd Ho) as (H1 & _ & H3).
  split; [exact H1|exact H3].
Defined.

(** C8: the cancel key calls [focus] on the selected draggables and never
    calls the match callback; a draggable that was selected is not selected
    afterwards, and when it was the one selected draggable it is the one
    element focused; with no draggable and no target selected nothing on the
    page changes and nothing is called. *)
Theorem C8_escape_deselects_draggable_and_refocuses (w : World) (c : Elem) :
  bound "keydown" c w = [HEscape] →
  let w' := step w (Deliver (keydown c keyCodes.ESCAPE)) in
  (focusLog w' = focusLog w ++ _selectedDraggable w ∧ matchLog w' = matchLog w)
  ∧ (∀ D, D ∈ dd_draggables w → marked IS_SELECTED D w = true →
          marked IS_SELECTED D w' = false ∧ D ∈ _selectedDraggable w)
  ∧ (∀ D, _selectedDraggable w = [D] →
          marked IS_SELECTED D w' = false ∧ focusLog w' = focusLog w ++ [D])
  ∧ (_selectedDraggable w = [] → _selectedTarget w = [] →
     (∀ e, document w' e = document w e)
     ∧ matchLog w' = matchLog w ∧ focusLog w' = focusLog w
     ∧ dd_dragElement w' = dd_dragElement w).
Proof.
  intros Hb. cbv zeta. cbn [step].
  rewrite (trigger_one HEscape) by exact Hb. cbn [call].
  destruct (escape_effect (keydown c keyCodes.ESCAPE) w eq_refl)
    as (E & _ & _ & F & M & S).
  assert (Hsel : ∀ D, D ∈ _selectedDraggable w →
                      marked IS_SELECTED D (after (escape (keydown c keyCodes.ESCAPE) w)) = false).
  { intros D HD. rewrite E. rewrite marked_focus, keyboardSelect_marked.
    rewrite bool_decide_eq_true_2 by done. rewrite bool_decide_eq_true_2 by done.
    apply negb_false_iff, hasClass_spec. exists D. split; [done|].
    by apply selected_filter in HD as [_ ?]. }
  split; [done|]. split; [|split].
  - intros D HD Hm. assert (D ∈ _selectedDraggable w) by (by apply selected_filter).
    split; [by apply Hsel|done].
  - intros D ED. split; [|by rewrite F, ED].
    apply Hsel. rewrite ED. by apply list_elem_of_singleton.
  - intros ED ET. split; [|split; [done|split; [by rewrite F, ED, app_nil_r|]]].
    + intros e. rewrite E, ED.
      change (document (focus [] (_keyboardSelect w [])) e)
        with (document (_keyboardSelect w []) e).
      rewrite keyboardSelect_nil_document. unfold jq.each.
      case_bool_decide as Hin; [|done].
      apply node_removeClass_absent. rewrite <- marked_spec.
      unfold _selectedTarget in ET. rewrite filterClass_nil in ET.
      by rewrite ET.
    + rewrite E, ED. apply keyboardSelect_frame.
Qed.

Lemma C8_witness :
  let w := run [Deliver (click 1)] demo in
  let w' := step w (Deliver (keydown 0 keyCodes.ESCAPE)) in
  bound "keydown" 0 w = [HEscape]
  ∧ _selectedDraggable w = [1]
  ∧ marked IS_SELECTED 1 w' = false
  ∧ focusLog w' = focusLog w ++ [1].
Proof.
  intros w w'.
  assert (Hb : bound "keydown" 0 w = [HEscape]) by (vm_compute; reflexivity).
  assert (Hs : _selectedDraggable w = [1]) by (vm_compute; reflexivity).
  split; [exact Hb|]. split; [exact Hs|].
  exact (proj1 (proj2 (proj2
    (C8_escape_deselects_draggable_and_refocuses w 0 Hb))) 1 Hs).
Defined.

(** C9: when the cancel key is pressed while no draggable is selected, the
    handler runs the selection toggle on the empty set; the attribute test on
    the empty set is falsy, so the target branch runs and every target loses
    its selected marker: a selected target is deselected, and the callback is
    not called. *)
Theorem C9_escape_clears_selected_target (w : World) (c T : Elem) :
  bound "keydown" c w = [HEscape] →
  _selectedDraggable w = [] →
  T ∈ dd_targets w →
  marked IS_SELECTED T w = true →
  let o := trigger (keydown c keyCodes.ESCAPE) w in
  after o = focus [] (_keyboardSelect w [])
  ∧ truthy (jq.getAttr "draggable" [] w) = false
  ∧ marked IS_SELECTED T (after o) = false
  ∧ _selectedTarget (after o) = []
  ∧ (∀ e, marked IS_SELECTED e (after o)
          = marked IS_SELECTED e w && negb (bool_decide (e ∈ dd_targets w)))
  ∧ matchLog (after o) = matchLog w.
Proof.
  intros Hb ED HT Hm. cbv zeta.
  rewrite (trigger_one HEscape) by exact Hb. cbn [call].
  destruct (escape_effect (keydown c keyCodes.ESCAPE) w eq_refl)
    as (E & _ & _ & _ & M & _).
  rewrite ED in E.
  assert (Hall : ∀ e, marked IS_SELECTED e (after (escape (keydown c keyCodes.ESCAPE) w))
                      = marked IS_SELECTED e w && negb (bool_decide (e ∈ dd_targets w))).
  { intros e. rewrite E, marked_focus, keyboardSelect_marked.
    rewrite bool_decide_eq_true_2 by done.
    rewrite (bool_decide_eq_false_2 (e ∈ [])) by apply not_elem_of_nil.
    done. }
  split; [done|]. split; [done|].
  split. { rewrite Hall, Hm. by settle. }
  split; [|done].
  unfold _selectedTarget. apply filterClass_nil. intros t Ht.
  rewrite Hall. rewrite (proj1 (proj2 (proj2 (call_frame HEscape _ w)))) in Ht.
  by settle.
Qed.

Lemma C9_witness :
  let w := run [Deliver (click 4)] demo in
  let w' := step w (Deliver (keydown 0 keyCodes.ESCAPE)) in
  (_selectedDraggable w = [] ∧ marked IS_SELECTED 4 w = true)
  ∧ marked IS_SELECTED 4 w' = false.
Proof.
  intros w w'.
  assert (Hb : bound "keydown" 0 w = [HEscape]) by (vm_compute; reflexivity).
  assert (Hs : _selectedDraggable w = []) by (vm_compute; reflexivity).
  assert (HT : 4 ∈ dd_targets w).
  { change (dd_targets w) with [4; 5; 6]. apply elem_of_cons; by left. }
  assert (Hm : marked IS_SELECTED 4 w = true) by (vm_compute; reflexivity).
  split; [by split|].
  exact (proj1 (proj2 (proj2 (C9_escape_clears_selected_target w 0 4 Hb Hs HT Hm)))).
Defined.

(** C10: a drop delivered on a target when no drag-start was ever delivered
    to the instance calls the match callback once, with an undefined
    draggable and that target; the handler does not test the drag
    reference. *)
Theorem C10_drop_without_dragstart_passes_undefined
    (c ds ts : jQuery) (doc : Elem → Node) (sts : list Step) (T : Elem) :
  let w := run sts (DragAndDrop c ds ts doc) in
  tidy_doc doc →
  Forall (λ st, isDragStart st = false) sts →
  bound "drop" T w = [HDrop] →
  dd_dragElement w = None
  ∧ thrown (trigger (drop T) w) = false
  ∧ matchLog (after (trigger (drop T) w)) = matchLog w ++ [(None, [T])].
Proof.
  intros w Hd Hs Hb.
  assert (E : dd_dragElement w = None).
  { unfold w. rewrite dragElement_run_no_dragstart; auto using tidy_DragAndDrop. }
  split; [done|]. rewrite (trigger_one HDrop) by done.
  cbn. by rewrite E.
Qed.

Lemma C10_witness :
  let sts := [Deliver (click 2); Deliver (dragover 4)] in
  Forall (λ st, isDragStart st = false) sts
  ∧ bound "drop" 4 (run sts demo) = [HDrop]
  ∧ matchLog (after (trigger (drop 4) (run sts demo)))
    = matchLog (run sts demo) ++ [(None, [4])].
Proof.
  intros sts.
  assert (Hs : Forall (λ st, isDragStart st = false) sts) by (repeat constructor).
  assert (Hb : bound "drop" 4 (run sts demo) = [HDrop]) by (vm_compute; reflexivity).
  split; [exact Hs|]. split; [exact Hb|].
  exact (proj2 (proj2
    (C10_drop_without_dragstart_passes_undefined [0] [1; 2; 3] [4; 5; 6] page0
       sts 4 tidy_page0 Hs Hb))).
Defined.

(* ------------------------------------------------------------------------- *)
(** ** Further properties of the controller *)

(** X1: [init] gives every draggable tabindex 0, draggable true and
    aria-grabbed false, every target tabindex 0 and aria-dropeffect move, the
    context the application role; it changes no attribute of any other
    element, no class, and none of the controller's fields. *)
Theorem X1_init_marks_up_the_elements (w : World) :
  let w' := init w in
  (∀ d, d ∈ dd_draggables w →
        attrOf "tabindex" d w' = Some "0" ∧ attrOf "draggable" d w' = Some "true"
        ∧ attrOf "aria-grabbed" d w' = Some "false")
  ∧ (∀ t, t ∈ dd_targets w →
          attrOf "tabindex" t w' = Some "0"
          ∧ attrOf "aria-dropeffect" t w' = Some "move")
  ∧ (∀ c, c ∈ dd_context w → attrOf "role" c w' = Some "application")
  ∧ (∀ k e, e ∉ dd_draggables w → e ∉ dd_targets w → e ∉ dd_context w →
            attrOf k e w' = attrOf k e w)
  ∧ (∀ c e, marked c e w' = marked c e w)
  ∧ (dd_context w' = dd_context w ∧ dd_draggables w' = dd_draggables w
     ∧ dd_targets w' = dd_targets w ∧ dd_dragElement w' = dd_dragElement w
     ∧ matchLog w' = matchLog w ∧ focusLog w' = focusLog w).
Proof.
  cbv zeta. split; [|split; [|split; [|split; [|split]]]].
  - intros d Hd. rewrite init_flat. autorewrite with attrs. settle.
    repeat case_bool_decide; done.
  - intros t Ht. rewrite init_flat. autorewrite with attrs. settle.
    repeat case_bool_decide; done.
  - intros c Hc. rewrite init_flat. autorewrite with attrs. settle.
    repeat case_bool_decide; done.
  - intros k e H1 H2 H3. rewrite init_flat. autorewrite with attrs. settle.
    repeat case_bool_decide; done.
  - intros. apply marked_init.
  - apply init_fields.
Qed.

Lemma listeners_on bs els w e :
  listeners (document (jq.on bs els w) e)
  = listeners (document w e) ++ (if bool_decide (e ∈ els) then bs else []).
Proof.
  unfold jq.on; cbn. unfold jq.each. case_bool_decide; cbn; [done|by rewrite app_nil_r].
Qed.

Lemma listeners_attr k v els w e :
  listeners (document (jq.attr k v els w) e) = listeners (document w e).
Proof. unfold jq.attr; cbn. by apply each_listeners. Qed.

(** Every listener [init] leaves on an element, after those it had. *)
Lemma init_listeners e w :
  listeners (document (init w) e)
  = listeners (document w e)
    ++ (if bool_decide (e ∈ dd_draggables w) then dragBindings else [])
    ++ (if bool_decide (e ∈ dd_targets w) then dropBindings else [])
    ++ (if bool_decide (e ∈ dd_draggables w)
        then [("click", HActivateDraggable); ("keypress", HActivateDraggable)] else [])
    ++ (if bool_decide (e ∈ dd_targets w)
        then [("click", HActivateTarget); ("keypress", HActivateTarget)] else [])
    ++ (if bool_decide (e ∈ dd_context w) then [("keydown", HEscape)] else []).
Proof.
  rewrite init_flat, !listeners_on, !listeners_attr. by rewrite <- !app_assoc.
Qed.

(** X2: on a page without listeners the constructor leaves exactly these
    listeners, in this order: on a draggable that is neither a target nor the
    context, the two drag functions and the activation closure for click and
    for keypress; on a target that is neither a draggable nor the context,
    the four drop functions and the activation closure for click and for
    keypress; on the context, the first element the context selector
    matches, the cancel closure for keydown; on every other element none.
    So each of these event types reaches the one function named, and no
    other event type reaches any. *)
Theorem X2_constructor_binds_these_listeners x c ds ts doc :
  (∀ e, listeners (doc e) = []) →
  let w := DragAndDrop (x :: c) ds ts doc in
  (∀ d, d ∈ ds → d ∉ ts → d ≠ x →
        listeners (document w d)
        = [("dragstart", HDragStart); ("dragend", HDragEnd);
           ("click", HActivateDraggable); ("keypress", HActivateDraggable)])
  ∧ (∀ t, t ∈ ts → t ∉ ds → t ≠ x →
          listeners (document w t)
          = [("dragenter", HDragEnter); ("dragleave", HDragLeave);
             ("dragover", HDragOver); ("drop", HDrop);
             ("click", HActivateTarget); ("keypress", HActivateTarget)])
  ∧ (x ∉ ds → x ∉ ts → listeners (document w x) = [("keydown", HEscape)])
  ∧ (∀ e, e ∉ ds → e ∉ ts → e ≠ x → listeners (document w e) = [])
  ∧ (∀ d, d ∈ ds → d ∉ ts → d ≠ x →
          bound "dragstart" d w = [HDragStart] ∧ bound "dragend" d w = [HDragEnd]
          ∧ bound "click" d w = [HActivateDraggable]
          ∧ bound "keypress" d w = [HActivateDraggable])
  ∧ (∀ t, t ∈ ts → t ∉ ds → t ≠ x →
          bound "dragenter" t w = [HDragEnter] ∧ bound "dragleave" t w = [HDragLeave]
          ∧ bound "dragover" t w = [HDragOver] ∧ bound "drop" t w = [HDrop]
          ∧ bound "click" t w = [HActivateTarget]
          ∧ bound "keypress" t w = [HActivateTarget])
  ∧ (x ∉ ds → x ∉ ts → bound "keydown" x w = [HEscape]).
Proof.
  intros Hl. cbv zeta. unfold DragAndDrop.
  match goal with |- context [init ?x] => set (w0 := x) end.
  assert (L0 : ∀ e, listeners (document w0 e) = []).
  { intros. change (document w0 e) with (doc e). apply Hl. }
  assert (Ed : dd_draggables w0 = ds) by reflexivity.
  assert (Et : dd_targets w0 = ts) by reflexivity.
  assert (Ec : ∀ e, e ∈ dd_context w0 ↔ e = x).
  { intros e. change (dd_context w0) with [x]. apply list_elem_of_singleton. }
  clearbody w0.
  assert (Ld : ∀ d, d ∈ ds → d ∉ ts → d ≠ x →
             listeners (document (init w0) d)
             = [("dragstart", HDragStart); ("dragend", HDragEnd);
                ("click", HActivateDraggable); ("keypress", HActivateDraggable)]).
  { intros d H1 H2 H3. rewrite init_listeners, L0, Ed, Et.
    assert (d ∉ dd_context w0) by (by rewrite Ec). settle. reflexivity. }
  assert (Lt : ∀ t, t ∈ ts → t ∉ ds → t ≠ x →
             listeners (document (init w0) t)
             = [("dragenter", HDragEnter); ("dragleave", HDragLeave);
                ("dragover", HDragOver); ("drop", HDrop);
                ("click", HActivateTarget); ("keypress", HActivateTarget)]).
  { intros t H1 H2 H3. rewrite init_listeners, L0, Ed, Et.
    assert (t ∉ dd_context w0) by (by rewrite Ec). settle. reflexivity. }
  assert (Lx : x ∉ ds → x ∉ ts → listeners (document (init w0) x) = [("keydown", HEscape)]).
  { intros H1 H2. rewrite init_listeners, L0, Ed, Et.
    assert (x ∈ dd_context w0) by (by rewrite Ec). settle. reflexivity. }
  split; [exact Ld|]. split; [exact Lt|]. split; [exact Lx|]. split.
  { intros e H1 H2 H3. rewrite init_listeners, L0, Ed, Et.
    assert (e ∉ dd_context w0) by (by rewrite Ec). settle. reflexivity. }
  split; [|split].
  - intros d H1 H2 H3. unfold bound, handlersFor. rewrite (Ld d H1 H2 H3).
    repeat split; vm_compute; reflexivity.
  - intros t H1 H2 H3. unfold bound, handlersFor. rewrite (Lt t H1 H2 H3).
    repeat split; vm_compute; reflexivity.
  - intros H1 H2. unfold bound, handlersFor. rewrite (Lx H1 H2).
    vm_compute; reflexivity.
Qed.

Lemma X2_witness :
  listeners (document demo 1)
  = [("dragstart", HDragStart); ("dragend", HDragEnd);
     ("click", HActivateDraggable); ("keypress", HActivateDraggable)]
  ∧ listeners (document demo 7) = []
  ∧ bound "keypress" 5 demo = [HActivateTarget]
  ∧ bound "keydown" 0 demo = [HEscape].
Proof.
  pose proof (X2_constructor_binds_these_listeners 0 [] [1; 2; 3] [4; 5; 6] page0
                (λ _, eq_refl)) as (Hd & _ & _ & He & _ & Ht & Hc).
  split; [|split; [|split]].
  - apply (Hd 1); by_computing.
  - apply (He 7); by_computing.
  - apply (Ht 5); by_computing.
  - apply Hc; by_computing.
Defined.

Lemma trigger_bound evt w hs :
  bound (type evt) (currentTarget evt) w = hs → trigger evt w = dispatch hs evt w.
Proof. unfold trigger, bound. by intros ->. Qed.

Lemma Classified_init w : Classified w → Classified (init w).
Proof.
  intros Hc. destruct (init_fields w) as (_ & Ed & Et & _).
  split; rewrite ?Ed, ?Et; try apply Hc.
  - intros d Hd. rewrite init_draggable_attr. by settle.
  - intros t Hin. rewrite init_draggable_attr.
    assert (t ∉ dd_draggables w) by (intros ?; by eapply Classified_disjoint).
    settle. by apply Hc.
Qed.

Lemma selected_init w :
  _selectedDraggable (init w) = _selectedDraggable w
  ∧ _selectedTarget (init w) = _selectedTarget w.
Proof.
  destruct (init_fields w) as (_ & Ed & Et & _).
  unfold _selectedDraggable, _selectedTarget. rewrite Ed, Et.
  split; apply filterClass_ext; intros; apply marked_init.
Qed.

(** X3: [init] adds its listeners to those already bound.  Called a second
    time on a classified page, it leaves two copies of the activation
    closure on a draggable, so one click toggles twice: the draggable's
    selected marker ends as it was, and when the draggable was unselected
    while one target was selected the callback is still called once with
    that pair, although no draggable is selected afterwards. *)
Theorem X3_a_second_init_doubles_the_listeners (w : World) (D : Elem) :
  Classified w →
  D ∈ dd_draggables w → D ∉ dd_context w →
  bound "click" D w = [HActivateDraggable] →
  let w' := init w in
  let w2 := step w' (Deliver (click D)) in
  bound "click" D w' = [HActivateDraggable; HActivateDraggable]
  ∧ w2 = _keyboardSelect (_keyboardSelect w' [D]) [D]
  ∧ marked IS_SELECTED D w2 = marked IS_SELECTED D w
  ∧ (∀ T, D ∉ _selectedDraggable w → _selectedTarget w = [T] →
          matchLog w2 = matchLog w ++ [(Some [D], [T])]
          ∧ _selectedDraggable w2 = [] ∧ _selectedTarget w2 = [T]).
Proof.
  intros Hc Hd Hx Hb. cbv zeta.
  assert (Hnt : D ∉ dd_targets w) by (intros ?; by eapply Classified_disjoint).
  assert (B : bound "click" D (init w) = [HActivateDraggable; HActivateDraggable]).
  { rewrite init_bound, Hb. settle. by cbn. }
  assert (E : step (init w) (Deliver (click D))
              = _keyboardSelect (_keyboardSelect (init w) [D]) [D]).
  { revert B. generalize (init w). intros v Bv.
    cbn [step]. by rewrite (trigger_bound (click D) v _ Bv). }
  destruct (init_fields w) as (_ & Ed & Et & _ & Lw & _).
  destruct (selected_init w) as [Sd St].
  pose proof (Classified_init w Hc) as Hc'.
  assert (Hd' : D ∈ dd_draggables (init w)) by (by rewrite Ed).
  destruct (toggle_draggable (init w) D Hc' Hd') as [S1 T1].
  pose proof (keyboardSelect_matchLog (init w) [D]) as L1. cbv zeta in L1.
  pose proof (Classified_keyboardSelect (init w) [D] Hc') as Hc1.
  set (w1 := _keyboardSelect (init w) [D]) in *.
  assert (Hd1 : D ∈ dd_draggables w1).
  { unfold w1. by rewrite (proj1 (proj2 (keyboardSelect_frame _ _))). }
  destruct (toggle_draggable w1 D Hc1 Hd1) as [S2 T2].
  pose proof (keyboardSelect_matchLog w1 [D]) as L2. cbv zeta in L2.
  rewrite marked_init in S1.
  rewrite (marked_selectedDraggable w1 D Hd1), S1 in S2.
  split; [exact B|]. split; [exact E|]. rewrite E. split.
  - rewrite (marked_selectedDraggable _ D)
      by (by rewrite (proj1 (proj2 (keyboardSelect_frame _ _)))).
    rewrite S2. destruct (marked IS_SELECTED D w).
    + rewrite (bool_decide_eq_false_2 (D ∈ [])) by apply not_elem_of_nil.
      apply bool_decide_eq_true_2. by apply list_elem_of_singleton.
    + rewrite (bool_decide_eq_true_2 (D ∈ [D])) by (by apply list_elem_of_singleton).
      apply bool_decide_eq_false_2. apply not_elem_of_nil.
  - intros T Hn HT.
    assert (Hm : marked IS_SELECTED D w = false).
    { rewrite (marked_selectedDraggable w D Hd). by apply bool_decide_eq_false_2. }
    rewrite Hm in S1, S2.
    rewrite (bool_decide_eq_true_2 (D ∈ [D])) in S2 by (by apply list_elem_of_singleton).
    rewrite S1, T1, St, HT in L1. cbn [nonEmpty andb] in L1.
    rewrite S2, T2, T1, St, HT in L2. cbn [nonEmpty andb] in L2.
    rewrite L2, app_nil_r, L1, Lw, S2, T2, T1, St, HT. done.
Qed.

Lemma X3_witness :
  let w' := init demo in
  let w2 := step w' (Deliver (click 1)) in
  bound "click" 1 w' = [HActivateDraggable; HActivateDraggable]
  ∧ marked IS_SELECTED 1 w2 = marked IS_SELECTED 1 demo.
Proof.
  intros w' w2.
  assert (Hb : bound "click" 1 demo = [HActivateDraggable])
    by (vm_compute; reflexivity).
  assert (Hd : 1 ∈ dd_draggables demo) by by_computing.
  assert (Hx : 1 ∉ dd_context demo) by by_computing.
  pose proof (X3_a_second_init_doubles_the_listeners demo 1 Classified_demo Hd Hx Hb)
    as (H1 & _ & H3 & _).
  split; [exact H1|exact H3].
Defined.

(** X4: [cleanup] removes draggable and tabindex from the draggables and
    tabindex from the targets and no other attribute and no class: the
    aria-grabbed, aria-dropeffect and role values that [init] wrote are still
    there after it. *)
Theorem X4_cleanup_removes_two_attributes (w : World) :
  let w' := cleanup w in
  (∀ d, d ∈ dd_draggables w →
        attrOf "draggable" d w' = None ∧ attrOf "tabindex" d w' = None)
  ∧ (∀ t, t ∈ dd_targets w → attrOf "tabindex" t w' = None)
  ∧ (∀ k e, k ≠ "draggable" → k ≠ "tabindex" → attrOf k e w' = attrOf k e w)
  ∧ (∀ k e, e ∉ dd_draggables w → e ∉ dd_targets w → attrOf k e w' = attrOf k e w)
  ∧ (∀ c e, marked c e w' = marked c e w)
  ∧ (∀ d, d ∈ dd_draggables w →
          attrOf "aria-grabbed" d (cleanup (init w)) = Some "false")
  ∧ (∀ t, t ∈ dd_targets w →
          attrOf "aria-dropeffect" t (cleanup (init w)) = Some "move")
  ∧ (∀ c, c ∈ dd_context w → attrOf "role" c (cleanup (init w)) = Some "application").
Proof.
  cbv zeta.
  assert (F : ∀ k e u, k ≠ "draggable" → k ≠ "tabindex" →
                       attrOf k e (cleanup u) = attrOf k e u).
  { intros k e u H1 H2. rewrite cleanup_flat. autorewrite with attrs. settle.
    repeat case_bool_decide; done. }
  split; [|split; [|split; [|split; [|split; [|split; [|split]]]]]].
  - intros d Hd. rewrite cleanup_flat. autorewrite with attrs. settle.
    repeat case_bool_decide; done.
  - intros t Ht. rewrite cleanup_flat. autorewrite with attrs. settle.
    repeat case_bool_decide; done.
  - intros. by apply F.
  - intros k e H1 H2. rewrite cleanup_flat. autorewrite with attrs. settle.
    repeat case_bool_decide; done.
  - intros. rewrite cleanup_flat. by autorewrite with marks.
  - intros d Hd. rewrite F by done. rewrite init_flat. autorewrite with attrs. settle.
    repeat case_bool_decide; done.
  - intros d Hd. rewrite F by done. rewrite init_flat. autorewrite with attrs. settle.
    repeat case_bool_decide; done.
  - intros d Hd. rewrite F by done. rewrite init_flat. autorewrite with attrs. settle.
    repeat case_bool_decide; done.
Qed.

(** X5: after [cleanup], any sequence of drag-start, drag-end and click
    events on the draggables and of drag-enter, drag-leave, drag-over, drop
    and click events on the targets reaches no listener: the state stays as
    [cleanup] left it, no default is prevented and nothing is thrown. *)
Theorem X5_drag_and_click_events_do_nothing_after_cleanup
    (w : World) (evts : list Event) :
  tidy w →
  Forall (λ evt,
            (currentTarget evt ∈ dd_draggables w
             ∧ type evt ∈ ["dragstart"; "dragend"; "click"])
            ∨ (currentTarget evt ∈ dd_targets w
               ∧ type evt ∈ ["dragenter"; "dragleave"; "dragover"; "drop"; "click"]))
         evts →
  run (Deliver <$> evts) (cleanup w) = cleanup w
  ∧ Forall (λ o, defaultPrevented o = false ∧ propagationStopped o = false
                 ∧ thrown o = false)
      (outcomes evts (cleanup w)).
Proof.
  intros Ht Hs. induction Hs as [|evt evts He Hs [IH1 IH2]]; [by split|].
  pose proof (cleanup_silences_drag_and_click w evt Ht He) as E.
  rewrite fmap_cons, run_cons. cbn [step outcomes]. rewrite E. fields.
  split; [exact IH1|]. apply Forall_cons. by split.
Qed.

Lemma X5_witness :
  run (Deliver <$> [dragstart 1; drop 4; click 2; click 5; dragend 1]) (cleanup demo)
  = cleanup demo.
Proof.
  refine (proj1 (X5_drag_and_click_events_do_nothing_after_cleanup demo
                   [dragstart 1; drop 4; click 2; click 5; dragend 1] tidy_demo _)).
  repeat (apply Forall_cons; split; [|]); try (apply Forall_nil; exact I);
    cbn [currentTarget type dragstart dragend drop click];
    first [ left; split; by_computing | right; split; by_computing ].
Defined.

(** X6: on a page that lists each draggable and each target once, whose
    targets are not draggables and carry no truthy draggable attribute, and
    where nothing is selected, the constructor followed by any sequence of
    input events leaves at most one draggable and at most one target
    selected, and the draggable attribute still tells the two sets apart. *)
Theorem X6_one_selection_per_set_under_all_events
    (c ds ts : jQuery) (doc : Elem → Node) (evts : list Event) :
  NoDup ds → NoDup ts →
  (∀ t, t ∈ ts → (t ∉ ds) ∧ truthy (attributes (doc t) !! "draggable") = false) →
  (∀ e, IS_SELECTED ∉ classList (doc e)) →
  let w := run (Deliver <$> evts) (DragAndDrop c ds ts doc) in
  singleSelection w ∧ Classified w.
Proof.
  intros Hd Ht Hts Hsel. cbv zeta.
  destruct (selection_run evts (DragAndDrop c ds ts doc)) as [H1 H2].
  - by apply Classified_DragAndDrop.
  - by apply singleSelection_DragAndDrop.
  - by split.
Qed.

Lemma X6_witness :
  singleSelection
    (run (Deliver <$> [click 1; click 2; keypress 4 13; keydown 0 27; click 5;
                       dragstart 3; drop 6; click 3])
       demo).
Proof.
  refine (proj1 (X6_one_selection_per_set_under_all_events [0] [1; 2; 3] [4; 5; 6]
                   page0 _ _ _ _ _)).
  - by_computing.
  - by_computing.
  - intros t Ht. split; [|reflexivity]. rewrite !elem_of_cons, elem_of_nil in *. lia.
  - intros e. apply not_elem_of_empty.
Defined.

Lemma call_thrown h evt w :
  thrown (call h evt w) = true ↔ h = HDragEnd ∧ dd_dragElement w = None.
Proof.
  destruct h; cbn [call];
    unfold _handleDragStart, _handleDragEnd, _handleDragEnter, _handleDragLeave,
      _handleDragOver, _handleDrop, activation, escape; cbv zeta;
    try (destruct (dd_dragElement w) eqn:E);
    try match goal with |- context [if ?b then _ else _] => destruct b end;
    fields; split; try done; by intros [? ?].
Qed.

Lemma dispatch_not_thrown hs evt w :
  Forall (λ h, h ≠ HDragEnd) hs → thrown (dispatch hs evt w) = false.
Proof.
  intros Hs. revert w. induction Hs as [|h hs Hh Hs IH]; intros w; [done|].
  cbn [dispatch]. destruct (thrown (call h evt w)) eqn:E.
  - apply call_thrown in E as [? _]. done.
  - fields. apply IH.
Qed.

Lemma dispatch_dragend_some hs evt w d :
  Forall (λ h, h = HDragEnd) hs → dd_dragElement w = Some d →
  thrown (dispatch hs evt w) = false.
Proof.
  intros Hs. revert w. induction Hs as [|h hs -> Hs IH]; intros w E; [done|].
  cbn [dispatch call]. destruct (handleDragEnd_effect evt w d E) as (T & R & _).
  rewrite T. fields. by apply IH.
Qed.

(** With a callback that returns and tidy bindings, the only event that
    makes a listener throw is a drag-end that reaches a listener while the
    drag reference is still undefined (no drag-start was handled before); the
    state is then left exactly as it was. *)
Lemma trigger_thrown (w : World) (evt : Event) :
  tidy w →
  (thrown (trigger evt w) = true
   ↔ type evt = "dragend" ∧ bound "dragend" (currentTarget evt) w ≠ []
     ∧ dd_dragElement w = None)
  ∧ (thrown (trigger evt w) = true → after (trigger evt w) = w).
Proof.
  intros Ht. unfold trigger. fold (bound (type evt) (currentTarget evt) w).
  pose proof (λ h, bound_handles (type evt) (currentTarget evt) w h Ht) as Hh.
  destruct (decide (type evt = "dragend")) as [Ety|Ety].
  - rewrite Ety in *.
    assert (Hall : Forall (λ h, h = HDragEnd) (bound "dragend" (currentTarget evt) w)).
    { apply Forall_forall. intros h Hin. specialize (Hh h Hin).
      destruct h; cbn in Hh; try done; destruct Hh; done. }
    destruct (dd_dragElement w) as [d|] eqn:E.
    + rewrite (dispatch_dragend_some _ _ _ d Hall E). split; [|done].
      split; [done|]. by intros (_ & _ & ?).
    + destruct (bound "dragend" (currentTarget evt) w) as [|h hs]; [by split; [split; [|intros (_ & ? & _)]|]|].
      inversion Hall; subst. cbn [dispatch call]. unfold _handleDragEnd. rewrite E.
      fields. split; [|done]. split; [done|]. done.
  - rewrite dispatch_not_thrown.
    + split; [|done]. split; [done|]. by intros (? & _).
    + apply Forall_forall. intros h Hin ->. specialize (Hh _ Hin). by cbn in Hh.
Qed.

Lemma step_dragstart w D :
  bound "dragstart" D w = [HDragStart] →
  step w (Deliver (dragstart D)) = after (_handleDragStart (dragstart D) w).
Proof. intros H. cbn [step]. by rewrite (trigger_one HDragStart). Qed.

Lemma step_dragend w D :
  bound "dragend" D w = [HDragEnd] →
  step w (Deliver (dragend D)) = after (_handleDragEnd (dragend D) w).
Proof. intros H. cbn [step]. by rewrite (trigger_one HDragEnd). Qed.

Lemma step_drop w T :
  bound "drop" T w = [HDrop] →
  step w (Deliver (drop T)) = after (_handleDrop (drop T) w).
Proof. intros H. cbn [step]. by rewrite (trigger_one HDrop). Qed.

Lemma handleDragStart_attr evt w k e :
  attrOf k e (after (_handleDragStart evt w))
  = if bool_decide (k = "aria-grabbed") && bool_decide (e = currentTarget evt)
    then Some "true"
    else if bool_decide (k = "aria-dropeffect") && bool_decide (e ∈ dd_targets w)
         then Some "move" else attrOf k e w.
Proof.
  unfold _handleDragStart; cbv zeta; fields. autorewrite with attrs. world_fields.
  rewrite (bool_decide_ext (e ∈ [currentTarget evt]) (e = currentTarget evt))
    by apply list_elem_of_singleton.
  done.
Qed.

Lemma handleDrop_marked evt w c e :
  marked c e (after (_handleDrop evt w))
  = marked c e w
    && negb (bool_decide (c = IS_HOVERED) && bool_decide (e = currentTarget evt)).
Proof.
  unfold _handleDrop; cbv zeta; fields. autorewrite with marks.
  rewrite (bool_decide_ext (e ∈ [currentTarget evt]) (e = currentTarget evt))
    by apply list_elem_of_singleton.
  done.
Qed.

(** X8: the drag reference outlives the gesture, so a drop that is delivered
    on a target after drag-start and drag-end on D, with no new drag-start,
    still calls the match callback with D. *)
Theorem X8_drop_after_the_gesture_passes_the_last_dragged (w : World) (D T : Elem) :
  bound "dragstart" D w = [HDragStart] →
  bound "dragend" D w = [HDragEnd] →
  bound "drop" T w = [HDrop] →
  matchLog (run [Deliver (dragstart D); Deliver (dragend D); Deliver (drop T)] w)
  = matchLog w ++ [(Some [D], [T])].
Proof.
  intros Hs He Hd.
  change (run _ w)
    with (step (step (step w (Deliver (dragstart D))) (Deliver (dragend D)))
            (Deliver (drop T))).
  rewrite (step_dragstart w D Hs).
  destruct (handleDragStart_effect (dragstart D) w) as (S1 & S2 & _).
  set (w1 := after (_handleDragStart (dragstart D) w)) in *.
  assert (B1 : ∀ ty e, bound ty e w1 = bound ty e w).
  { intros. unfold w1. rewrite <- (step_dragstart w D Hs). apply bound_step_deliver. }
  rewrite (step_dragend w1 D) by (by rewrite B1).
  destruct (handleDragEnd_effect (dragend D) w1 _ S1) as (_ & R1 & R2 & _).
  set (w2 := after (_handleDragEnd (dragend D) w1)) in *.
  assert (B2 : ∀ ty e, bound ty e w2 = bound ty e w).
  { intros. unfold w2. rewrite <- (step_dragend w1 D) by (by rewrite B1).
    by rewrite bound_step_deliver. }
  rewrite (step_drop w2 T) by (by rewrite B2).
  rewrite (proj2 (handleDrop_effect (drop T) w2)), R1, R2, S2. done.
Qed.

Lemma X8_witness :
  matchLog (run [Deliver (dragstart 1); Deliver (dragend 1); Deliver (drop 4)] demo)
  = matchLog demo ++ [(Some [1], [4])].
Proof.
  apply (X8_drop_after_the_gesture_passes_the_last_dragged demo 1 4);
    vm_compute; reflexivity.
Defined.

Lemma disableMatching_detaches_drag ds ts w d ty :
  tidy w → d ∈ ds → ty ∈ ["dragstart"; "dragend"] →
  bound ty d (disableMatching (Some ds) (Some ts) w) = [].
Proof.
  intros Ht Hd Hty.
  unfold disableMatching, _removeDragEventHandlers, _removeKeyboardEventHandlers;
    cbv zeta. autorewrite with bounds.
  assert (Hne : ty ≠ "click").
  { rewrite !elem_of_cons, elem_of_nil in Hty. by destruct Hty as [->|[->|[]]]. }
  settle. rewrite (off_drag_nil ty d w (bound ty d w) Ht) by done.
  by case_bool_decide.
Qed.

Lemma disableMatching_attr ds ts w k e :
  attrOf k e (disableMatching (Some ds) (Some ts) w)
  = if bool_decide (k = "aria-dropeffect") && bool_decide (e ∈ ts) then None
    else if bool_decide (k = "tabindex") && bool_decide (e ∈ ds) then None
    else if bool_decide (k = "aria-grabbed") && bool_decide (e ∈ ds) then None
    else if bool_decide (k = "draggable") && bool_decide (e ∈ ds) then None
    else attrOf k e w.
Proof.
  unfold disableMatching, _removeDragEventHandlers, _removeKeyboardEventHandlers;
    cbv zeta. by autorewrite with attrs.
Qed.

(** X9: when the matched pair is disabled between the drop and the drag-end
    of its gesture (what a callback that disables on success does), the
    drag-end reaches no listener: the dragged element keeps its moving
    marker and every target keeps its available marker. *)
Theorem X9_disabling_before_dragend_leaves_the_gesture_markers
    (w : World) (D T : Elem) :
  tidy w →
  bound "dragstart" D w = [HDragStart] →
  bound "drop" T w = [HDrop] →
  let w3 := run [Deliver (dragstart D); Deliver (drop T);
                 DisableMatching (Some [D]) (Some [T])] w in
  let w4 := step w3 (Deliver (dragend D)) in
  matchLog w3 = matchLog w ++ [(Some [D], [T])]
  ∧ trigger (dragend D) w3 = returns w3 false false
  ∧ marked IS_MOVING D w4 = true
  ∧ (∀ t, t ∈ dd_targets w → marked IS_AVAILABLE_TARGET t w4 = true)
  ∧ attrOf "aria-grabbed" D w4 = None.
Proof.
  intros Ht Hs Hd. cbv zeta.
  change (run _ w)
    with (disableMatching (Some [D]) (Some [T])
            (step (step w (Deliver (dragstart D))) (Deliver (drop T)))).
  rewrite (step_dragstart w D Hs).
  destruct (handleDragStart_effect (dragstart D) w) as (S1 & S2 & S3).
  assert (Ht1 : tidy (after (_handleDragStart (dragstart D) w))).
  { rewrite <- (step_dragstart w D Hs). by apply tidy_step. }
  assert (B1 : ∀ ty e, bound ty e (after (_handleDragStart (dragstart D) w))
                       = bound ty e w).
  { intros. rewrite <- (step_dragstart w D Hs). apply bound_step_deliver. }
  set (w1 := after (_handleDragStart (dragstart D) w)) in *.
  assert (Hd1 : bound "drop" T w1 = [HDrop]) by (by rewrite B1).
  assert (Ht2 : tidy (step w1 (Deliver (drop T)))) by (by apply tidy_step).
  rewrite (step_drop w1 T Hd1) in *.
  set (w2 := after (_handleDrop (drop T) w1)) in *.
  destruct (disableMatching_fields (Some [D]) (Some [T]) w2)
    as (_ & _ & _ & _ & F5 & _ & F7).
  set (w3 := disableMatching (Some [D]) (Some [T]) w2) in *.
  assert (E : trigger (dragend D) w3 = returns w3 false false).
  { apply trigger_none. cbn [type currentTarget dragend]. unfold w3.
    apply disableMatching_detaches_drag; [done|by apply list_elem_of_singleton|].
    rewrite !elem_of_cons. tauto. }
  cbn [step]. rewrite E. fields.
  split; [|split; [done|split; [|split]]].
  - rewrite F5. unfold w2. rewrite (proj2 (handleDrop_effect _ _)). by rewrite S1, S2.
  - rewrite F7. unfold w2. rewrite handleDrop_marked, S3. by settle.
  - intros t Hin. rewrite F7. unfold w2. rewrite handleDrop_marked, S3. by settle.
  - unfold w3. rewrite disableMatching_attr.
    assert (D ∈ [D]) by (by apply list_elem_of_singleton). settle.
    by repeat case_bool_decide.
Qed.

Lemma X9_witness :
  let w4 := run [Deliver (dragstart 1); Deliver (drop 4);
                 DisableMatching (Some [1]) (Some [4]); Deliver (dragend 1)] demo in
  marked IS_MOVING 1 w4 = true ∧ marked IS_AVAILABLE_TARGET 5 w4 = true.
Proof.
  pose proof (X9_disabling_before_dragend_leaves_the_gesture_markers demo 1 4
                tidy_demo) as H.
  destruct H as (_ & _ & H3 & H4 & _); [vm_compute; reflexivity..|].
  split; [exact H3|]. apply H4. by_computing.
Defined.

(** X10: a target that [disableMatching] stripped of aria-dropeffect is
    still in the controller's target set, so the next drag-start that is
    handled writes aria-dropeffect move on it again and marks it available. *)
Theorem X10_next_dragstart_advertises_a_disabled_target_again
    (w : World) (ds ts : jQuery) (D T : Elem) :
  let w1 := disableMatching (Some ds) (Some ts) w in
  T ∈ ts → T ∈ dd_targets w →
  bound "dragstart" D w1 = [HDragStart] →
  attrOf "aria-dropeffect" T w1 = None
  ∧ attrOf "aria-dropeffect" T (step w1 (Deliver (dragstart D))) = Some "move"
  ∧ marked IS_AVAILABLE_TARGET T (step w1 (Deliver (dragstart D))) = true.
Proof.
  cbv zeta. intros HT Hin Hs.
  destruct (disableMatching_fields (Some ds) (Some ts) w) as (_ & _ & F3 & _).
  split; [rewrite disableMatching_attr; by settle|].
  rewrite (step_dragstart _ D Hs).
  destruct (handleDragStart_effect (dragstart D) (disableMatching (Some ds) (Some ts) w))
    as (_ & _ & S3).
  rewrite handleDragStart_attr, S3, F3. by split; settle.
Qed.

Lemma X10_witness :
  let w1 := disableMatching (Some [2]) (Some [5]) demo in
  attrOf "aria-dropeffect" 5 w1 = None
  ∧ attrOf "aria-dropeffect" 5 (step w1 (Deliver (dragstart 1))) = Some "move"
  ∧ marked IS_AVAILABLE_TARGET 5 (step w1 (Deliver (dragstart 1))) = true.
Proof.
  apply (X10_next_dragstart_advertises_a_disabled_target_again demo [2] [5] 1 5);
    first [by_computing | vm_compute; reflexivity].
Defined.

(** X11: the click/keypress closure acts on a click and on the Enter and
    Space keys only, and the keydown closure on Escape only: any other key
    leaves the state as it is and does not prevent the default. *)
Theorem X11_other_keys_are_ignored (w : World) :
  (∀ e key h,
     key ≠ keyCodes.ENTER_KEY → key ≠ keyCodes.SPACE_BAR →
     bound "keypress" e w = [h] → h = HActivateDraggable ∨ h = HActivateTarget →
     trigger (keypress e key) w = returns w false false)
  ∧ (∀ c key,
       key ≠ keyCodes.ESCAPE → bound "keydown" c w = [HEscape] →
       trigger (keydown c key) w = returns w false false).
Proof.
  split.
  - intros e key h H1 H2 Hb Hh. rewrite (trigger_one h) by exact Hb.
    assert (E : isActivation (keypress e key) = false).
    { unfold isActivation. cbn [type which keypress].
      apply Z.eqb_neq in H1, H2. by rewrite H1, H2. }
    destruct Hh as [-> | ->]; cbn [call]; unfold activation; by rewrite E.
  - intros c key H1 Hb. rewrite (trigger_one HEscape) by exact Hb.
    cbn [call]. unfold escape. cbn [which keydown].
    apply Z.eqb_neq in H1. by rewrite H1.
Qed.

Lemma call_hover h evt w e :
  marked IS_HOVERED e (after (call h evt w))
  = match h with
    | HDragEnter | HDragOver =>
        marked IS_HOVERED e w || bool_decide (e = currentTarget evt)
    | HDragLeave | HDrop =>
        marked IS_HOVERED e w && negb (bool_decide (e = currentTarget evt))
    | _ => marked IS_HOVERED e w
    end.
Proof.
  destruct h; cbn [call].
  - rewrite (proj2 (proj2 (handleDragStart_effect evt w))). by settle.
  - unfold _handleDragEnd. destruct (dd_dragElement w) eqn:E; [|done].
    fold (_handleDragEnd evt w).
    destruct (handleDragEnd_effect evt w _ E) as (_ & _ & _ & R).
    unfold _handleDragEnd in R. rewrite E in R. rewrite R. by settle.
  - unfold _handleDragEnter; cbv zeta; fields. autorewrite with marks. settle.
    f_equal. apply bool_decide_ext, list_elem_of_singleton.
  - unfold _handleDragLeave; cbv zeta; fields. autorewrite with marks. settle.
    do 2 f_equal. apply bool_decide_ext, list_elem_of_singleton.
  - unfold _handleDragOver; cbv zeta; fields. autorewrite with marks. settle.
    rewrite <- orb_assoc, orb_diag.
    f_equal. apply bool_decide_ext, list_elem_of_singleton.
  - rewrite handleDrop_marked. by settle.
  - unfold activation. destruct (isActivation evt); fields; [|done].
    rewrite keyboardSelect_marked. by settle.
  - unfold activation. destruct (isActivation evt); fields; [|done].
    rewrite keyboardSelect_marked. by settle.
  - unfold escape. destruct (which evt =? keyCodes.ESCAPE)%Z; fields; [|done].
    change (marked ?c ?x (focus ?a ?b)) with (marked c x b).
    rewrite keyboardSelect_marked. by settle.
Qed.

Lemma dispatch_hover_elsewhere hs evt w e :
  e ≠ currentTarget evt →
  marked IS_HOVERED e (after (dispatch hs evt w)) = marked IS_HOVERED e w.
Proof.
  intros Hne. revert w. induction hs as [|h hs IH]; intros w; [done|].
  cbn [dispatch]. pose proof (call_hover h evt w e) as C.
  rewrite (bool_decide_eq_false_2 _ Hne), orb_false_r, andb_true_r in C.
  assert (C' : marked IS_HOVERED e (after (call h evt w)) = marked IS_HOVERED e w)
    by (by destruct h).
  destruct (thrown (call h evt w)); [done|]. fields. by rewrite IH.
Qed.

Lemma dispatch_hover_on hs evt w :
  Forall (λ h, h = HDragEnter ∨ h = HDragOver) hs →
  hs ≠ [] ∨ marked IS_HOVERED (currentTarget evt) w = true →
  marked IS_HOVERED (currentTarget evt) (after (dispatch hs evt w)) = true.
Proof.
  intros Hs. revert w. induction Hs as [|h hs Hh Hs IH]; intros w Hw.
  - by destruct Hw.
  - cbn [dispatch]. pose proof (call_hover h evt w (currentTarget evt)) as C.
    rewrite (bool_decide_eq_true_2 _ eq_refl), orb_true_r in C.
    assert (C' : marked IS_HOVERED (currentTarget evt) (after (call h evt w)) = true)
      by (by destruct Hh as [-> | ->]).
    destruct (thrown (call h evt w)); [done|]. fields. apply IH. by right.
Qed.

Lemma dispatch_hover_off hs evt w :
  Forall (λ h, h = HDragLeave ∨ h = HDrop) hs →
  hs ≠ [] ∨ marked IS_HOVERED (currentTarget evt) w = false →
  marked IS_HOVERED (currentTarget evt) (after (dispatch hs evt w)) = false.
Proof.
  intros Hs. revert w. induction Hs as [|h hs Hh Hs IH]; intros w Hw.
  - by destruct Hw.
  - cbn [dispatch]. pose proof (call_hover h evt w (currentTarget evt)) as C.
    rewrite (bool_decide_eq_true_2 _ eq_refl), andb_false_r in C.
    assert (C' : marked IS_HOVERED (currentTarget evt) (after (call h evt w)) = false)
      by (by destruct Hh as [-> | ->]).
    destruct (thrown (call h evt w)); [done|]. fields. apply IH. by right.
Qed.

Lemma dispatch_hover_kept hs evt w e :
  Forall (λ h, h ∉ [HDragEnter; HDragOver; HDragLeave; HDrop]) hs →
  marked IS_HOVERED e (after (dispatch hs evt w)) = marked IS_HOVERED e w.
Proof.
  intros Hs. revert w. induction Hs as [|h hs Hh Hs IH]; intros w; [done|].
  cbn [dispatch]. pose proof (call_hover h evt w e) as C.
  assert (C' : marked IS_HOVERED e (after (call h evt w)) = marked IS_HOVERED e w).
  { rewrite !elem_of_cons, elem_of_nil in Hh. destruct h; try done; tauto. }
  destruct (thrown (call h evt w)); [done|]. fields. by rewrite IH.
Qed.

(** X12: the hover marker of a target follows the last drop-side event
    delivered to it.  In a world with tidy bindings, a drag-enter or a
    drag-over that reaches a listener leaves its target hovered, a
    drag-leave or a drop that reaches a listener leaves it not hovered,
    every other event leaves the marker as it was (so a gesture that ends
    without drag-leave or drop leaves the target hovered), and no event
    changes the hover marker of an element other than its own target (so
    entering a second target does not take the marker off the first). *)
Theorem X12_hover_marker_follows_the_last_target_event (w : World) (evt : Event) :
  tidy w →
  let T := currentTarget evt in
  let w' := step w (Deliver evt) in
  (∀ e, e ≠ T → marked IS_HOVERED e w' = marked IS_HOVERED e w)
  ∧ (bound (type evt) T w ≠ [] → type evt ∈ ["dragenter"; "dragover"] →
     marked IS_HOVERED T w' = true)
  ∧ (bound (type evt) T w ≠ [] → type evt ∈ ["dragleave"; "drop"] →
     marked IS_HOVERED T w' = false)
  ∧ (type evt ∉ ["dragenter"; "dragover"; "dragleave"; "drop"] →
     marked IS_HOVERED T w' = marked IS_HOVERED T w).
Proof.
  intros Ht. cbv zeta. cbn [step].
  rewrite (trigger_bound evt w _ eq_refl).
  pose proof (λ h, bound_handles (type evt) (currentTarget evt) w h Ht) as Hh.
  split; [intros e He; by apply dispatch_hover_elsewhere|].
  split; [|split].
  - intros Hb Hty. apply dispatch_hover_on; [|by left].
    apply Forall_forall. intros h Hin. specialize (Hh h Hin).
    rewrite !elem_of_cons, elem_of_nil in Hty.
    destruct Hty as [E | [E | []]]; rewrite E in Hh; destruct h; cbn in Hh;
      try discriminate; try (destruct Hh; discriminate); tauto.
  - intros Hb Hty. apply dispatch_hover_off; [|by left].
    apply Forall_forall. intros h Hin. specialize (Hh h Hin).
    rewrite !elem_of_cons, elem_of_nil in Hty.
    destruct Hty as [E | [E | []]]; rewrite E in Hh; destruct h; cbn in Hh;
      try discriminate; try (destruct Hh; discriminate); tauto.
  - intros Hty. apply dispatch_hover_kept.
    apply Forall_forall. intros h Hin. specialize (Hh h Hin).
    rewrite !elem_of_cons, elem_of_nil in *.
    intros [-> | [-> | [-> | [-> | []]]]]; cbn in Hh; tauto.
Qed.

Lemma X12_witness :
  marked IS_HOVERED 4 (step demo (Deliver (dragenter 4))) = true
  ∧ marked IS_HOVERED 5 (step demo (Deliver (dragenter 4))) = marked IS_HOVERED 5 demo.
Proof.
  pose proof (X12_hover_marker_follows_the_last_target_event demo (dragenter 4) tidy_demo)
    as (H1 & H2 & _).
  split.
  - apply H2; [by_computing|]. apply list_elem_of_here.
  - apply H1. cbn. lia.
Defined.

Lemma selection_of_one (l : list nat) (e : nat) :
  NoDup l → (∀ x, x ∈ l → x = e) → l = [] ∨ l = [e].
Proof.
  intros Hnd H. destruct l as [|a l]; [by left|]. right.
  assert (a = e) by (apply H, elem_of_cons; by left). subst.
  destruct l as [|b l]; [done|].
  assert (b = e) by (apply H; rewrite !elem_of_cons; tauto). subst.
  apply NoDup_cons in Hnd as [Hn _]. exfalso. apply Hn, elem_of_cons. by left.
Qed.

Lemma NoDup_filterClass c els w : NoDup els → NoDup (jq.filterClass c els w).
Proof. intros H. unfold jq.filterClass. by apply NoDup_filter. Qed.

(** X13: on a classified page, activating an element twice puts both
    selections back as they were, provided no other element of its set was
    selected before (the first activation would have cleared that one). *)
Theorem X13_activating_twice_restores_the_selection
    (w : World) (evt : Event) (h : Handler) :
  Classified w →
  isActivation evt = true →
  bound (type evt) (currentTarget evt) w = [h] →
  h = HActivateDraggable ∨ h = HActivateTarget →
  (currentTarget evt ∈ dd_draggables w
   ∧ ∀ d, d ∈ _selectedDraggable w → d = currentTarget evt)
  ∨ (currentTarget evt ∈ dd_targets w
     ∧ ∀ t, t ∈ _selectedTarget w → t = currentTarget evt) →
  let w2 := run [Deliver evt; Deliver evt] w in
  _selectedDraggable w2 = _selectedDraggable w
  ∧ _selectedTarget w2 = _selectedTarget w.
Proof.
  intros Hc Ha Hb Hh Hcase. cbv zeta.
  change (run _ w) with (step (step w (Deliver evt)) (Deliver evt)).
  assert (Hb1 : bound (type evt) (currentTarget evt) (step w (Deliver evt)) = [h])
    by (by rewrite bound_step_deliver).
  destruct (sets_step_deliver evt w) as [Ed Et].
  destruct Hcase as [[Hin Hone]|[Hin Hone]].
  - destruct (activate_draggable w evt h Hc Ha Hb Hh Hin) as (C1 & S1 & T1 & _).
    destruct (activate_draggable _ evt h C1 Ha Hb1 Hh) as (_ & S2 & T2 & _);
      [by rewrite Ed|].
    rewrite S2, T2, T1, S1. split; [|done].
    destruct (selection_of_one (_selectedDraggable w) (currentTarget evt)) as [E|E];
      [apply NoDup_filterClass, Hc|done|..]; rewrite E.
    + rewrite (bool_decide_eq_false_2 (_ ∈ [])) by apply not_elem_of_nil.
      rewrite bool_decide_eq_true_2; [done|]. by apply list_elem_of_singleton.
    + rewrite (bool_decide_eq_true_2 (_ ∈ [_])) by (by apply list_elem_of_singleton).
      rewrite bool_decide_eq_false_2; [done|]. apply not_elem_of_nil.
  - destruct (activate_target w evt h Hc Ha Hb Hh Hin) as (C1 & S1 & T1 & _).
    destruct (activate_target _ evt h C1 Ha Hb1 Hh) as (_ & S2 & T2 & _);
      [by rewrite Et|].
    rewrite S2, T2, T1, S1. split; [done|].
    destruct (selection_of_one (_selectedTarget w) (currentTarget evt)) as [E|E];
      [apply NoDup_filterClass, Hc|done|..]; rewrite E.
    + rewrite (bool_decide_eq_false_2 (_ ∈ [])) by apply not_elem_of_nil.
      rewrite bool_decide_eq_true_2; [done|]. by apply list_elem_of_singleton.
    + rewrite (bool_decide_eq_true_2 (_ ∈ [_])) by (by apply list_elem_of_singleton).
      rewrite bool_decide_eq_false_2; [done|]. apply not_elem_of_nil.
Qed.

Lemma X13_witness :
  let w := run [Deliver (click 4); Deliver (click 2)] demo in
  let w2 := run [Deliver (keypress 2 keyCodes.ENTER_KEY);
                 Deliver (keypress 2 keyCodes.ENTER_KEY)] w in
  _selectedDraggable w = [2]
  ∧ _selectedDraggable w2 = _selectedDraggable w
  ∧ _selectedTarget w2 = _selectedTarget w.
Proof.
  intros w w2.
  assert (E : _selectedDraggable w = [2]) by (vm_compute; reflexivity).
  split; [exact E|].
  refine (X13_activating_twice_restores_the_selection w
            (keypress 2 keyCodes.ENTER_KEY) HActivateDraggable _ eq_refl _
            (or_introl eq_refl) _).
  - apply (proj1 (selection_run [click 4; click 2] demo Classified_demo
                    singleSelection_demo)).
  - vm_compute; reflexivity.
  - left. split; [by_computing|]. intros d Hd. rewrite E in Hd.
    by apply list_elem_of_singleton in Hd.
Defined.

(** X14: the toggle does not clear the selection after it called back.  From
    an empty selection, selecting D1 and then T calls back with that pair
    and leaves both selected; selecting another draggable D2 right after
    replaces D1 and calls back again, with D2 and the target still
    selected. *)
Theorem X14_selection_stays_after_the_callback (w : World) (D1 D2 T : Elem) :
  Classified w →
  _selectedDraggable w = [] → _selectedTarget w = [] →
  D1 ∈ dd_draggables w → D2 ∈ dd_draggables w → T ∈ dd_targets w → D1 ≠ D2 →
  bound "click" D1 w = [HActivateDraggable] →
  bound "click" D2 w = [HActivateDraggable] →
  bound "click" T w = [HActivateTarget] →
  let w2 := run [Deliver (click D1); Deliver (click T)] w in
  let w3 := step w2 (Deliver (click D2)) in
  (matchLog w2 = matchLog w ++ [(Some [D1], [T])]
   ∧ _selectedDraggable w2 = [D1] ∧ _selectedTarget w2 = [T])
  ∧ (matchLog w3 = matchLog w ++ [(Some [D1], [T]); (Some [D2], [T])]
     ∧ _selectedDraggable w3 = [D2] ∧ _selectedTarget w3 = [T]).
Proof.
  intros Hc ED ET HD1 HD2 HT Hne B1 B2 BT. cbv zeta.
  change (run _ w) with (step (step w (Deliver (click D1))) (Deliver (click T))).
  destruct (click_fresh_draggable w D1 Hc HD1) as (C1 & S1 & T1 & L1);
    [by rewrite ED; apply not_elem_of_nil|done|].
  set (w1 := step w (Deliver (click D1))) in *.
  destruct (sets_step_deliver (click D1) w) as [Ed1 Et1]. fold w1 in Ed1, Et1.
  destruct (click_fresh_target w1 T C1) as (C2 & S2 & T2 & L2).
  { by rewrite Et1. }
  { rewrite T1, ET. apply not_elem_of_nil. }
  { unfold w1. by rewrite bound_step_deliver. }
  set (w2 := step w1 (Deliver (click T))) in *.
  destruct (sets_step_deliver (click T) w1) as [Ed2 Et2]. fold w2 in Ed2, Et2.
  destruct (click_fresh_draggable w2 D2 C2) as (C3 & S3 & T3 & L3).
  { by rewrite Ed2, Ed1. }
  { rewrite T2, S1, list_elem_of_singleton. congruence. }
  { unfold w2, w1. by rewrite !bound_step_deliver. }
  rewrite S1 in L2, T2. rewrite ET in L1. cbn [nonEmpty] in L1, L2.
  rewrite app_nil_r in L1. rewrite L1 in L2.
  rewrite S2 in L3, T3. cbn [nonEmpty] in L3. rewrite L2, <- app_assoc in L3.
  split; [by rewrite L2, T2, S2|by rewrite L3, S3, T3].
Qed.

Lemma X14_witness :
  matchLog (run [Deliver (click 1); Deliver (click 4); Deliver (click 3)] demo)
  = matchLog demo ++ [(Some [1], [4]); (Some [3], [4])].
Proof.
  refine (proj1 (proj2 (X14_selection_stays_after_the_callback demo 1 3 4
                          Classified_demo _ _ _ _ _ _ _ _ _)));
    first [by_computing | vm_compute; reflexivity].
Defined.

Lemma cleanup_document w e :
  document (cleanup w) e
  = jq.each (jq.node_offType "click") (dd_targets w)
      (jq.each (jq.node_offType "click") (dd_draggables w)
         (jq.each (jq.node_off dropBindings) (dd_targets w)
            (jq.each (jq.node_off dragBindings) (dd_draggables w)
               (jq.each (jq.node_removeAttr "tabindex") (dd_targets w)
                  (jq.each (jq.node_removeAttr "tabindex") (dd_draggables w)
                     (jq.each (jq.node_removeAttr "draggable") (dd_draggables w)
                        (document w))))))) e.
Proof. reflexivity. Qed.

Lemma cleanup_sets w :
  dd_draggables (cleanup w) = dd_draggables w ∧ dd_targets (cleanup w) = dd_targets w.
Proof. split; reflexivity. Qed.

Lemma lookup_delete_case (m : gmap string string) (i k : string) :
  delete i m !! k = if bool_decide (k = i) then None else m !! k.
Proof.
  case_bool_decide as E; [subst; apply lookup_delete_eq|by apply lookup_delete_ne].
Qed.

Lemma each_apply (f : Node → Node) (els : jQuery) (doc : Elem → Node) (e : Elem) :
  jq.each f els doc e = (if bool_decide (e ∈ els) then f else id) (doc e).
Proof. unfold jq.each. by case_bool_decide. Qed.

Lemma node_equal (cl : gset string) (a1 a2 : gmap string string)
    (l1 l2 : list (string * Handler)) :
  a1 = a2 → l1 = l2 →
  {| classList := cl; attributes := a1; listeners := l1 |}
  = {| classList := cl; attributes := a2; listeners := l2 |}.
Proof. by intros -> ->. Qed.

(** X15: the two removing operations are idempotent.  Calling [cleanup] a
    second time, or [disableMatching] a second time with the same arguments,
    leaves every element (classes, attributes and listeners) exactly as the
    first call left it. *)
Theorem X15_cleanup_and_disableMatching_are_idempotent
    (w : World) (d t : option jQuery) (e : Elem) :
  document (cleanup (cleanup w)) e = document (cleanup w) e
  ∧ document (disableMatching d t (disableMatching d t w)) e
    = document (disableMatching d t w) e.
Proof.
  split.
  - rewrite (cleanup_document (cleanup w)).
    rewrite (proj1 (cleanup_sets w)), (proj2 (cleanup_sets w)).
    rewrite !each_apply, (cleanup_document w), !each_apply.
    generalize (document w e).
    destruct (bool_decide (e ∈ dd_draggables w)), (bool_decide (e ∈ dd_targets w));
      intros [cl a ls];
      cbv [jq.node_offType jq.node_off jq.node_removeAttr id
             classList attributes listeners]; apply node_equal;
      try reflexivity;
      try (apply map_eq; intros k; rewrite !lookup_delete_case;
           repeat case_bool_decide; done);
      rewrite ?list_filter_filter; apply list_filter_iff; intros x; tauto.
  - destruct d as [ds|], t as [ts|]; try reflexivity.
    rewrite (disableMatching_document ds ts (disableMatching (Some ds) (Some ts) w)).
    rewrite !each_apply, (disableMatching_document ds ts w), !each_apply.
    generalize (document w e).
    destruct (bool_decide (e ∈ ds)), (bool_decide (e ∈ ts));
      intros [cl a ls];
      cbv [jq.node_offType jq.node_off jq.node_removeAttr id
             classList attributes listeners]; apply node_equal;
      try reflexivity;
      try (apply map_eq; intros k; rewrite !lookup_delete_case;
           repeat case_bool_decide; done);
      rewrite ?list_filter_filter; apply list_filter_iff; intros x; tauto.
Qed.

(** X16: when the context selector matches nothing the controller has no
    context, no draggables and no targets and the constructor leaves every
    node of the page as it was; on a page without listeners no sequence of
    events then changes anything. *)
Theorem X16_an_empty_context_gives_an_inert_controller
    (ds ts : jQuery) (doc : Elem → Node) (evts : list Event) :
  (∀ e, listeners (doc e) = []) →
  let w := DragAndDrop [] ds ts doc in
  (dd_context w = [] ∧ dd_draggables w = [] ∧ dd_targets w = [])
  ∧ (∀ e, document w e = doc e)
  ∧ run (Deliver <$> evts) w = w
  ∧ Forall (λ o, defaultPrevented o = false ∧ thrown o = false) (outcomes evts w).
Proof.
  intros Hl. cbv zeta.
  assert (Hdoc : ∀ e, document (DragAndDrop [] ds ts doc) e = doc e).
  { intros e. unfold DragAndDrop. rewrite init_flat. by cbn. }
  split; [done|]. split; [exact Hdoc|].
  generalize dependent (DragAndDrop [] ds ts doc). intros w Hdoc.
  assert (Hn : ∀ evt, trigger evt w = returns w false false).
  { intros evt. apply trigger_none. unfold bound, handlersFor.
    by rewrite Hdoc, Hl. }
  induction evts as [|evt evts [IH1 IH2]]; [by split|].
  rewrite fmap_cons, run_cons. cbn [step outcomes]. rewrite Hn. fields.
  split; [exact IH1|]. apply Forall_cons. by split.
Qed.

Lemma X16_witness :
  run (Deliver <$> [click 1; dragstart 1; drop 4; keydown 0 27])
    (DragAndDrop [] [1; 2; 3] [4; 5; 6] page0)
  = DragAndDrop [] [1; 2; 3] [4; 5; 6] page0.
Proof.
  exact (proj1 (proj2 (proj2
    (X16_an_empty_context_gives_an_inert_controller [1; 2; 3] [4; 5; 6] page0
       [click 1; dragstart 1; drop 4; keydown 0 27] (λ _, eq_refl))))).
Defined.

Lemma activation_matchLog evt w :
  ∃ l, matchLog (after (activation evt w)) = matchLog w ++ l ∧ (length l ≤ 1)%nat.
Proof.
  unfold activation. destruct (isActivation evt); fields.
  - rewrite keyboardSelect_matchLog. eexists. split; [done|].
    destruct (_ && _); cbn; lia.
  - exists []. rewrite app_nil_r. split; [done|cbn; lia].
Qed.

Lemma escape_matchLog evt w : matchLog (after (escape evt w)) = matchLog w.
Proof.
  unfold escape. destruct (which evt =? keyCodes.ESCAPE)%Z eqn:Ek; fields; [|done].
  apply Z.eqb_eq in Ek. destruct (escape_effect evt w Ek) as (E & _ & _ & _ & M & _).
  rewrite <- E. exact M.
Qed.

Lemma call_matchLog h evt w :
  ∃ l, matchLog (after (call h evt w)) = matchLog w ++ l
       ∧ (length l ≤ 1)%nat
       ∧ (h ≠ HDrop → h ≠ HActivateDraggable → h ≠ HActivateTarget → l = []).
Proof.
  assert (Hsame : matchLog (after (call h evt w)) = matchLog w →
                  ∃ l, matchLog (after (call h evt w)) = matchLog w ++ l
                       ∧ (length l ≤ 1)%nat
                       ∧ (h ≠ HDrop → h ≠ HActivateDraggable →
                          h ≠ HActivateTarget → l = [])).
  { intros E. exists []. rewrite app_nil_r. split; [done|]. split; [cbn; lia|done]. }
  destruct h; cbn [call] in *.
  - apply Hsame, handleDragStart_effect.
  - apply Hsame. unfold _handleDragEnd. by destruct (dd_dragElement w).
  - by apply Hsame.
  - by apply Hsame.
  - by apply Hsame.
  - exists [(dd_dragElement w, [currentTarget evt])].
    split; [done|]. split; [cbn; lia|done].
  - destruct (activation_matchLog evt w) as (l & E & Hl). exists l. by repeat split.
  - destruct (activation_matchLog evt w) as (l & E & Hl). exists l. by repeat split.
  - apply Hsame, escape_matchLog.
Qed.

Lemma dispatch_matchLog hs evt w :
  ∃ l, matchLog (after (dispatch hs evt w)) = matchLog w ++ l
       ∧ (length l ≤ length hs)%nat
       ∧ (Forall (λ h, h ≠ HDrop ∧ h ≠ HActivateDraggable ∧ h ≠ HActivateTarget) hs →
          l = []).
Proof.
  revert w. induction hs as [|h hs IH]; intros w.
  { exists []. rewrite app_nil_r. by repeat split. }
  cbn [dispatch]. destruct (call_matchLog h evt w) as (l1 & E1 & L1 & N1).
  destruct (thrown (call h evt w)).
  - exists l1. split; [done|]. split; [cbn; lia|].
    intros Hs. apply Forall_cons in Hs as [(? & ? & ?) _]. by apply N1.
  - fields. destruct (IH (after (call h evt w))) as (l2 & E2 & L2 & N2).
    exists (l1 ++ l2). rewrite E2, E1, app_assoc. split; [done|].
    split; [rewrite length_app; cbn; lia|].
    intros Hs. apply Forall_cons in Hs as [(? & ? & ?) Hs].
    by rewrite N1, N2.
Qed.

(** X17: only a drop and an activation (click, Enter, Space) ever call the
    match callback.  With tidy bindings, drag-start, drag-end, drag-enter,
    drag-leave, drag-over and every keydown (the cancel key too) leave the
    call log as it is, as do [cleanup] and [disableMatching]; any other event
    keeps the calls made so far and adds at most one call per listener it
    reaches. *)
Theorem X17_what_calls_the_match_callback (w : World) :
  tidy w →
  (∀ evt,
     type evt ∈ ["dragstart"; "dragend"; "dragenter"; "dragleave"; "dragover";
                 "keydown"] →
     matchLog (step w (Deliver evt)) = matchLog w)
  ∧ (∀ evt, ∃ l,
       matchLog (step w (Deliver evt)) = matchLog w ++ l
       ∧ (length l ≤ length (bound (type evt) (currentTarget evt) w))%nat)
  ∧ matchLog (step w Cleanup) = matchLog w
  ∧ (∀ d t, matchLog (step w (DisableMatching d t)) = matchLog w).
Proof.
  intros Ht. split; [|split; [|split]].
  - intros evt Hty. cbn [step]. unfold trigger.
    destruct (dispatch_matchLog (handlersFor (type evt) (document w (currentTarget evt)))
                evt w) as (l & E & _ & N).
    rewrite E, N; [by rewrite app_nil_r|].
    apply Forall_forall. intros h Hh.
    pose proof (bound_handles _ _ _ _ Ht Hh) as Hd.
    rewrite !elem_of_cons, elem_of_nil in Hty.
    repeat split; intros ->; cbn in Hd;
      destruct Hty as [E1|[E1|[E1|[E1|[E1|[E1|[]]]]]]]; rewrite E1 in Hd;
      try discriminate; destruct Hd; discriminate.
  - intros evt. cbn [step]. unfold trigger, bound.
    destruct (dispatch_matchLog (handlersFor (type evt) (document w (currentTarget evt)))
                evt w) as (l & E & L & _).
    by exists l.
  - done.
  - intros d t. cbn [step]. apply disableMatching_fields.
Qed.

Lemma X17_witness :
  matchLog (step (step demo (Deliver (click 1))) (Deliver (keydown 0 27)))
  = matchLog (step demo (Deliver (click 1))).
Proof.
  refine (proj1 (X17_what_calls_the_match_callback (step demo (Deliver (click 1)))
                   (tidy_step _ _ tidy_demo)) (keydown 0 27) _).
  cbn [type keydown]. rewrite !elem_of_cons. tauto.
Defined.

Lemma call_marked_foreign h evt w c e :
  c ∉ [IS_MOVING; IS_AVAILABLE_TARGET; IS_HOVERED; IS_SELECTED] →
  marked c e (after (call h evt w)) = marked c e w.
Proof.
  rewrite !elem_of_cons, elem_of_nil. intros Hc.
  assert (c ≠ IS_MOVING ∧ c ≠ IS_AVAILABLE_TARGET ∧ c ≠ IS_HOVERED ∧ c ≠ IS_SELECTED)
    as (N1 & N2 & N3 & N4) by tauto.
  destruct h; try (by apply call_marked_other); cbn [call].
  - rewrite (proj2 (proj2 (handleDragStart_effect evt w))). by settle.
  - unfold _handleDragEnd. destruct (dd_dragElement w) eqn:E; [|done].
    fold (_handleDragEnd evt w).
    destruct (handleDragEnd_effect evt w _ E) as (_ & _ & _ & R).
    unfold _handleDragEnd in R. rewrite E in R. rewrite R. by settle.
Qed.

Lemma call_attr_other h evt w k e :
  k ≠ "aria-grabbed" → k ≠ "aria-dropeffect" →
  attrOf k e (after (call h evt w)) = attrOf k e w.
Proof.
  intros N1 N2. destruct h; cbn [call].
  - rewrite handleDragStart_attr. by settle.
  - unfold _handleDragEnd. destruct (dd_dragElement w); fields; [|done].
    autorewrite with attrs. by settle.
  - unfold _handleDragEnter; cbv zeta; fields. by autorewrite with attrs.
  - unfold _handleDragLeave; cbv zeta; fields. by autorewrite with attrs.
  - unfold _handleDragOver; cbv zeta; fields. by autorewrite with attrs.
  - unfold _handleDrop; cbv zeta; fields.
    change (attrOf k e (checkMatch ?a ?b ?c)) with (attrOf k e c).
    by autorewrite with attrs.
  - unfold activation. destruct (isActivation evt); fields; [|done].
    unfold attrOf. by rewrite (proj2 (proj2 (proj2 (proj2 (proj2 (proj2
      (keyboardSelect_frame w [currentTarget evt]))))))).
  - unfold activation. destruct (isActivation evt); fields; [|done].
    unfold attrOf. by rewrite (proj2 (proj2 (proj2 (proj2 (proj2 (proj2
      (keyboardSelect_frame w [currentTarget evt]))))))).
  - unfold escape. destruct (which evt =? keyCodes.ESCAPE)%Z; fields; [|done].
    unfold attrOf. change (document (focus ?a ?b)) with (document b).
    by rewrite (proj2 (proj2 (proj2 (proj2 (proj2 (proj2
      (keyboardSelect_frame w (_selectedDraggable w)))))))).
Qed.

Lemma dispatch_keeps hs evt w :
  (∀ c e, c ∉ [IS_MOVING; IS_AVAILABLE_TARGET; IS_HOVERED; IS_SELECTED] →
          marked c e (after (dispatch hs evt w)) = marked c e w)
  ∧ (∀ k e, k ≠ "aria-grabbed" → k ≠ "aria-dropeffect" →
            attrOf k e (after (dispatch hs evt w)) = attrOf k e w).
Proof.
  revert w. induction hs as [|h hs IH]; intros w; [done|].
  cbn [dispatch].
  pose proof (call_marked_foreign h evt w) as M.
  pose proof (call_attr_other h evt w) as A.
  destruct (thrown (call h evt w)); [by split|]. fields.
  destruct (IH (after (call h evt w))) as [IM IA].
  split; intros; [rewrite IM by done; by apply M|rewrite IA by done; by apply A].
Qed.

(** X18: events move markers and the two assistive values, nothing else.
    Over any sequence of events the context, the two sets and every
    listener binding stay as they are and so does every attribute other
    than aria-grabbed and aria-dropeffect; and over any sequence of events
    and public operations no class other than is-moving,
    is-available-target, is-hovered and is-selected changes on any element
    (has-moved, which the source names, is never written). *)
Theorem X18_what_events_and_operations_leave_alone
    (w : World) (evts : list Event) (sts : list Step) :
  (let w' := run (Deliver <$> evts) w in
   (dd_context w' = dd_context w ∧ dd_draggables w' = dd_draggables w
    ∧ dd_targets w' = dd_targets w)
   ∧ (∀ ty e, bound ty e w' = bound ty e w)
   ∧ (∀ k e, k ≠ "aria-grabbed" → k ≠ "aria-dropeffect" →
             attrOf k e w' = attrOf k e w))
  ∧ (∀ c e, c ∉ [IS_MOVING; IS_AVAILABLE_TARGET; IS_HOVERED; IS_SELECTED] →
            marked c e (run sts w) = marked c e w)
  ∧ (∀ e, marked HAS_MOVED e (run sts w) = marked HAS_MOVED e w).
Proof.
  cbv zeta. split; [|].
  - revert w. induction evts as [|evt evts IH]; intros w; [done|].
    rewrite fmap_cons, run_cons.
    destruct (IH (step w (Deliver evt))) as ((I1 & I2 & I3) & I4 & I5).
    destruct (trigger_frame evt w) as (F1 & F2 & F3 & _).
    cbn [step] in *. rewrite I1, I2, I3. split; [done|]. split.
    + intros. by rewrite I4, bound_trigger.
    + intros k e N1 N2. rewrite I5 by done.
      by apply (dispatch_keeps _ evt w).
  - assert (H : ∀ c e, c ∉ [IS_MOVING; IS_AVAILABLE_TARGET; IS_HOVERED; IS_SELECTED] →
                       marked c e (run sts w) = marked c e w).
    { revert w. induction sts as [|st sts IH]; intros w c e Hc; [done|].
      rewrite run_cons, IH by done. destruct st as [evt| |d t]; cbn [step].
      - by apply (dispatch_keeps _ evt w).
      - rewrite cleanup_flat. by autorewrite with marks.
      - apply disableMatching_fields. }
    split; [exact H|]. intros e. apply H.
    rewrite !elem_of_cons, elem_of_nil. intros [E|[E|[E|[E|[]]]]]; discriminate.
Qed.

Lemma call_flags h evt w :
  defaultPrevented (call h evt w)
  = match h with
    | HDragOver | HDrop => true
    | HActivateDraggable | HActivateTarget => isActivation evt
    | HEscape => (which evt =? keyCodes.ESCAPE)%Z
    | _ => false
    end
  ∧ propagationStopped (call h evt w)
    = match h with
      | HDragEnter | HDragLeave | HDrop => true
      | _ => false
      end.
Proof.
  destruct h; cbn [call];
    unfold _handleDragStart, _handleDragEnd, _handleDragEnter, _handleDragLeave,
      _handleDragOver, _handleDrop, activation, escape; cbv zeta;
    try (destruct (dd_dragElement w));
    try match goal with |- context [if ?b then _ else _] => destruct b end;
    fields; done.
Qed.

Lemma dispatch_flags hs evt w p s :
  Forall (λ h, ∀ v, defaultPrevented (call h evt v) = p
                    ∧ propagationStopped (call h evt v) = s) hs →
  hs ≠ [] →
  defaultPrevented (dispatch hs evt w) = p ∧ propagationStopped (dispatch hs evt w) = s.
Proof.
  intros Hs. revert w. induction Hs as [|h hs Hh Hs IH]; intros w Hne; [done|].
  cbn [dispatch]. destruct (Hh w) as [P S].
  destruct (thrown (call h evt w)); [done|]. fields.
  destruct hs as [|h' hs'].
  - cbn. by rewrite P, S, !orb_false_r.
  - destruct (IH (after (call h evt w))) as [P' S']; [done|].
    by rewrite P, S, P', S', !orb_diag.
Qed.

(** The flags of the event object after delivery, for a callback that
    returns. *)
Lemma trigger_flags (w : World) (evt : Event) :
  tidy w →
  bound (type evt) (currentTarget evt) w ≠ [] →
  let o := trigger evt w in
  (type evt ∈ ["dragover"; "drop"] → defaultPrevented o = true)
  ∧ (type evt ∈ ["click"; "keypress"] → defaultPrevented o = isActivation evt)
  ∧ (type evt = "click" → defaultPrevented o = true)
  ∧ (type evt = "keydown" →
     defaultPrevented o = (which evt =? keyCodes.ESCAPE)%Z)
  ∧ (type evt ∈ ["dragstart"; "dragend"; "dragenter"; "dragleave"] →
     defaultPrevented o = false)
  ∧ (type evt ∈ ["dragenter"; "dragleave"; "drop"] → propagationStopped o = true)
  ∧ (type evt ∉ ["dragenter"; "dragleave"; "drop"] → propagationStopped o = false).
Proof.
  intros Ht Hb. cbv zeta. rewrite (trigger_bound evt w _ eq_refl).
  pose proof (λ h, bound_handles (type evt) (currentTarget evt) w h Ht) as Hh.
  assert (X : ∃ h0, handles h0 (type evt)).
  { destruct (bound (type evt) (currentTarget evt) w) as [|h0 hs]; [done|].
    exists h0. apply Hh, list_elem_of_here. }
  destruct X as [h0 H0].
  assert (F : ∀ p s,
            (∀ h, handles h (type evt) →
                  match h with
                  | HDragOver | HDrop => true
                  | HActivateDraggable | HActivateTarget => isActivation evt
                  | HEscape => (which evt =? keyCodes.ESCAPE)%Z
                  | _ => false
                  end = p
                  ∧ match h with
                    | HDragEnter | HDragLeave | HDrop => true
                    | _ => false
                    end = s) →
            defaultPrevented (dispatch (bound (type evt) (currentTarget evt) w) evt w) = p
            ∧ propagationStopped (dispatch (bound (type evt) (currentTarget evt) w) evt w) = s).
  { intros p s H. apply dispatch_flags; [|exact Hb].
    apply Forall_forall. intros h Hin v.
    destruct (call_flags h evt v) as [-> ->]. by apply H, Hh. }
  assert (G : ∀ p, (∀ h, handles h (type evt) →
                  match h with
                  | HDragOver | HDrop => true
                  | HActivateDraggable | HActivateTarget => isActivation evt
                  | HEscape => (which evt =? keyCodes.ESCAPE)%Z
                  | _ => false
                  end = p) →
            defaultPrevented (dispatch (bound (type evt) (currentTarget evt) w) evt w) = p).
  { intros p H.
    refine (proj1 (F p (match h0 with
                        | HDragEnter | HDragLeave | HDrop => true
                        | _ => false end) _)).
    intros h Hhd. split; [by apply H|].
    destruct h, h0; cbn in Hhd, H0; try done;
      try (rewrite Hhd in H0; discriminate);
      try (destruct Hhd as [Hhd|Hhd]; rewrite Hhd in H0; try discriminate;
           destruct H0; discriminate);
      try (destruct H0 as [H0|H0]; rewrite H0 in Hhd; discriminate). }
  assert (S : ∀ s, (∀ h, handles h (type evt) →
                  match h with
                  | HDragEnter | HDragLeave | HDrop => true
                  | _ => false
                  end = s) →
            propagationStopped (dispatch (bound (type evt) (currentTarget evt) w) evt w) = s).
  { intros s H.
    refine (proj2 (F (match h0 with
                  | HDragOver | HDrop => true
                  | HActivateDraggable | HActivateTarget => isActivation evt
                  | HEscape => (which evt =? keyCodes.ESCAPE)%Z
                  | _ => false
                  end) s _)).
    intros h Hhd. split; [|by apply H].
    destruct h, h0; cbn in Hhd, H0; try done;
      try (rewrite Hhd in H0; discriminate);
      try (destruct Hhd as [Hhd|Hhd]; rewrite Hhd in H0; try discriminate;
           destruct H0; discriminate);
      try (destruct H0 as [H0|H0]; rewrite H0 in Hhd; discriminate). }
  repeat split.
  - intros Hty. apply G. intros h Hhd. rewrite !elem_of_cons, elem_of_nil in Hty.
    destruct Hty as [E | [E | []]]; rewrite E in Hhd; destruct h; cbn in Hhd;
      try done; try discriminate; destruct Hhd; discriminate.
  - intros Hty. apply G. intros h Hhd. rewrite !elem_of_cons, elem_of_nil in Hty.
    destruct Hty as [E | [E | []]]; rewrite E in Hhd; destruct h; cbn in Hhd;
      try done; try discriminate; destruct Hhd; discriminate.
  - intros E. apply G. intros h Hhd. rewrite E in Hhd.
    destruct h; cbn in Hhd; try discriminate;
      unfold isActivation; by rewrite E.
  - intros E. apply G. intros h Hhd. rewrite E in Hhd.
    destruct h; cbn in Hhd; try done; try discriminate; destruct Hhd; discriminate.
  - intros Hty. apply G. intros h Hhd. rewrite !elem_of_cons, elem_of_nil in Hty.
    destruct Hty as [E | [E | [E | [E | []]]]]; rewrite E in Hhd; destruct h;
      cbn in Hhd; try done; try discriminate; destruct Hhd; discriminate.
  - intros Hty. apply S. intros h Hhd. rewrite !elem_of_cons, elem_of_nil in Hty.
    destruct Hty as [E | [E | [E | []]]]; rewrite E in Hhd; destruct h;
      cbn in Hhd; try done; try discriminate; destruct Hhd; discriminate.
  - intros Hty. apply S. intros h Hhd. rewrite !elem_of_cons, elem_of_nil in Hty.
    destruct h; cbn in Hhd; try done; tauto.
Qed.

(* ------------------------------------------------------------------------- *)
(** ** Delivery with a callback that may throw *)

Section ThrowingCalls.
Context (raises : Callback).

(** The state is the one the plain function leaves; the callback is reached
    exactly when both selections are non-empty after the toggle. *)
Lemma throwing_keyboardSelect w el :
  let w' := _keyboardSelect w el in
  Throwing._keyboardSelect raises w el
  = (w', nonEmpty (_selectedDraggable w') && nonEmpty (_selectedTarget w')
         && raises (Some (_selectedDraggable w')) (_selectedTarget w') (document w')).
Proof.
  cbv zeta. unfold Throwing._keyboardSelect, _keyboardSelect; cbv zeta.
  set (w1 := jq.toggleClass _ _ _ _).
  destruct (nonEmpty (_selectedDraggable w1) && nonEmpty (_selectedTarget w1)) eqn:E.
  - rewrite !(proj1 (selected_checkMatch _ _ _)), !(proj2 (selected_checkMatch _ _ _)), E.
    reflexivity.
  - by rewrite E.
Qed.

(** The cancel closure toggles the selected draggables off, so it never
    reaches the callback. *)
Lemma throwing_escape evt w : Throwing.escape raises evt w = escape evt w.
Proof.
  unfold Throwing.escape, escape.
  destruct (which evt =? keyCodes.ESCAPE)%Z eqn:Ek; [|done]. cbv zeta.
  rewrite throwing_keyboardSelect. cbn [fst snd].
  apply Z.eqb_eq in Ek. destruct (escape_effect evt w Ek) as (E & _ & _ & _ & _ & S).
  rewrite E in S. change (_selectedDraggable (focus ?a ?b)) with (_selectedDraggable b) in S.
  by rewrite S.
Qed.

Lemma throwing_call_after h evt w :
  after (Throwing.call raises h evt w) = after (call h evt w).
Proof.
  destruct h; try reflexivity; cbn [Throwing.call call].
  - unfold Throwing.activation, activation. destruct (isActivation evt); [|done].
    cbv zeta. rewrite throwing_keyboardSelect. cbn [fst snd]. by destruct (_ && _).
  - unfold Throwing.activation, activation. destruct (isActivation evt); [|done].
    cbv zeta. rewrite throwing_keyboardSelect. cbn [fst snd]. by destruct (_ && _).
  - by rewrite throwing_escape.
Qed.

(** What makes one listener throw. *)
Lemma throwing_call_thrown h evt w :
  thrown (Throwing.call raises h evt w) = true →
  (h = HDragEnd ∧ dd_dragElement w = None ∧ after (Throwing.call raises h evt w) = w)
  ∨ ((h = HDrop ∨ h = HActivateDraggable ∨ h = HActivateTarget)
     ∧ ∃ d t, matchLog (after (Throwing.call raises h evt w)) = matchLog w ++ [(d, t)]
              ∧ raises d t (document (after (Throwing.call raises h evt w))) = true).
Proof.
  assert (A : ∀ v,
    thrown (Throwing.activation raises evt v) = true →
    ∃ d t, matchLog (after (Throwing.activation raises evt v)) = matchLog v ++ [(d, t)]
           ∧ raises d t (document (after (Throwing.activation raises evt v))) = true).
  { intros v. unfold Throwing.activation. destruct (isActivation evt); [|done].
    cbv zeta. rewrite throwing_keyboardSelect. cbn [fst snd].
    pose proof (keyboardSelect_matchLog v [currentTarget evt]) as L. cbv zeta in L.
    destruct (nonEmpty _ && nonEmpty _) eqn:E; [|done]. cbn [andb].
    destruct (raises _ _ _) eqn:R; [|done]. intros _. fields.
    eexists _, _. split; [exact L|exact R]. }
  destruct h; cbn [Throwing.call]; intros H.
  - done.
  - left. unfold _handleDragEnd in *. by destruct (dd_dragElement w).
  - done.
  - done.
  - done.
  - right. split; [by left|]. unfold Throwing._handleDrop in *; cbv zeta in *.
    fields. eexists _, _. split; [reflexivity|exact H].
  - right. split; [by right; left|]. by apply A.
  - right. split; [by right; right|]. by apply A.
  - rewrite throwing_escape in H. unfold escape in H.
    by destruct (which evt =? keyCodes.ESCAPE)%Z.
Qed.

Lemma throwing_dispatch_thrown hs evt w :
  Forall (λ h, h ≠ HDragEnd) hs →
  thrown (Throwing.dispatch raises hs evt w) = true →
  Exists (λ h, h = HDrop ∨ h = HActivateDraggable ∨ h = HActivateTarget) hs
  ∧ ∃ d t l, matchLog (after (Throwing.dispatch raises hs evt w)) = matchLog w ++ l ++ [(d, t)]
             ∧ raises d t (document (after (Throwing.dispatch raises hs evt w))) = true.
Proof.
  intros Hs. revert w. induction Hs as [|h hs Hh Hs IH]; intros w; [done|].
  cbn [Throwing.dispatch].
  pose proof (throwing_call_thrown h evt w) as C.
  pose proof (throwing_call_after h evt w) as A.
  destruct (thrown (Throwing.call raises h evt w)).
  - intros _. destruct (C eq_refl) as [(? & _)|(Hh' & d & t & L & R)]; [done|].
    split; [by apply Exists_cons_hd|]. exists d, t, []. by rewrite app_nil_l.
  - fields. intros T. destruct (IH _ T) as (Hex & d & t & l & L & R).
    split; [by apply Exists_cons_tl|].
    destruct (call_matchLog h evt w) as (l1 & E1 & _). rewrite <- A in E1.
    exists d, t, (l1 ++ l). by rewrite L, E1, <- !app_assoc.
Qed.

(** With a callback that returns, delivery is the plain delivery. *)
Lemma throwing_call_returns h evt w :
  (∀ d t doc, raises d t doc = false) →
  Throwing.call raises h evt w = call h evt w.
Proof.
  intros Hr. destruct h; try reflexivity; cbn [Throwing.call call].
  - unfold Throwing._handleDrop, _handleDrop; cbv zeta. by rewrite Hr.
  - unfold Throwing.activation, activation. destruct (isActivation evt); [|done].
    cbv zeta. rewrite throwing_keyboardSelect. cbn [fst snd].
    by rewrite Hr, andb_false_r.
  - unfold Throwing.activation, activation. destruct (isActivation evt); [|done].
    cbv zeta. rewrite throwing_keyboardSelect. cbn [fst snd].
    by rewrite Hr, andb_false_r.
  - apply throwing_escape.
Qed.

Lemma throwing_dispatch_returns hs evt w :
  (∀ d t doc, raises d t doc = false) →
  Throwing.dispatch raises hs evt w = dispatch hs evt w.
Proof.
  intros Hr. revert w. induction hs as [|h hs IH]; intros w; [done|].
  cbn [Throwing.dispatch dispatch]. rewrite (throwing_call_returns h evt w Hr).
  destruct (thrown (call h evt w)); [done|]. by rewrite IH.
Qed.

Lemma throwing_dispatch_one h evt w :
  Throwing.dispatch raises [h] evt w = Throwing.call raises h evt w.
Proof.
  cbn. destruct (Throwing.call raises h evt w) as [a p s t]; cbn.
  destruct t; [done|]. by rewrite !orb_false_r.
Qed.

(** Listeners that never reach the callback are delivered as before. *)
Lemma throwing_dispatch_plain hs evt w :
  Forall (λ h, h ≠ HDrop ∧ h ≠ HActivateDraggable ∧ h ≠ HActivateTarget) hs →
  Throwing.dispatch raises hs evt w = dispatch hs evt w.
Proof.
  intros Hs. revert w. induction Hs as [|h hs (N1 & N2 & N3) Hs IH]; intros w; [done|].
  cbn [Throwing.dispatch dispatch].
  assert (E : Throwing.call raises h evt w = call h evt w).
  { destruct h; try done. apply throwing_escape. }
  rewrite E. destruct (thrown (call h evt w)); [done|]. by rewrite IH.
Qed.

Lemma throwing_trigger_plain evt w :
  tidy w →
  type evt ∉ ["drop"; "click"; "keypress"] →
  Throwing.trigger raises evt w = trigger evt w.
Proof.
  intros Ht Hty. unfold Throwing.trigger, trigger. apply throwing_dispatch_plain.
  apply Forall_forall. intros h Hin.
  pose proof (bound_handles (type evt) (currentTarget evt) w h Ht Hin) as Hh.
  rewrite !elem_of_cons, elem_of_nil in Hty.
  repeat split; intros ->; cbn in Hh; tauto.
Qed.

Lemma throwing_trigger_bound evt w hs :
  bound (type evt) (currentTarget evt) w = hs →
  Throwing.trigger raises evt w = Throwing.dispatch raises hs evt w.
Proof. unfold Throwing.trigger, bound. by intros ->. Qed.

Lemma throwing_call_flags h evt w :
  defaultPrevented (Throwing.call raises h evt w)
  = match h with
    | HDragOver | HDrop => true
    | HActivateDraggable | HActivateTarget =>
        isActivation evt && negb (thrown (Throwing.call raises h evt w))
    | HEscape => (which evt =? keyCodes.ESCAPE)%Z
    | _ => false
    end
  ∧ propagationStopped (Throwing.call raises h evt w)
    = match h with
      | HDragEnter | HDragLeave | HDrop => true
      | _ => false
      end.
Proof.
  destruct h; cbn [Throwing.call].
  - exact (call_flags HDragStart evt w).
  - exact (call_flags HDragEnd evt w).
  - exact (call_flags HDragEnter evt w).
  - exact (call_flags HDragLeave evt w).
  - exact (call_flags HDragOver evt w).
  - split; reflexivity.
  - unfold Throwing.activation. destruct (isActivation evt); [|done].
    cbv zeta. by destruct (Throwing._keyboardSelect raises w [currentTarget evt]).2.
  - unfold Throwing.activation. destruct (isActivation evt); [|done].
    cbv zeta. by destruct (Throwing._keyboardSelect raises w [currentTarget evt]).2.
  - rewrite throwing_escape. apply (call_flags HEscape).
Qed.

Lemma throwing_dispatch_prevented hs evt w p :
  Forall (λ h, ∀ v, defaultPrevented (Throwing.call raises h evt v) = p) hs →
  hs ≠ [] →
  defaultPrevented (Throwing.dispatch raises hs evt w) = p.
Proof.
  intros Hs. revert w. induction Hs as [|h hs Hh Hs IH]; intros w Hne; [done|].
  cbn [Throwing.dispatch]. pose proof (Hh w) as P.
  destruct (thrown (Throwing.call raises h evt w)); [done|]. fields.
  destruct hs as [|h' hs'].
  - cbn. by rewrite P, orb_false_r.
  - rewrite P, IH by done. apply orb_diag.
Qed.

Lemma throwing_dispatch_stopped hs evt w s :
  Forall (λ h, ∀ v, propagationStopped (Throwing.call raises h evt v) = s) hs →
  hs ≠ [] →
  propagationStopped (Throwing.dispatch raises hs evt w) = s.
Proof.
  intros Hs. revert w. induction Hs as [|h hs Hh Hs IH]; intros w Hne; [done|].
  cbn [Throwing.dispatch]. pose proof (Hh w) as P.
  destruct (thrown (Throwing.call raises h evt w)); [done|]. fields.
  destruct hs as [|h' hs'].
  - cbn. by rewrite P, orb_false_r.
  - rewrite P, IH by done. apply orb_diag.
Qed.

(** When every click/keypress closure returned, each has prevented the
    default on an activation. *)
Lemma throwing_dispatch_activation hs evt w :
  Forall (λ h, h = HActivateDraggable ∨ h = HActivateTarget) hs →
  hs ≠ [] →
  thrown (Throwing.dispatch raises hs evt w) = false →
  defaultPrevented (Throwing.dispatch raises hs evt w) = isActivation evt.
Proof.
  intros Hs. revert w. induction Hs as [|h hs Hh Hs IH]; intros w Hne; [done|].
  cbn [Throwing.dispatch].
  assert (P : defaultPrevented (Throwing.call raises h evt w)
              = isActivation evt && negb (thrown (Throwing.call raises h evt w))).
  { destruct Hh as [-> | ->];
      [exact (proj1 (throwing_call_flags HActivateDraggable evt w))
      |exact (proj1 (throwing_call_flags HActivateTarget evt w))]. }
  destruct (thrown (Throwing.call raises h evt w)) eqn:T;
    [intros T'; cbv beta iota in T'; congruence|]. fields.
  rewrite P, andb_true_r. destruct hs as [|h' hs'].
  - intros _. cbn. apply orb_false_r.
  - intros T'. rewrite IH by done. apply orb_diag.
Qed.

End ThrowingCalls.

(** X7: what makes a listener throw.  With tidy bindings an event throws in
    two ways only.  A drag-end that reaches a listener while the drag
    reference is undefined (no drag-start was handled before) throws and
    leaves the state exactly as it was.  Otherwise the exception is the
    match callback's, which the source calls uncaught: the event is then a
    drop or a click or key press, the call is the last one logged, and the
    callback threw on those arguments.  For one drop listener the delivery
    throws exactly when the callback throws on the drag reference and the
    target, and the state is the one a returning callback leaves (hover
    marker removed, call logged); for one click/keypress closure on an
    activation it throws exactly when the toggle leaves both selections
    non-empty and the callback throws on them.  With a callback that never
    throws the delivery is the plain one and only the drag-end case
    remains. *)
Theorem X7_what_makes_a_listener_throw
    (raises : Callback) (w : World) (evt : Event) :
  tidy w →
  let o := Throwing.trigger raises evt w in
  (thrown o = true →
     (type evt = "dragend" ∧ bound "dragend" (currentTarget evt) w ≠ []
      ∧ dd_dragElement w = None ∧ after o = w)
     ∨ (type evt ∈ ["drop"; "click"; "keypress"]
        ∧ ∃ d t l, matchLog (after o) = matchLog w ++ l ++ [(d, t)]
                   ∧ raises d t (document (after o)) = true))
  ∧ (type evt = "dragend" → bound "dragend" (currentTarget evt) w ≠ [] →
     dd_dragElement w = None → thrown o = true)
  ∧ (bound (type evt) (currentTarget evt) w = [HDrop] →
     after o = after (trigger evt w)
     ∧ thrown o = raises (dd_dragElement w) [currentTarget evt] (document (after o)))
  ∧ (∀ h, bound (type evt) (currentTarget evt) w = [h] →
          h = HActivateDraggable ∨ h = HActivateTarget →
          isActivation evt = true →
          let w' := _keyboardSelect w [currentTarget evt] in
          after o = w'
          ∧ thrown o
            = nonEmpty (_selectedDraggable w') && nonEmpty (_selectedTarget w')
              && raises (Some (_selectedDraggable w')) (_selectedTarget w') (document w'))
  ∧ ((∀ d t doc, raises d t doc = false) →
     o = trigger evt w
     ∧ (thrown o = true
        ↔ type evt = "dragend" ∧ bound "dragend" (currentTarget evt) w ≠ []
          ∧ dd_dragElement w = None)).
Proof.
  intros Ht. cbv zeta.
  pose proof (trigger_thrown w evt Ht) as [P1 P2].
  pose proof (λ h, bound_handles (type evt) (currentTarget evt) w h Ht) as Hh.
  assert (Hend : type evt = "dragend" → Throwing.trigger raises evt w = trigger evt w).
  { intros E. apply (throwing_trigger_plain raises); [done|]. rewrite E.
    rewrite !elem_of_cons, elem_of_nil. intros [?|[?|[?|[]]]]; discriminate. }
  split; [|split; [|split; [|split]]].
  - intros T. destruct (decide (type evt = "dragend")) as [E|E].
    + left. rewrite (Hend E) in *. destruct (proj1 P1 T) as (_ & B & R).
      repeat split; [done|done|done|by apply P2].
    + right. rewrite (throwing_trigger_bound raises evt w _ eq_refl) in *.
      destruct (throwing_dispatch_thrown raises
                  (bound (type evt) (currentTarget evt) w) evt w) as (Hex & Hcall);
        [|exact T|].
      { apply Forall_forall. intros h Hin ->. specialize (Hh _ Hin). by cbn in Hh. }
      split; [|exact Hcall].
      apply Exists_exists in Hex as (h & Hin & Hcase). specialize (Hh h Hin).
      rewrite !elem_of_cons.
      destruct Hcase as [-> | [-> | ->]]; cbn in Hh; tauto.
  - intros E B R. rewrite (Hend E). apply P1. by rewrite <- E at 1.
  - intros B. rewrite (throwing_trigger_bound raises evt w _ B), throwing_dispatch_one.
    rewrite (trigger_one HDrop evt w B). split; [apply throwing_call_after|].
    reflexivity.
  - intros h B Hc Ha. cbv zeta.
    rewrite (throwing_trigger_bound raises evt w _ B), throwing_dispatch_one.
    assert (E : Throwing.call raises h evt w = Throwing.activation raises evt w)
      by (by destruct Hc as [-> | ->]).
    rewrite E. unfold Throwing.activation. rewrite Ha. cbv zeta.
    rewrite throwing_keyboardSelect. cbn [fst snd].
    by destruct (_ && _ && _).
  - intros Hr.
    assert (E : Throwing.trigger raises evt w = trigger evt w).
    { unfold Throwing.trigger, trigger. by apply throwing_dispatch_returns. }
    rewrite E. split; [done|]. rewrite P1. split.
    + intros (? & ? & ?). done.
    + intros (E1 & ? & ?). split; [done|]. split; [|done]. done.
Qed.

Lemma X7_witness :
  thrown (Throwing.trigger (λ _ _ _, true) (drop 4) demo) = true
  ∧ thrown (Throwing.trigger (λ _ _ _, true) (click 1) demo) = false
  ∧ thrown (Throwing.trigger (λ _ _ _, false) (dragend 1) demo) = true.
Proof.
  pose proof (X7_what_makes_a_listener_throw (λ _ _ _, true) demo (drop 4) tidy_demo)
    as (_ & _ & H3 & _).
  pose proof (X7_what_makes_a_listener_throw (λ _ _ _, true) demo (click 1) tidy_demo)
    as (_ & _ & _ & H4 & _).
  pose proof (X7_what_makes_a_listener_throw (λ _ _ _, false) demo (dragend 1) tidy_demo)
    as (_ & H2 & _).
  split; [|split].
  - apply H3. vm_compute; reflexivity.
  - rewrite (proj2 (H4 HActivateDraggable ltac:(vm_compute; reflexivity)
                      (or_introl eq_refl) eq_refl)).
    vm_compute; reflexivity.
  - apply H2; [reflexivity|by_computing|reflexivity].
Defined.

(** X19: which events have their default prevented and their propagation
    stopped, the callback being free to throw.  In a world with tidy
    bindings, for an event that reaches at least one listener: a drag-over
    and a drop have the default prevented, and a drag-enter, a drag-leave
    and a drop have the propagation stopped, a drop also when the callback
    throws (both calls come before it); a click, and a key press of Enter or
    Space, has the default prevented when no listener threw, and with one
    listener whose callback throws it has not ([preventDefault] comes after
    the call); a key-down has it prevented exactly for Escape and never
    throws; drag-start, drag-end, drag-enter and drag-leave never prevent
    the default, and no other event type stops the propagation. *)
Theorem X19_which_events_are_prevented_and_stopped
    (raises : Callback) (w : World) (evt : Event) :
  tidy w →
  bound (type evt) (currentTarget evt) w ≠ [] →
  let o := Throwing.trigger raises evt w in
  (type evt ∈ ["dragover"; "drop"] → defaultPrevented o = true)
  ∧ (type evt ∈ ["click"; "keypress"] → thrown o = false →
     defaultPrevented o = isActivation evt)
  ∧ (type evt = "click" → thrown o = false → defaultPrevented o = true)
  ∧ (type evt ∈ ["click"; "keypress"] →
     (∃ h, bound (type evt) (currentTarget evt) w = [h]) → thrown o = true →
     defaultPrevented o = false)
  ∧ (type evt = "keydown" →
     defaultPrevented o = (which evt =? keyCodes.ESCAPE)%Z ∧ thrown o = false)
  ∧ (type evt ∈ ["dragstart"; "dragend"; "dragenter"; "dragleave"] →
     defaultPrevented o = false)
  ∧ (type evt ∈ ["dragenter"; "dragleave"; "drop"] → propagationStopped o = true)
  ∧ (type evt ∉ ["dragenter"; "dragleave"; "drop"] → propagationStopped o = false).
Proof.
  intros Ht Hb. cbv zeta.
  pose proof (λ h, bound_handles (type evt) (currentTarget evt) w h Ht) as Hh.
  pose proof (trigger_flags w evt Ht Hb) as (F1 & _ & _ & F4 & F5 & F6 & F7).
  assert (Hplain : type evt ∉ ["drop"; "click"; "keypress"] →
                   Throwing.trigger raises evt w = trigger evt w)
    by (by apply (throwing_trigger_plain raises)).
  assert (Hact : type evt ∈ ["click"; "keypress"] →
                 Forall (λ h, h = HActivateDraggable ∨ h = HActivateTarget)
                   (bound (type evt) (currentTarget evt) w)).
  { intros Hty. apply Forall_forall. intros h Hin. specialize (Hh h Hin).
    rewrite !elem_of_cons, elem_of_nil in Hty.
    destruct Hty as [E | [E | []]]; rewrite E in Hh; destruct h; cbn in Hh;
      try discriminate; try (destruct Hh; discriminate); tauto. }
  assert (Hdrop : type evt = "drop" →
                  Forall (λ h, h = HDrop) (bound (type evt) (currentTarget evt) w)).
  { intros E. apply Forall_forall. intros h Hin. specialize (Hh h Hin).
    rewrite E in Hh. destruct h; cbn in Hh; try discriminate; try done.
    all: destruct Hh; discriminate. }
  assert (Hstop : ∀ s,
            (∀ h, h ∈ bound (type evt) (currentTarget evt) w →
                  match h with
                  | HDragEnter | HDragLeave | HDrop => true
                  | _ => false
                  end = s) →
            propagationStopped (Throwing.trigger raises evt w) = s).
  { intros s H. rewrite (throwing_trigger_bound raises evt w _ eq_refl).
    apply throwing_dispatch_stopped; [|exact Hb].
    apply Forall_forall. intros h Hin v.
    rewrite (proj2 (throwing_call_flags raises h evt v)). by apply H. }
  split; [|split; [|split; [|split; [|split; [|split; [|split]]]]]].
  - intros Hty. rewrite !elem_of_cons, elem_of_nil in Hty.
    destruct Hty as [E | [E | []]].
    + rewrite Hplain; [apply F1; rewrite E; apply list_elem_of_here|].
      rewrite E, !elem_of_cons, elem_of_nil. intros [?|[?|[?|[]]]]; discriminate.
    + rewrite (throwing_trigger_bound raises evt w _ eq_refl).
      apply throwing_dispatch_prevented; [|exact Hb].
      eapply Forall_impl; [exact (Hdrop E)|]. by intros h -> v.
  - intros Hty T. rewrite (throwing_trigger_bound raises evt w _ eq_refl) in *.
    by apply throwing_dispatch_activation; [apply Hact| |].
  - intros E T. rewrite (throwing_trigger_bound raises evt w _ eq_refl) in *.
    rewrite throwing_dispatch_activation; [|apply Hact|done|done].
    + unfold isActivation. by rewrite E.
    + rewrite E. apply list_elem_of_here.
  - intros Hty [h B] T. pose proof (Hact Hty) as Hf. rewrite B in Hf.
    apply Forall_cons in Hf as [Hc _].
    rewrite (throwing_trigger_bound raises evt w _ B), throwing_dispatch_one in *.
    destruct (throwing_call_flags raises h evt w) as [P _].
    rewrite P, T. destruct Hc as [-> | ->]; apply andb_false_r.
  - intros E.
    assert (Hp : Throwing.trigger raises evt w = trigger evt w).
    { apply Hplain. rewrite E, !elem_of_cons, elem_of_nil.
      intros [?|[?|[?|[]]]]; discriminate. }
    rewrite Hp. split; [by apply F4|].
    destruct (thrown (trigger evt w)) eqn:T; [|done].
    apply (proj1 (trigger_thrown w evt Ht)) in T as (E' & _). congruence.
  - intros Hty. rewrite Hplain; [by apply F5|].
    rewrite !elem_of_cons, elem_of_nil in *.
    intros [E|[E|[E|[]]]]; rewrite E in Hty;
      destruct Hty as [?|[?|[?|[?|[]]]]]; discriminate.
  - intros Hty. apply Hstop. intros h Hin. specialize (Hh h Hin).
    rewrite !elem_of_cons, elem_of_nil in Hty.
    destruct Hty as [E | [E | [E | []]]]; rewrite E in Hh; destruct h;
      cbn in Hh; try done; try discriminate; destruct Hh; discriminate.
  - intros Hty. apply Hstop. intros h Hin. specialize (Hh h Hin).
    rewrite !elem_of_cons, elem_of_nil in Hty.
    destruct h; cbn in Hh; try done; tauto.
Qed.

Lemma X19_witness :
  let w := step demo (Deliver (click 4)) in
  defaultPrevented (Throwing.trigger (λ _ _ _, true) (drop 4) demo) = true
  ∧ propagationStopped (Throwing.trigger (λ _ _ _, true) (drop 4) demo) = true
  ∧ propagationStopped (Throwing.trigger (λ _ _ _, true) (click 1) demo) = false
  ∧ defaultPrevented (Throwing.trigger (λ _ _ _, true) (click 1) w) = false
  ∧ defaultPrevented (Throwing.trigger (λ _ _ _, false) (click 1) w) = true.
Proof.
  intros w.
  assert (B4 : bound (type (drop 4)) (currentTarget (drop 4)) demo ≠ []) by by_computing.
  assert (B1 : bound (type (click 1)) (currentTarget (click 1)) demo ≠ []) by by_computing.
  assert (Bw : bound (type (click 1)) (currentTarget (click 1)) w = [HActivateDraggable])
    by (vm_compute; reflexivity).
  assert (Bw' : bound (type (click 1)) (currentTarget (click 1)) w ≠ [])
    by (by rewrite Bw).
  assert (Hw : tidy w) by apply tidy_step, tidy_demo.
  pose proof (X19_which_events_are_prevented_and_stopped (λ _ _ _, true) demo (drop 4)
                tidy_demo B4) as (H1 & _ & _ & _ & _ & _ & H6 & _).
  pose proof (X19_which_events_are_prevented_and_stopped (λ _ _ _, true) demo (click 1)
                tidy_demo B1) as (_ & _ & _ & _ & _ & _ & _ & H7).
  pose proof (X19_which_events_are_prevented_and_stopped (λ _ _ _, true) w (click 1)
                Hw Bw') as (_ & _ & _ & H4 & _).
  pose proof (X19_which_events_are_prevented_and_stopped (λ _ _ _, false) w (click 1)
                Hw Bw') as (_ & _ & H3 & _).
  split; [|split; [|split; [|split]]].
  - apply H1. apply list_elem_of_further, list_elem_of_here.
  - apply H6. do 2 apply list_elem_of_further. apply list_elem_of_here.
  - apply H7. cbn. rewrite !elem_of_cons, elem_of_nil.
    intros [E | [E | [E | []]]]; discriminate.
  - apply H4; [apply list_elem_of_here|by exists HActivateDraggable|].
    vm_compute; reflexivity.
  - apply H3; [reflexivity|]. vm_compute; reflexivity.
Defined.

Lemma handleDragEnd_attr evt w d k e :
  dd_dragElement w = Some d →
  attrOf k e (after (_handleDragEnd evt w))
  = if bool_decide (k = "aria-grabbed") && bool_decide (e ∈ d)
    then Some "false" else attrOf k e w.
Proof.
  intros E. unfold _handleDragEnd. rewrite E; cbv zeta; fields.
  by autorewrite with attrs.
Qed.

(** X20: [_handleDragEnd] works on the stored drag reference and not on the
    element the event is delivered to.  When a second drag-start is handled
    before the first gesture ended, a drag-end delivered on the first
    element clears the moving marker and the grabbed value of the second
    one; the first element keeps its moving marker and aria-grabbed true. *)
Theorem X20_dragend_acts_on_the_stored_reference (w : World) (D1 D2 : Elem) :
  D1 ≠ D2 →
  bound "dragstart" D1 w = [HDragStart] →
  bound "dragstart" D2 w = [HDragStart] →
  bound "dragend" D1 w = [HDragEnd] →
  let w2 := run [Deliver (dragstart D1); Deliver (dragstart D2)] w in
  let w3 := step w2 (Deliver (dragend D1)) in
  dd_dragElement w2 = Some [D2]
  ∧ (marked IS_MOVING D1 w3 = true ∧ attrOf "aria-grabbed" D1 w3 = Some "true")
  ∧ (marked IS_MOVING D2 w3 = false ∧ attrOf "aria-grabbed" D2 w3 = Some "false").
Proof.
  intros Hne B1 B2 Be. cbv zeta.
  change (run _ w) with (step (step w (Deliver (dragstart D1))) (Deliver (dragstart D2))).
  rewrite (step_dragstart w D1 B1).
  destruct (handleDragStart_effect (dragstart D1) w) as (_ & _ & M1).
  pose proof (handleDragStart_attr (dragstart D1) w) as A1.
  assert (Bw1 : ∀ ty e, bound ty e (after (_handleDragStart (dragstart D1) w))
                        = bound ty e w).
  { intros. rewrite <- (step_dragstart w D1 B1). apply bound_step_deliver. }
  set (w1 := after (_handleDragStart (dragstart D1) w)) in *.
  rewrite (step_dragstart w1 D2) by (by rewrite Bw1).
  destruct (handleDragStart_effect (dragstart D2) w1) as (R2 & _ & M2).
  pose proof (handleDragStart_attr (dragstart D2) w1) as A2.
  assert (Bw2 : ∀ ty e, bound ty e (after (_handleDragStart (dragstart D2) w1))
                        = bound ty e w).
  { intros. rewrite <- (step_dragstart w1 D2) by (by rewrite Bw1).
    by rewrite bound_step_deliver. }
  set (w2 := after (_handleDragStart (dragstart D2) w1)) in *.
  cbn [currentTarget dragstart] in *.
  rewrite (step_dragend w2 D1) by (by rewrite Bw2).
  destruct (handleDragEnd_effect (dragend D1) w2 _ R2) as (_ & _ & _ & M3).
  pose proof (λ k e, handleDragEnd_attr (dragend D1) w2 _ k e R2) as A3.
  assert (D1 ∉ [D2]) by (rewrite list_elem_of_singleton; congruence).
  assert (D2 ∈ [D2]) by (by apply list_elem_of_singleton).
  assert (D2 ≠ D1) by congruence.
  split; [done|]. rewrite !M3, !A3, !M2, !A2, !M1, !A1. by repeat split; settle.
Qed.

Lemma X20_witness :
  let w2 := run [Deliver (dragstart 1); Deliver (dragstart 2)] demo in
  let w3 := step w2 (Deliver (dragend 1)) in
  marked IS_MOVING 1 w3 = true ∧ marked IS_MOVING 2 w3 = false.
Proof.
  intros w2 w3.
  assert (B1 : bound "dragstart" 1 demo = [HDragStart]) by (vm_compute; reflexivity).
  assert (B2 : bound "dragstart" 2 demo = [HDragStart]) by (vm_compute; reflexivity).
  assert (Be : bound "dragend" 1 demo = [HDragEnd]) by (vm_compute; reflexivity).
  assert (Hne : 1 ≠ 2) by lia.
  pose proof (X20_dragend_acts_on_the_stored_reference demo 1 2 Hne B1 B2 Be)
    as (_ & [H1 _] & [H2 _]).
  split; [exact H1|exact H2].
Defined.
